(** * A shallow embedding of the discrete-time scheduling simulator

    The development follows [runSimulation] of [script.js] line by line:
    the task normaliser (lines 88-106), admission ([admitArrivals],
    120-128), the priority-inheritance estimator
    ([applyPriorityInheritance], 169-190), the boost-aware selection
    ([chooseNextWithBoost], 193-221), the DVFS decision (241-252), the
    dispatch and execution of the selected task (257-318), the wait
    counters (321-323), the early exit and the timeline (326-338), and
    the metrics (342-359). The click handler of the run button (68-78)
    is [runClick]. The function [chooseNext] (136-163), which the loop
    never calls, the escaping of markup ([escapeHtml], [showMessage]) and
    the elements of the chart of [renderResult] follow the simulator, in
    a part of their own.

    Modelling conventions.
    - A JavaScript number is a value of [num]: a rational, one of the
      two infinities, or NaN; the sign of zero is not modelled. What
      [Number] returns, and the sums and differences the simulator
      computes on the fields of a task (abs_deadline, the laxity, the
      scores of the estimator, the remaining work), are rounded as
      binary64 rounds them ([round64], [add64], [sub64]). The
      differences the comparators return are exact: [sort] reads their
      sign only, which rounding does not change. The quotients and sums
      of the metrics and the coordinates of the chart are exact as
      well: they are the numbers that the ones of binary64
      approximate. Counters that only ever hold integers (the tick,
      [wait_time], [completion_time], the energy and the busy counter)
      are in [Z]; [totalTime] is an integer, as [parseInt] gives it.
    - A numeric field of a task descriptor holds any value JSON has
      ([jsval]), an object by its own properties; [id] is a string,
      [holds_resource] and [needs_resource] are strings or absent. No
      descriptor has a property named __proto__. Fields of a descriptor
      that the simulator never reads are left out.
    - [Number] raises a TypeError on some objects: [Number] is a partial
      function, and so are [normalizeTask], [normalizeTasks] and
      [runSimulation_call], the call of the simulator. [normalize] and
      [runSimulation] are the same functions where every call of
      [Number] returns; the call of the simulator returns what
      [runSimulation] gives whenever it returns at all.
    - Task objects live in a store ([tasks : list task]); a reference to
      a task object is its index in the store, so [ready] and [running]
      alias the store exactly as the arrays of the source alias the
      objects.
    - The object [resources] is a [gmap string string] of the
      properties of its own. Reading a name it has no property for
      gives what [Object.prototype] has under that name, which is
      truthy and no id, for the names of [inheritedNames], and
      undefined for the others; writing a string under the name
      __proto__ makes no property.
    - Log lines are kept as structured [event]s instead of strings.
    - The host supplies [localeCompare] and the conversion of a string
      to a number; both are fields of the class [Host]. What is proved
      of the selection holds for every host whose [localeCompare] is a
      consistent comparison ([HostOrder]). The examples are evaluated
      with [evalHost], which compares ids by their code units, as the
      collation of the browsers orders ids made of digits and of
      upper-case letters of the basic Latin alphabet, the only ids of
      the examples; it converts strings of decimal digits.
    - [Array.prototype.sort] is modelled by a stable insertion sort; for
      a consistent comparator every conforming engine returns the same
      array. *)

From Stdlib Require Import ZArith QArith Qreduction Qround Qabs Qpower Lia Lqa.
From stdpp Require Import base gmap strings list.

Local Open Scope Z_scope.

(** ** Numbers *)

Inductive num : Type :=
| NaN
| PInf
| NInf
| Fin (q : Q).

Definition of_Z (z : Z) : num := Fin (inject_Z z).

Definition is_nan (x : num) : bool :=
  match x with NaN => true | _ => false end.

Definition num_add (x y : num) : num :=
  match x, y with
  | NaN, _ | _, NaN => NaN
  | PInf, NInf | NInf, PInf => NaN
  | PInf, _ | _, PInf => PInf
  | NInf, _ | _, NInf => NInf
  | Fin a, Fin b => Fin (Qred (a + b))
  end.

Definition num_sub (x y : num) : num :=
  match x, y with
  | NaN, _ | _, NaN => NaN
  | PInf, PInf | NInf, NInf => NaN
  | PInf, _ | _, NInf => PInf
  | NInf, _ | _, PInf => NInf
  | Fin a, Fin b => Fin (Qred (a - b))
  end.

Definition Qsgn (q : Q) : comparison := (q ?= 0)%Q.

Definition num_div (x y : num) : num :=
  match x, y with
  | NaN, _ | _, NaN => NaN
  | (PInf | NInf), (PInf | NInf) => NaN
  | PInf, Fin b => if Qsgn b is Lt then NInf else PInf
  | NInf, Fin b => if Qsgn b is Lt then PInf else NInf
  | Fin _, (PInf | NInf) => Fin 0
  | Fin a, Fin b =>
      match Qsgn b with
      | Eq => match Qsgn a with Eq => NaN | Gt => PInf | Lt => NInf end
      | _ => Fin (Qred (a / b))
      end
  end.

(** [x < y]; false as soon as one side is NaN. *)
Definition num_ltb (x y : num) : bool :=
  match x, y with
  | NaN, _ | _, NaN => false
  | _, NInf => false
  | NInf, _ => true
  | PInf, _ => false
  | Fin _, PInf => true
  | Fin a, Fin b => if (a ?= b)%Q is Lt then true else false
  end.

Definition num_gtb (x y : num) : bool := num_ltb y x.

(** [x <= y]; false as soon as one side is NaN. *)
Definition num_leb (x y : num) : bool :=
  match x, y with
  | NaN, _ | _, NaN => false
  | NInf, _ => true
  | _, PInf => true
  | _, NInf => false
  | PInf, _ => false
  | Fin a, Fin b => if (a ?= b)%Q is Gt then false else true
  end.

(** [Math.max] of two numbers. *)
Definition num_max (x y : num) : num :=
  match x, y with
  | NaN, _ | _, NaN => NaN
  | _, _ => if num_ltb x y then y else x
  end.

(** ** Rounding to binary64

    The sum and the difference of two numbers are the exact results,
    rounded to the nearest number that binary64 has, ties to the one with
    an even significand, and to an infinity from 2^1024 - 2^970 on. *)

(** 2^e, for an exponent of either sign. *)

Definition pow2 (e : Z) : Q :=
  if (0 <=? e)%Z then inject_Z (2 ^ e) else 1 # Z.to_pos (2 ^ (- e)).

(** The integer part of the binary logarithm of a positive rational. *)
Definition ilog2 (q : Q) : Z :=
  let k := Z.log2 (Qnum q) - Z.log2 (Zpos (Qden q)) in
  if Qle_bool (pow2 k) q then k else k - 1.

(** The nearest integer, ties to even. *)
Definition roundEven (q : Q) : Z :=
  let f := Qfloor q in
  match (q - inject_Z f ?= 1 # 2)%Q with
  | Lt => f
  | Gt => f + 1
  | Eq => if Z.even f then f else f + 1
  end.

(** The significand has 53 bits; the exponent of its last place is at
    least -1074, where the subnormal numbers lie. *)
Definition round64 (q : Q) : num :=
  match (q ?= 0)%Q with
  | Eq => Fin 0
  | c =>
      let a := Qabs q in
      let e := Z.max (ilog2 a - 52) (-1074) in
      let m := roundEven (a / pow2 e) in
      let v := (inject_Z m * pow2 e)%Q in
      if Qle_bool (pow2 1024) v then (if c is Lt then NInf else PInf)
      else Fin (Qred (if c is Lt then - v else v))
  end.

Definition fl (x : num) : num :=
  match x with Fin q => round64 q | _ => x end.

(** [x + y] and [x - y]. *)
Definition add64 (x y : num) : num := fl (num_add x y).
Definition sub64 (x y : num) : num := fl (num_sub x y).

(** ToBoolean on a number: 0 and NaN are falsy. *)
Definition num_truthy (x : num) : bool :=
  match x with
  | NaN => false
  | Fin q => if Qsgn q is Eq then false else true
  | _ => true
  end.

(** [x || y] on numbers. *)
Definition num_or (x y : num) : num := if num_truthy x then x else y.

(** ** Raw values of a task descriptor

    The values JSON has, and [undefined] for a property that is absent.
    An object is given by its own properties. A number stands for the
    binary64 number nearest to it, as a number of a JSON text does. *)

#[warnings="-register-all"]
Inductive jsval : Type :=
| JUndefined
| JNull
| JBool (b : bool)
| JNum (x : num)
| JStr (s : string)
| JArr (elements : list jsval)
| JObj (properties : list property)
with property : Type :=
| Property (name : string) (value : jsval).

Definition prop_name (p : property) : string :=
  match p with Property n _ => n end.

(** ToBoolean: arrays and objects are truthy. *)
Definition truthy (v : jsval) : bool :=
  match v with
  | JUndefined | JNull => false
  | JBool b => b
  | JNum x => num_truthy (fl x)
  | JStr s => negb (String.eqb s "")
  | JArr _ | JObj _ => true
  end.

Definition js_or (a b : jsval) : jsval := if truthy a then a else b.

(** What the host environment supplies. *)
Class Host : Type := {
  localeCompare : string -> string -> Z;
  StringToNumber : string -> num
}.

(** [localeCompare] is a consistent comparison of strings. *)
Class HostOrder (H : Host) : Prop := {
  lc_antisym : forall a b, 0 < localeCompare a b <-> localeCompare b a < 0;
  lc_trans : forall a b c,
    localeCompare a b <= 0 -> localeCompare b c <= 0 -> localeCompare a c <= 0
}.

(** The key held by a string-or-null field when the field is truthy. *)
Definition js_key (o : option string) : option string :=
  match o with
  | Some s => if String.eqb s "" then None else Some s
  | None => None
  end.

(** ** The object of the resources

    [resources] starts as [{}]; the map holds its own properties. *)

(** The names of the properties an object inherits from
    [Object.prototype]. *)
Definition inheritedNames : list string :=
  [ "constructor"; "hasOwnProperty"; "isPrototypeOf"; "propertyIsEnumerable";
    "toLocaleString"; "toString"; "valueOf"; "__proto__";
    "__defineGetter__"; "__defineSetter__"; "__lookupGetter__";
    "__lookupSetter__" ].

Definition inherited (k : string) : bool := bool_decide (k ∈ inheritedNames).

(** [resources[k] = v] with [v] a string. The name __proto__ is an
    accessor of the prototype, whose setter ignores a string: no
    property is made. *)
Definition assign (k v : string) (m : gmap string string) : gmap string string :=
  if String.eqb k "__proto__" then m else <[k := v]> m.

(** ** CPU states *)

Inductive cpu : Type := HIGH | LOW.

Definition cpu_name (c : cpu) : string :=
  match c with HIGH => "HIGH_PERFORMANCE" | LOW => "POWER_SAVER" end.

Definition cpu_speed (c : cpu) : num :=
  match c with HIGH => Fin 1 | LOW => Fin (1 # 2) end.

Definition cpu_power (c : cpu) : Z :=
  match c with HIGH => 10 | LOW => 3 end.

(** ** Tasks *)

Record descriptor : Type := {
  d_id : string;
  d_arrival : jsval;
  d_execution : jsval;
  d_exec : jsval;
  d_deadline : jsval;
  d_deadline_relative : jsval;
  d_period : jsval;
  d_is_critical : jsval;
  d_holds_resource : option string;
  d_needs_resource : option string;
  d_start_time : jsval;
  d_admitted : jsval;
  d_boosted : jsval;
  d_effectiveCritical : jsval
}.

Record segment : Type := {
  seg_start : Z;
  seg_end : Z;
  seg_state : string
}.

Record task : Type := {
  id : string;
  arrival : num;
  exec : num;
  remaining : num;
  deadline_relative : num;
  abs_deadline : num;
  period : num;
  is_critical : bool;
  history : list segment;
  started : bool;
  start_time : jsval;
  completed : bool;
  completion_time : option Z;
  wait_time : Z;
  holds_resource : option string;
  needs_resource : option string;
  admitted : bool;
  _boosted : bool;
  _effectiveCritical : bool
}.

Definition set_admitted (b : bool) (t : task) : task :=
  {| id := id t; arrival := arrival t; exec := exec t;
     remaining := remaining t; deadline_relative := deadline_relative t;
     abs_deadline := abs_deadline t; period := period t;
     is_critical := is_critical t; history := history t;
     started := started t; start_time := start_time t;
     completed := completed t; completion_time := completion_time t;
     wait_time := wait_time t; holds_resource := holds_resource t;
     needs_resource := needs_resource t; admitted := b;
     _boosted := _boosted t; _effectiveCritical := _effectiveCritical t |}.

Definition set_boosted (b : bool) (t : task) : task :=
  {| id := id t; arrival := arrival t; exec := exec t;
     remaining := remaining t; deadline_relative := deadline_relative t;
     abs_deadline := abs_deadline t; period := period t;
     is_critical := is_critical t; history := history t;
     started := started t; start_time := start_time t;
     completed := completed t; completion_time := completion_time t;
     wait_time := wait_time t; holds_resource := holds_resource t;
     needs_resource := needs_resource t; admitted := admitted t;
     _boosted := b; _effectiveCritical := _effectiveCritical t |}.

Definition set_effectiveCritical (b : bool) (t : task) : task :=
  {| id := id t; arrival := arrival t; exec := exec t;
     remaining := remaining t; deadline_relative := deadline_relative t;
     abs_deadline := abs_deadline t; period := period t;
     is_critical := is_critical t; history := history t;
     started := started t; start_time := start_time t;
     completed := completed t; completion_time := completion_time t;
     wait_time := wait_time t; holds_resource := holds_resource t;
     needs_resource := needs_resource t; admitted := admitted t;
     _boosted := _boosted t; _effectiveCritical := b |}.

Definition set_wait_time (w : Z) (t : task) : task :=
  {| id := id t; arrival := arrival t; exec := exec t;
     remaining := remaining t; deadline_relative := deadline_relative t;
     abs_deadline := abs_deadline t; period := period t;
     is_critical := is_critical t; history := history t;
     started := started t; start_time := start_time t;
     completed := completed t; completion_time := completion_time t;
     wait_time := w; holds_resource := holds_resource t;
     needs_resource := needs_resource t; admitted := admitted t;
     _boosted := _boosted t; _effectiveCritical := _effectiveCritical t |}.

Definition set_started (b : bool) (st : jsval) (t : task) : task :=
  {| id := id t; arrival := arrival t; exec := exec t;
     remaining := remaining t; deadline_relative := deadline_relative t;
     abs_deadline := abs_deadline t; period := period t;
     is_critical := is_critical t; history := history t;
     started := b; start_time := st;
     completed := completed t; completion_time := completion_time t;
     wait_time := wait_time t; holds_resource := holds_resource t;
     needs_resource := needs_resource t; admitted := admitted t;
     _boosted := _boosted t; _effectiveCritical := _effectiveCritical t |}.

Definition set_history (h : list segment) (t : task) : task :=
  {| id := id t; arrival := arrival t; exec := exec t;
     remaining := remaining t; deadline_relative := deadline_relative t;
     abs_deadline := abs_deadline t; period := period t;
     is_critical := is_critical t; history := h;
     started := started t; start_time := start_time t;
     completed := completed t; completion_time := completion_time t;
     wait_time := wait_time t; holds_resource := holds_resource t;
     needs_resource := needs_resource t; admitted := admitted t;
     _boosted := _boosted t; _effectiveCritical := _effectiveCritical t |}.

Definition set_remaining (r : num) (t : task) : task :=
  {| id := id t; arrival := arrival t; exec := exec t;
     remaining := r; deadline_relative := deadline_relative t;
     abs_deadline := abs_deadline t; period := period t;
     is_critical := is_critical t; history := history t;
     started := started t; start_time := start_time t;
     completed := completed t; completion_time := completion_time t;
     wait_time := wait_time t; holds_resource := holds_resource t;
     needs_resource := needs_resource t; admitted := admitted t;
     _boosted := _boosted t; _effectiveCritical := _effectiveCritical t |}.

Definition set_completed (b : bool) (ct : option Z) (t : task) : task :=
  {| id := id t; arrival := arrival t; exec := exec t;
     remaining := remaining t; deadline_relative := deadline_relative t;
     abs_deadline := abs_deadline t; period := period t;
     is_critical := is_critical t; history := history t;
     started := started t; start_time := start_time t;
     completed := b; completion_time := ct;
     wait_time := wait_time t; holds_resource := holds_resource t;
     needs_resource := needs_resource t; admitted := admitted t;
     _boosted := _boosted t; _effectiveCritical := _effectiveCritical t |}.

(** ** The task normaliser *)

Section Simulator.

Context {host : Host}.

(** The conversion of a value to a number, where it gives one. An
    array converts as the string that joins its elements with commas
    does: the empty array as the empty string, an array of one element
    as the string of that element, a longer one to NaN. An object
    converts as the string [object Object] does. *)
Fixpoint numberValue (v : jsval) : num :=
  match v with
  | JUndefined => NaN
  | JNull => Fin 0
  | JBool b => if b then Fin 1 else Fin 0
  | JNum x => fl x
  | JStr s => fl (StringToNumber s)
  | JArr [] => Fin 0
  | JArr [w] =>
      match w with
      | JUndefined | JNull => Fin 0
      | JBool _ => NaN
      | _ => numberValue w
      end
  | JArr _ => NaN
  | JObj _ => NaN
  end.

(** The conversion raises a TypeError on an object that has a property
    of its own named toString: the property is no function, and neither
    it nor valueOf gives a primitive value. It does so on an array that
    has such an object among its elements. *)
Fixpoint throws (v : jsval) : bool :=
  match v with
  | JArr l => existsb throws l
  | JObj ps => existsb (fun p => String.eqb (prop_name p) "toString") ps
  | _ => false
  end.

(** [Number(v)]; [None] stands for the TypeError. *)
Definition Number (v : jsval) : option num :=
  if throws v then None else Some (numberValue v).

(** The function mapped over [tasks] at lines 88-106, where its four
    calls of [Number] return. [Object.assign] copies every property of
    the descriptor, and the function overwrites all of those below but
    [id], [start_time], [admitted] and the two flags. *)
Definition normalize (d : descriptor) : task :=
  let arrival := numberValue (js_or (d_arrival d) (JNum (Fin 0))) in
  let exec := numberValue (js_or (js_or (d_execution d) (d_exec d)) (JNum (Fin 0))) in
  let deadline_relative :=
    numberValue (js_or (js_or (d_deadline d) (d_deadline_relative d)) (JNum exec)) in
  {| id := d_id d;
     arrival := arrival;
     exec := exec;
     remaining := exec;
     deadline_relative := deadline_relative;
     abs_deadline := add64 arrival deadline_relative;
     period := match d_period d with
               | JNull | JUndefined => PInf
               | v => numberValue v
               end;
     is_critical := truthy (d_is_critical d);
     history := [];
     started := false;
     start_time := d_start_time d;
     completed := false;
     completion_time := None;
     wait_time := 0;
     holds_resource := js_key (d_holds_resource d);
     needs_resource := js_key (d_needs_resource d);
     admitted := truthy (d_admitted d);
     _boosted := truthy (d_boosted d);
     _effectiveCritical := truthy (d_effectiveCritical d) |}.

(** The same function with the calls of [Number] as they are made, in
    the order of the source; the first that raises ends it. *)
Definition normalizeTask (d : descriptor) : option task :=
  arrival ← Number (js_or (d_arrival d) (JNum (Fin 0)));
  exec ← Number (js_or (js_or (d_execution d) (d_exec d)) (JNum (Fin 0)));
  deadline_relative ←
    Number (js_or (js_or (d_deadline d) (d_deadline_relative d)) (JNum exec));
  period ← match d_period d with
           | JNull | JUndefined => Some PInf
           | v => Number v
           end;
  Some {| id := d_id d;
          arrival := arrival;
          exec := exec;
          remaining := exec;
          deadline_relative := deadline_relative;
          abs_deadline := add64 arrival deadline_relative;
          period := period;
          is_critical := truthy (d_is_critical d);
          history := [];
          started := false;
          start_time := d_start_time d;
          completed := false;
          completion_time := None;
          wait_time := 0;
          holds_resource := js_key (d_holds_resource d);
          needs_resource := js_key (d_needs_resource d);
          admitted := truthy (d_admitted d);
          _boosted := truthy (d_boosted d);
          _effectiveCritical := truthy (d_effectiveCritical d) |}.

(** [tasks.map(...)], lines 88-106. *)
Definition normalizeTasks (ds : list descriptor) : option (list task) :=
  mapM normalizeTask ds.

(** ** Simulation state *)

Inductive event : Type :=
| EvAdmitted (t : Z) (who : string)
| EvBoost (t : Z) (owner waiter : string)
| EvBlocked (t : Z) (who res : string)
| EvAcquired (t : Z) (who res : string)
| EvRunning (t : Z) (who : string) (speed shown : num)
| EvCompleted (t : Z) (who : string) (deadline : num)
| EvReleased (t : Z) (who res : string)
| EvIdle (t : Z).

Record snapshot : Type := {
  snap_time : Z;
  snap_running : option string;
  snap_cpuState : string
}.

Record state : Type := {
  tasks : list task;
  log : list event;
  ready : list nat;
  running : option nat;
  cpuState : cpu;
  totalEnergy : Z;
  cpuBusyTime : Z;
  resources : gmap string string;
  timeline : list snapshot
}.

Definition set_tasks (ts : list task) (s : state) : state :=
  {| tasks := ts; log := log s; ready := ready s; running := running s;
     cpuState := cpuState s; totalEnergy := totalEnergy s;
     cpuBusyTime := cpuBusyTime s; resources := resources s;
     timeline := timeline s |}.

Definition logPush (e : event) (s : state) : state :=
  {| tasks := tasks s; log := log s ++ [e]; ready := ready s;
     running := running s; cpuState := cpuState s;
     totalEnergy := totalEnergy s; cpuBusyTime := cpuBusyTime s;
     resources := resources s; timeline := timeline s |}.

Definition set_ready (r : list nat) (s : state) : state :=
  {| tasks := tasks s; log := log s; ready := r; running := running s;
     cpuState := cpuState s; totalEnergy := totalEnergy s;
     cpuBusyTime := cpuBusyTime s; resources := resources s;
     timeline := timeline s |}.

Definition set_running (r : option nat) (s : state) : state :=
  {| tasks := tasks s; log := log s; ready := ready s; running := r;
     cpuState := cpuState s; totalEnergy := totalEnergy s;
     cpuBusyTime := cpuBusyTime s; resources := resources s;
     timeline := timeline s |}.

Definition set_cpu (c : cpu) (e : Z) (s : state) : state :=
  {| tasks := tasks s; log := log s; ready := ready s; running := running s;
     cpuState := c; totalEnergy := e;
     cpuBusyTime := cpuBusyTime s; resources := resources s;
     timeline := timeline s |}.

Definition set_cpuBusyTime (b : Z) (s : state) : state :=
  {| tasks := tasks s; log := log s; ready := ready s; running := running s;
     cpuState := cpuState s; totalEnergy := totalEnergy s;
     cpuBusyTime := b; resources := resources s;
     timeline := timeline s |}.

Definition set_resources (m : gmap string string) (s : state) : state :=
  {| tasks := tasks s; log := log s; ready := ready s; running := running s;
     cpuState := cpuState s; totalEnergy := totalEnergy s;
     cpuBusyTime := cpuBusyTime s; resources := m;
     timeline := timeline s |}.

Definition set_timeline (tl : list snapshot) (s : state) : state :=
  {| tasks := tasks s; log := log s; ready := ready s; running := running s;
     cpuState := cpuState s; totalEnergy := totalEnergy s;
     cpuBusyTime := cpuBusyTime s; resources := resources s;
     timeline := tl |}.

(** In-place update of the task object at index [i]. *)
Definition update (i : nat) (f : task -> task) (s : state) : state :=
  set_tasks (alter f i (tasks s)) s.

Definition init (ts : list task) : state :=
  {| tasks := ts; log := []; ready := []; running := None;
     cpuState := HIGH; totalEnergy := 0; cpuBusyTime := 0;
     resources := ∅; timeline := [] |}.

(** ** Admission *)

(** One iteration of the loop of [admitArrivals] (lines 121-127). *)
Definition admitOne (currentTime : Z) (s : state) (i : nat) : state :=
  match tasks s !! i with
  | Some t =>
      if negb (admitted t) && num_leb (arrival t) (of_Z currentTime) then
        logPush (EvAdmitted currentTime (id t))
          (set_ready (ready s ++ [i]) (update i (set_admitted true) s))
      else s
  | None => s
  end.

Definition admitArrivals (currentTime : Z) (s : state) : state :=
  foldl (admitOne currentTime) s (seq 0 (length (tasks s))).

Definition computeLaxity (currentTime : Z) (t : task) : num :=
  sub64 (abs_deadline t) (add64 (of_Z currentTime) (remaining t)).

(** ** Priority inheritance *)

(** The score compared by the estimator (lines 182-183). *)
Definition prio (t : task) : num :=
  sub64 (if is_critical t then of_Z 1000000 else of_Z 0) (abs_deadline t).

(** [tasks.find(x => x.id === ownerId)], as an index into the store. *)
Definition findById (ownerId : string) (ts : list task) : option (nat * task) :=
  list_find (fun x => id x = ownerId) ts.

(** One iteration of the loop over the waiters (lines 175-189). *)
Definition inheritOne (currentTime : Z) (s : state) (w : nat) : state :=
  match tasks s !! w with
  | None => s
  | Some waiter =>
      match js_key (needs_resource waiter) with
      | None => s
      | Some r =>
          match js_key (resources s !! r) with
          | None => s
          | Some ownerId =>
              match findById ownerId (tasks s) with
              | None => s
              | Some (o, owner) =>
                  if num_gtb (prio waiter) (prio owner) then
                    logPush (EvBoost currentTime (id owner) (id waiter))
                      (update o (set_boosted true) s)
                  else s
              end
          end
      end
  end.

(** Lines 169-190: the boosts are reset, then recomputed. *)
Definition applyPriorityInheritance (currentTime : Z) (s : state) : state :=
  let s1 := set_tasks (set_boosted false <$> tasks s) s in
  foldl (inheritOne currentTime) s1 (ready s1).

(** ** Selection *)

(** The two comparators passed to [sort]:
    [a.period - b.period || a.arrival - b.arrival || a.id.localeCompare(b.id)]
    and the same with [abs_deadline]. *)
Definition cmpRMS (a b : task) : num :=
  num_or (num_or (num_sub (period a) (period b))
                 (num_sub (arrival a) (arrival b)))
         (of_Z (localeCompare (id a) (id b))).

Definition cmpEDF (a b : task) : num :=
  num_or (num_or (num_sub (abs_deadline a) (abs_deadline b))
                 (num_sub (arrival a) (arrival b)))
         (of_Z (localeCompare (id a) (id b))).

(** [Array.prototype.sort] with a comparator, as a stable insertion sort. *)
Fixpoint insertBy {A : Type} (cmp : A -> A -> num) (x : A) (l : list A) : list A :=
  match l with
  | [] => [x]
  | y :: l' =>
      if num_gtb (cmp x y) (of_Z 0) then y :: insertBy cmp x l' else x :: l
  end.

Definition sortBy {A : Type} (cmp : A -> A -> num) (l : list A) : list A :=
  foldr (insertBy cmp) [] l.

(** [t.remaining > 0 && !t.completed] *)
Definition isCandidate (t : task) : bool :=
  num_gtb (remaining t) (of_Z 0) && negb (completed t).

(** The object references of an array of references. *)
Definition deref (ts : list task) (l : list nat) : list (nat * task) :=
  omap (fun i => pair i <$> ts !! i) l.

Definition byTask (cmp : task -> task -> num) (p q : nat * task) : num :=
  cmp p.2 q.2.

(** [t._effectiveCritical = t._boosted || t.is_critical] *)
Definition markEffective (s : state) (i : nat) : state :=
  update i (fun t => set_effectiveCritical (_boosted t || is_critical t) t) s.

(** [ready.filter(t => t.remaining > 0 && !t.completed)] *)
Definition candidatesOf (s : state) : list nat :=
  fst <$> List.filter (fun p => isCandidate p.2) (deref (tasks s) (ready s)).

(** Lines 193-221. The result is the state, in which the candidates
    carry their [_effectiveCritical] mark, and the selected reference. *)
Definition chooseNextWithBoost (scheduler : string) (s : state)
  : state * option nat :=
  let candidates := candidatesOf s in
  if (length candidates =? 0)%nat then (s, None) else
  let s1 := foldl markEffective s candidates in
  let objs := deref (tasks s1) candidates in
  let first (l : list (nat * task)) := fst <$> head l in
  if String.eqb scheduler "rms" then
    (s1, first (sortBy (byTask cmpRMS) objs))
  else if String.eqb scheduler "edf" then
    (s1, first (sortBy (byTask cmpEDF) objs))
  else if String.eqb scheduler "hybrid" || String.eqb scheduler "energy-hybrid" then
    let criticalReady := List.filter (fun p => _effectiveCritical p.2) objs in
    if (0 <? length criticalReady)%nat then
      (s1, first (sortBy (byTask cmpRMS) criticalReady))
    else
      (s1, first (sortBy (byTask cmpEDF) objs))
  else
    (s1, first (sortBy (byTask cmpEDF) objs)).

(** ** One tick *)

(** The bound 0.0001 of line 295. *)
Definition epsilon : num := Fin (1 # 10000).

Definition run_segment (currentTime : Z) : segment :=
  {| seg_start := currentTime; seg_end := currentTime + 1; seg_state := "run" |}.

(** Lines 286-291: the last segment is extended when it is a run
    segment; a new one is pushed if not. *)
Definition extend_history (currentTime : Z) (h : list segment) : list segment :=
  match last h with
  | Some lastSeg =>
      if String.eqb (seg_state lastSeg) "run" then
        removelast h ++
          [{| seg_start := seg_start lastSeg; seg_end := currentTime + 1;
              seg_state := seg_state lastSeg |}]
      else h ++ [run_segment currentTime]
  | None => h ++ [run_segment currentTime]
  end.

(** The in-place updates of the running task, up to the decrement
    (lines 284-292). *)
Definition runTask (currentTime : Z) (work : num) (t : task) : task :=
  let t1 := if started t then t else set_started true (JNum (of_Z currentTime)) t in
  let t2 := set_history (extend_history currentTime (history t1)) t1 in
  set_remaining (sub64 (remaining t2) work) t2.

(** Lines 300-305. *)
Definition release_held (currentTime : Z) (r : task) (s : state) : state :=
  match js_key (holds_resource r) with
  | Some h =>
      if bool_decide (resources s !! h = Some (id r)) then
        logPush (EvReleased (currentTime + 1) (id r) h)
          (set_resources (delete h (resources s)) s)
      else s
  | None => s
  end.

(** Lines 307-311. *)
Definition clear_needed (r : task) (s : state) : state :=
  match js_key (needs_resource r) with
  | Some n =>
      if bool_decide (resources s !! n = Some (id r)) then
        set_resources (delete n (resources s)) s
      else s
  | None => s
  end.

(** The body of [if (running) { ... }] (lines 281-314). *)
Definition execute (currentTime : Z) (i : nat) (s : state) : state :=
  let work := cpu_speed (cpuState s) in
  let s1 := update i (runTask currentTime work) s in
  let s2 := set_cpuBusyTime (cpuBusyTime s1 + 1) s1 in
  match tasks s2 !! i with
  | None => s2
  | Some r =>
      let s3 :=
        logPush (EvRunning currentTime (id r) work (num_max (of_Z 0) (remaining r))) s2 in
      if num_leb (remaining r) epsilon then
        let s4 := update i (set_completed true (Some (currentTime + 1))) s3 in
        let s5 := logPush (EvCompleted (currentTime + 1) (id r) (abs_deadline r)) s4 in
        clear_needed r (release_held currentTime r s5)
      else s3
  end.

(** [const owner = resources[res]; owner && owner !== running.id]. Under
    a name that [resources] has no property of its own for, the object
    gives what it inherits: a function, or its prototype, which is
    truthy and is no id. *)
Definition ownedByOther (s : state) (r : task) (res : string) : bool :=
  match resources s !! res with
  | Some owner => negb (String.eqb owner "") && negb (String.eqb owner (id r))
  | None => inherited res
  end.

(** The body of [if (next) { ... }] (lines 257-314). *)
Definition dispatch (currentTime : Z) (i : nat) (s : state) : state :=
  let s1 := set_running (Some i) s in
  match tasks s1 !! i with
  | None => s1
  | Some r =>
      let s2 :=
        match js_key (needs_resource r) with
        | Some res =>
            if ownedByOther s1 r res then
              set_running None
                (logPush (EvBlocked currentTime (id r) res)
                   (update i (fun t => set_wait_time (wait_time t + 1) t) s1))
            else
              logPush (EvAcquired currentTime (id r) res)
                (set_resources (assign res (id r) (resources s1)) s1)
        | None => s1
        end in
      let s3 :=
        match running s2, js_key (holds_resource r) with
        | Some _, Some h => set_resources (assign h (id r) (resources s2)) s2
        | _, _ => s2
        end in
      match running s3 with
      | Some _ => execute currentTime i s3
      | None => s3
      end
  end.

(** One iteration of the loop of lines 321-323; [t !== running] compares
    references. *)
Definition waitOne (s : state) (j : nat) : state :=
  match tasks s !! j with
  | Some t =>
      if negb (completed t) && negb (bool_decide (running s = Some j)) then
        update j (fun t => set_wait_time (wait_time t + 1) t) s
      else s
  | None => s
  end.

(** Lines 230-233. *)
Definition clearFlags (t : task) : task :=
  set_effectiveCritical false (set_boosted false t).

(** The DVFS decision of lines 242-252. *)
Definition governor (scheduler : string) (laxityThreshold : num)
    (currentTime : Z) (next : option task) : cpu :=
  if String.eqb scheduler "energy-hybrid" then
    match next with
    | None => LOW
    | Some t =>
        if num_gtb (computeLaxity currentTime t) laxityThreshold then LOW else HIGH
    end
  else HIGH.

(** The test of the early exit (lines 326-328). *)
Definition allDone (s : state) : bool :=
  let remainingTasks := List.filter (fun t => negb (completed t) && admitted t) (tasks s) in
  let notArrived := List.filter (fun t => negb (admitted t)) (tasks s) in
  (length remainingTasks =? 0)%nat && (length notArrived =? 0)%nat.

(** The object pushed to [timeline] (lines 334-338). *)
Definition snapshotOf (currentTime : Z) (s : state) : snapshot :=
  {| snap_time := currentTime;
     snap_running := match running s with
                     | Some i => id <$> tasks s !! i
                     | None => None
                     end;
     snap_cpuState := cpu_name (cpuState s) |}.

(** The selection made at a tick, after admission and inheritance
    (lines 227-239). *)
Definition selectAt (scheduler : string) (currentTime : Z) (s : state)
  : state * option nat :=
  let s1 := admitArrivals currentTime s in
  let s2 := set_tasks (clearFlags <$> tasks s1) s1 in
  let s3 := applyPriorityInheritance currentTime s2 in
  chooseNextWithBoost scheduler s3.

(** The tick up to the dispatch of the selected task (lines 227-318):
    the state on which the wait counters are then updated. *)
Definition dispatched (scheduler : string) (laxityThreshold : num)
    (currentTime : Z) (s : state) : state :=
  let '(s4, next) := selectAt scheduler currentTime s in
  let c := governor scheduler laxityThreshold currentTime
             (next ≫= fun i => tasks s4 !! i) in
  let s5 := set_cpu c (totalEnergy s4 + cpu_power c) s4 in
  match next with
  | Some i => dispatch currentTime i s5
  | None => logPush (EvIdle currentTime) s5
  end.


(** One iteration of the loop; the boolean tells whether the loop breaks. *)
Definition tick (scheduler : string) (laxityThreshold : num)
    (currentTime : Z) (s : state) : state * bool :=
  let s6 := dispatched scheduler laxityThreshold currentTime s in
  let s7 := foldl waitOne s6 (ready s6) in
  if allDone s7 then (s7, true)
  else (set_timeline (timeline s7 ++ [snapshotOf currentTime s7]) s7, false).

(** [for (currentTime = 0; currentTime <= totalTime; currentTime++)],
    with [n] the number of iterations left. *)
Fixpoint loop (scheduler : string) (laxityThreshold : num)
    (n : nat) (currentTime : Z) (s : state) : state :=
  match n with
  | O => s
  | S n' =>
      let '(s', stop) := tick scheduler laxityThreshold currentTime s in
      if stop then s' else loop scheduler laxityThreshold n' (currentTime + 1) s'
  end.

(** ** Metrics *)

Record results : Type := {
  r_tasks : list task;
  r_log : list event;
  r_totalEnergy : Z;
  r_deadlineMissRatio : num;
  r_deadlineMisses : list (string * bool * option Z * num);
  r_avgTurnaround : num;
  r_cpuUtilization : num;
  r_timeline : list snapshot;
  r_totalSimTime : Z;
  r_cpuBusyTime : Z
}.

(** [t.completion_time || 0] *)
Definition completion_or_0 (t : task) : Z :=
  match completion_time t with Some c => c | None => 0 end.

(** [!t.completed || t.completion_time > t.abs_deadline] *)
Definition missedOrNot (t : task) : bool :=
  negb (completed t) || num_gtb (of_Z (completion_or_0 t)) (abs_deadline t).

(** The summand of [avgTurnaround] (line 347). *)
Definition turnaround (totalTime : Z) (t : task) : num :=
  if (completion_or_0 t =? 0)%Z then num_sub (of_Z totalTime) (arrival t)
  else num_sub (of_Z (completion_or_0 t)) (arrival t).

Definition of_length {A : Type} (l : list A) : num := of_Z (Z.of_nat (length l)).

(** Lines 342-359. *)
Definition metrics (totalTime : Z) (s : state) : results :=
  let totalSimTime := foldr Z.max totalTime (completion_or_0 <$> tasks s) in
  let missedOrNotCompleted := List.filter missedOrNot (tasks s) in
  {| r_tasks := tasks s;
     r_log := log s;
     r_totalEnergy := totalEnergy s;
     r_deadlineMissRatio :=
       num_div (of_length missedOrNotCompleted) (of_length (tasks s));
     r_deadlineMisses :=
       (fun t => (id t, completed t, completion_time t, abs_deadline t))
         <$> missedOrNotCompleted;
     r_avgTurnaround :=
       num_div (foldl (fun acc t => num_add acc (turnaround totalTime t))
                      (of_Z 0) (tasks s))
               (of_length (tasks s));
     r_cpuUtilization :=
       num_div (of_Z (cpuBusyTime s)) (of_Z (Z.max totalSimTime 1));
     r_timeline := timeline s;
     r_totalSimTime := totalSimTime;
     r_cpuBusyTime := cpuBusyTime s |}.

(** The state in which the loop ends. *)
Definition simulate (tasks : list descriptor) (scheduler : string)
    (totalTime : Z) (laxityThreshold : num) : state :=
  loop scheduler laxityThreshold (Z.to_nat (totalTime + 1)) 0
       (init (normalize <$> tasks)).

Definition runSimulation (tasks : list descriptor) (scheduler : string)
    (totalTime : Z) (laxityThreshold : num) : results :=
  metrics totalTime (simulate tasks scheduler totalTime laxityThreshold).

(** The call of [runSimulation]: the normaliser may raise, and the
    loop and the metrics run on what it returns. *)
Definition runSimulation_call (tasks : list descriptor) (scheduler : string)
    (totalTime : Z) (laxityThreshold : num) : option results :=
  ts ← normalizeTasks tasks;
  Some (metrics totalTime
          (loop scheduler laxityThreshold (Z.to_nat (totalTime + 1)) 0 (init ts))).

End Simulator.

(** ** The sample task set and the run handler *)

Definition mkTask (i : string) (arr exe dl : Z) (per : option Z) (crit : bool)
    (holds needs : option string) : descriptor :=
  {| d_id := i;
     d_arrival := JNum (of_Z arr);
     d_execution := JNum (of_Z exe);
     d_exec := JUndefined;
     d_deadline := JNum (of_Z dl);
     d_deadline_relative := JUndefined;
     d_period := match per with Some p => JNum (of_Z p) | None => JNull end;
     d_is_critical := JBool crit;
     d_holds_resource := holds;
     d_needs_resource := needs;
     d_start_time := JUndefined;
     d_admitted := JUndefined;
     d_boosted := JUndefined;
     d_effectiveCritical := JUndefined |}.

Definition SAMPLE_TASKS : list descriptor :=
  [ mkTask "T1" 0 30 50 (Some 50) true None None;
    mkTask "T2" 0 20 40 (Some 40) true None None;
    mkTask "T3" 10 25 60 None false None None;
    mkTask "T4" 20 15 50 None false None None;
    mkTask "T5" 5 12 40 None true (Some "R1") None;
    mkTask "T6" 6 6 25 None true None (Some "R1") ].

(** [JSON.parse(JSON.stringify(v))] on a field value: a number that is
    not finite is written as null, as is an undefined element of an
    array; an undefined property of an object is not written. *)
Fixpoint clone_val (v : jsval) : jsval :=
  match v with
  | JNum x => match fl x with Fin _ => JNum x | _ => JNull end
  | JArr l =>
      JArr ((fun w => match w with JUndefined => JNull | _ => clone_val w end) <$> l)
  | JObj ps =>
      JObj (omap (fun p => match p with
                           | Property _ JUndefined => None
                           | Property n w => Some (Property n (clone_val w))
                           end) ps)
  | _ => v
  end.

Definition clone (d : descriptor) : descriptor :=
  {| d_id := d_id d;
     d_arrival := clone_val (d_arrival d);
     d_execution := clone_val (d_execution d);
     d_exec := clone_val (d_exec d);
     d_deadline := clone_val (d_deadline d);
     d_deadline_relative := clone_val (d_deadline_relative d);
     d_period := clone_val (d_period d);
     d_is_critical := clone_val (d_is_critical d);
     d_holds_resource := d_holds_resource d;
     d_needs_resource := d_needs_resource d;
     d_start_time := clone_val (d_start_time d);
     d_admitted := clone_val (d_admitted d);
     d_boosted := clone_val (d_boosted d);
     d_effectiveCritical := clone_val (d_effectiveCritical d) |}.

(** [parseInt(input, 10) || dflt]; [None] stands for a NaN result. *)
Definition parsed_or (parsed : option Z) (dflt : Z) : Z :=
  match parsed with
  | Some z => if (z =? 0)%Z then dflt else z
  | None => dflt
  end.

(** The click handler of the run button. [currentTasks] is [None] when
    the variable holds a falsy value. *)
Definition runClick {host : Host} (currentTasks : option (list descriptor))
    (scheduler : string) (totalTimeInput laxityInput : option Z) : results :=
  let currentTasks :=
    match currentTasks with
    | Some (d :: l) => d :: l
    | _ => clone <$> SAMPLE_TASKS
    end in
  let totalTime := parsed_or totalTimeInput 200 in
  let laxityThreshold := parsed_or laxityInput 20 in
  runSimulation (clone <$> currentTasks) scheduler totalTime (of_Z laxityThreshold).

(** ** A host for evaluation *)

(** Comparison of strings by code units, as a number. The collation
    of a browser differs from it on other ids than those of the
    examples: it puts a before B, which the code units do not. *)
Definition codeUnitCompare (a b : string) : Z :=
  match String.compare a b with Lt => -1 | Eq => 0 | Gt => 1 end.

Fixpoint digits (acc : Z) (s : string) : option Z :=
  match s with
  | EmptyString => Some acc
  | String c s' =>
      let n := Z.of_N (Ascii.N_of_ascii c) in
      if (48 <=? n)%Z && (n <=? 57)%Z then digits (10 * acc + (n - 48)) s'
      else None
  end.

(** The conversion of a string of decimal digits; the other forms of a
    numeric literal are left to the host and are not used below. *)
Definition decimalToNumber (s : string) : num :=
  match digits 0 s with Some z => of_Z z | None => NaN end.

#[export] Instance evalHost : Host :=
  {| localeCompare := codeUnitCompare; StringToNumber := decimalToNumber |}.

(** * The rest of the script *)

From Stdlib Require Import Ascii Qround Sorted.

(** ** The selection without boosts *)

Section Unboosted.
Context {host : Host}.

(** [chooseNext] (lines 136-163). The loop calls [chooseNextWithBoost]
    in its place. The function reads the state and changes nothing:
    [filter] gives it fresh arrays to sort. *)
Definition chooseNext (scheduler : string) (s : state) : option nat :=
  let candidates := candidatesOf s in
  if (length candidates =? 0)%nat then None else
  let objs := deref (tasks s) candidates in
  let first (l : list (nat * task)) := fst <$> head l in
  if String.eqb scheduler "rms" then
    first (sortBy (byTask cmpRMS) objs)
  else if String.eqb scheduler "edf" then
    first (sortBy (byTask cmpEDF) objs)
  else if String.eqb scheduler "hybrid" || String.eqb scheduler "energy-hybrid" then
    let criticalReady := List.filter (fun p => is_critical p.2) objs in
    if (0 <? length criticalReady)%nat then
      first (sortBy (byTask cmpRMS) criticalReady)
    else
      first (sortBy (byTask cmpEDF) objs)
  else
    first (sortBy (byTask cmpEDF) objs).

End Unboosted.

(** ** Escaping *)

(** The double quote. *)
Definition dquote : ascii := "034"%char.

(** What the replacement of line 440 puts for one character: its
    character reference if it is one of the five of the class, the
    ampersand, the angle brackets and the two quotes, and the character
    itself if not. *)
Definition escapeChar (c : ascii) : string :=
  if Ascii.eqb c "&" then "&amp;"
  else if Ascii.eqb c "<" then "&lt;"
  else if Ascii.eqb c ">" then "&gt;"
  else if Ascii.eqb c dquote then "&quot;"
  else if Ascii.eqb c "'" then "&#39;"
  else String c "".

(** [escapeHtml] (lines 439-441), on a string argument, which the
    concatenation with the empty string leaves as it is. The five characters of the class are single code
    units, and so are they in this model, whatever the encoding of the
    others. *)
Fixpoint escapeHtml (s : string) : string :=
  match s with
  | EmptyString => EmptyString
  | String c s' => escapeChar c +:+ escapeHtml s'
  end.

(** [showMessage] (lines 81-83): the markup assigned to the innerHTML of
    the Gantt container. *)
Definition showMessage (msg : string) : string :=
  ("<div class=" +:+ String dquote ("gantt-placeholder" +:+ String dquote ">"))
    +:+ escapeHtml msg +:+ "</div>".

(** ** The Gantt chart

    The first half of [renderResult] (lines 365-406) builds the chart as
    an array of SVG elements. An element is kept with the values its
    template interpolates, as a log line is; abscissas are numbers of
    [num]. The second half of the function formats the metrics as text
    and is left out. *)

Definition num_mul (x y : num) : num :=
  match x, y with
  | NaN, _ | _, NaN => NaN
  | Fin a, Fin b => Fin (Qred (a * b))
  | Fin a, (PInf | NInf) =>
      match Qsgn a, y with
      | Eq, _ => NaN
      | Gt, _ => y
      | Lt, PInf => NInf
      | Lt, _ => PInf
      end
  | (PInf | NInf), Fin b =>
      match Qsgn b, x with
      | Eq, _ => NaN
      | Gt, _ => x
      | Lt, PInf => NInf
      | Lt, _ => PInf
      end
  | PInf, PInf | NInf, NInf => PInf
  | PInf, NInf | NInf, PInf => NInf
  end.

(** [Math.min] of two numbers. *)
Definition num_min (x y : num) : num :=
  match x, y with
  | NaN, _ | _, NaN => NaN
  | _, _ => if num_ltb y x then y else x
  end.

(** [Math.round]: to the nearest integer, a half going up. *)
Definition num_round (x : num) : num :=
  match x with
  | Fin q => of_Z (Qfloor (q + (1 # 2)))
  | _ => x
  end.

(** The elements pushed to [svgParts], with the values the template
    literals interpolate. *)
Inductive svgPart : Type :=
| SvgOpen (width height : Z)
| SvgBackground
| GridLine (x : num) (y2 : Z)
| GridLabel (x : num) (tlabel : num)
| RowLabel (y : Z) (id : string) (critical : bool)
| RowBox (y width : Z)
| DeadlineLine (dlx : num) (y1 y2 : Z)
| DeadlineLabel (x : num) (y : Z) (abs_deadline : num)
| Bar (sx : num) (y : Z) (w : num) (color : string)
| SvgClose.

(** [120 + ((v / simTime) * (width-140))], the abscissa of a time. *)
Definition abscissa (simTime : num) (width : Z) (v : num) : num :=
  num_add (of_Z 120) (num_mul (num_div v simTime) (of_Z (width - 140))).

(** The loop of lines 378-383, from [i] on. The bound [tickCount] is at
    most 50, so that 51 iterations is the most the loop makes; [fuel]
    counts them down. *)
Fixpoint gridFrom (fuel : nat) (i : Z) (tickCount simTime : num) (width height : Z)
  : list svgPart :=
  match fuel with
  | O => []
  | S fuel' =>
      if num_leb (of_Z i) tickCount then
        let x := num_add (num_mul (num_div (of_Z i) tickCount) (of_Z (width - 180)))
                         (of_Z 140) in
        let tlabel := num_round (num_mul (num_div (of_Z i) tickCount) simTime) in
        GridLine x (height - 20) :: GridLabel (num_add x (of_Z 2)) tlabel ::
        gridFrom fuel' (i + 1) tickCount simTime width height
      else []
  end.

(** The body of the loop over the history of a task (lines 396-402). *)
Definition barOf (simTime : num) (width : Z) (y : Z) (t : task) (seg : segment)
  : svgPart :=
  let sx := abscissa simTime width (of_Z (seg_start seg)) in
  let ex := abscissa simTime width (of_Z (seg_end seg)) in
  let w := num_max (of_Z 1) (num_sub ex sx) in
  let color :=
    if String.eqb (seg_state seg) "run"
    then (if is_critical t then "#2563eb" else "#06b6d4")
    else "#c7d2fe" in
  Bar sx (y + 6) w color.

(** The body of the loop over the tasks (lines 386-403). *)
Definition rowOf (simTime : num) (width : Z) (i : nat) (t : task) : list svgPart :=
  let rowH := 28 in
  let y := 40 + Z.of_nat i * rowH in
  let dlx := abscissa simTime width (abs_deadline t) in
  [ RowLabel (y + 12) (id t) (is_critical t);
    RowBox (y + 2) (width - 140);
    DeadlineLine dlx (y + 2) (y + rowH - 4);
    DeadlineLabel (num_add dlx (of_Z 4)) (y + 14) (abs_deadline t) ] ++
  (barOf simTime width y t <$> history t).

(** The array [svgParts] of [renderResult] (lines 365-405), which the
    function joins into the markup of the chart. [totalTimeInput] is what
    [parseInt] makes of the total-time field, [None] for NaN;
    [innerWidth] is the width of the window. *)
Definition ganttParts (res : results) (totalTimeInput : option Z) (innerWidth : Z)
  : list svgPart :=
  let tasks := r_tasks res in
  let parsed := match totalTimeInput with Some z => of_Z z | None => NaN end in
  let simTime := num_max (num_max (of_Z 1) (of_Z (r_totalSimTime res))) parsed in
  let width := Z.min (innerWidth - 80) 980 in
  let rowH := 28 in
  let height := Z.of_nat (length tasks) * rowH + 60 in
  let tickCount := num_min (of_Z 50) simTime in
  [SvgOpen width height; SvgBackground] ++
  gridFrom 51 0 tickCount simTime width height ++
  mjoin (imap (rowOf simTime width) tasks) ++
  [SvgClose].

(** * The scheduler demo

    The second script of the repository: a demonstration with a fixed
    task set, whose steps [buildSchedule] lays out in advance. Its names
    are kept in a module of their own. *)

Module Demo.

(** A task of the demo, as in [baseTaskSets] and [getSpecs]. *)
Record proc : Type := {
  pid : Z;
  name : string;
  type : string;
  prio : Z;
  cpu : Z;
  state : string
}.

(** A step of the schedule. [s_running] is [None] and [s_idx] is -1 in
    the last step, where nothing runs. *)
Record step : Type := {
  s_running : option proc;
  s_idx : Z;
  s_cpu : Z;
  s_mem : Z;
  s_space : Z;
  s_pending : list string
}.

(** The comparator of the sort: [b.prio-a.prio] under RMS, [a.cpu-b.cpu]
    under every other name. *)
Definition order (type : string) (a b : proc) : num :=
  if String.eqb type "RMS" then of_Z (prio b - prio a) else of_Z (cpu a - cpu b).

(** [tasks.findIndex(t=>t.pid===task.pid)] *)
Definition findIndex (p : Z) (tasks : list proc) : Z :=
  match list_find (fun t => pid t = p) tasks with
  | Some (k, _) => Z.of_nat k
  | None => -1
  end.

(** The steps pushed for the task at position [i] of the sorted array:
    one for each [c] from 0 while [c < task.cpu]. *)
Definition stepsOf (tasks sorted : list proc) (i : nat) (task : proc) : list step :=
  let cpu0 := 40 in
  let mem0 := 30 in
  let space0 := 80 in
  (fun c =>
     {| s_running := Some task;
        s_idx := findIndex (pid task) tasks;
        s_cpu := Z.min 100 (cpu0 + 6 * Z.of_nat i + 1 * c);
        s_mem := Z.min 100 (mem0 + 3 * Z.of_nat i + 2 * c);
        s_space := Z.max 10 (space0 - 3 * Z.of_nat i - 2 * c);
        s_pending :=
          name <$> List.filter (fun t => negb (pid t =? pid task)) sorted |})
  <$> seqZ 0 (cpu task).

(** The step pushed last. *)
Definition idleStep : step :=
  {| s_running := None; s_idx := -1; s_cpu := 30; s_mem := 24; s_space := 89;
     s_pending := [] |}.

(** [buildSchedule] (lines 71-88 of the demo script). *)
Definition buildSchedule (tasks : list proc) (type : string) : list step :=
  let sorted := sortBy (order type) tasks in
  mjoin (imap (stepsOf tasks sorted) sorted) ++ [idleStep].

(** The task sets of [baseTaskSets]. *)
Definition mkProc (p : Z) (n t : string) (pr c : Z) : proc :=
  {| pid := p; name := n; type := t; prio := pr; cpu := c; state := "Pending" |}.

Definition baseRMS : list proc :=
  [ mkProc 1 "Motor Ctrl" "Critical" 4 3;
    mkProc 2 "Logger" "Non-Critical" 2 2;
    mkProc 3 "Sensor Monitor" "Critical" 3 1;
    mkProc 4 "Comm Handler" "Non-Critical" 1 2 ].

(** [a] may run before [b]: its priority is not lower under RMS, its
    time on the processor not longer under the other names. *)
Definition before (type : string) (a b : proc) : Prop :=
  if String.eqb type "RMS" then prio b <= prio a else cpu a <= cpu b.

(** The tasks the steps of a schedule run, step by step. *)
Definition runs (steps : list step) : list proc := omap s_running steps.

(** The units of processor time of a task: the number of its steps. *)
Definition units (t : proc) : nat := Z.to_nat (cpu t).

(** The bars of a step are percentages, within the bounds of the demo. *)
Definition bars_ok (st : step) : Prop :=
  30 <= s_cpu st <= 100 /\ 24 <= s_mem st <= 100 /\ 10 <= s_space st <= 89.

(** The index of a step points at the first task with the pid of the
    task the step runs. *)
Definition idx_ok (tasks : list proc) (st : step) : Prop :=
  match s_running st with
  | Some t =>
      exists k t0, s_idx st = Z.of_nat k /\ tasks !! k = Some t0 /\ pid t0 = pid t /\
        forall k' t', (k' < k)%nat -> tasks !! k' = Some t' -> pid t' <> pid t
  | None => s_idx st = -1
  end.

End Demo.

(** * Notions used to state the properties *)

(** ** The nearest number of binary64 *)

(** The exponent of the last place of the numbers around [a]. *)
Definition ulpExp (a : Q) : Z := Z.max (ilog2 a - 52) (-1074).

(** [a] rounded at that place. *)
Definition nearest (a : Q) : Q :=
  inject_Z (roundEven (a / pow2 (ulpExp a))) * pow2 (ulpExp a).

(** ** The orderings the selection is specified by *)

(** Three-way comparison of two numbers, neither of which is NaN. *)
Definition num_cmp (x y : num) : comparison :=
  match x, y with
  | Fin a, Fin b => (a ?= b)%Q
  | PInf, PInf | NInf, NInf => Eq
  | PInf, _ | _, NInf => Gt
  | _, _ => Lt
  end.

Definition num_lt (x y : num) : Prop := num_cmp x y = Lt.
Definition num_eqv (x y : num) : Prop := num_cmp x y = Eq.


Section Orderings.
Context {host : Host}.

(** Smaller key first; ties by smaller arrival, then by the smaller id. *)
Definition lex_le (key : task -> num) (a b : task) : Prop :=
  num_lt (key a) (key b) \/
  (num_eqv (key a) (key b) /\
   (num_lt (arrival a) (arrival b) \/
    (num_eqv (arrival a) (arrival b) /\ localeCompare (id a) (id b) <= 0))).

Definition rms_le : task -> task -> Prop := lex_le period.
Definition edf_le : task -> task -> Prop := lex_le abs_deadline.

End Orderings.

(** The keys a comparator reads on a task are numbers. *)
Definition key_ok (key : task -> num) (t : task) : Prop :=
  is_nan (key t) = false /\ is_nan (arrival t) = false.

#[export] Instance key_ok_dec (key : task -> num) (t : task) : Decision (key_ok key t).
Proof. unfold key_ok. apply _. Defined.

(** A selection candidate of the state: a Ready task with work left. *)
Definition candidate (s : state) (i : nat) (t : task) : Prop :=
  i ∈ ready s /\ tasks s !! i = Some t /\ isCandidate t = true.

(** Critical by itself or by a boost. *)
Definition effectivelyCritical (t : task) : bool := _boosted t || is_critical t.

(** The update [markEffective] applies to a candidate. *)
Definition mark (t : task) : task :=
  set_effectiveCritical (_boosted t || is_critical t) t.

(** ** Well-formed states *)

(** [ready] lists each admitted task once, only admitted tasks, and a
    completed task has been admitted. Every state of a run is such. *)
Definition wf (s : state) : Prop :=
  NoDup (ready s) /\
  Forall (fun i => admitted <$> tasks s !! i = Some true) (ready s) /\
  Forall (fun t => completed t = true -> admitted t = true) (tasks s).

#[export] Instance wf_dec (s : state) : Decision (wf s).
Proof. unfold wf. apply _. Defined.

(** ** The effect of the steps of a tick on one task *)

(** Admission. *)
Definition arrives (currentTime : Z) (t : task) : bool :=
  negb (admitted t) && num_leb (arrival t) (of_Z currentTime).

Definition admitTask (currentTime : Z) (t : task) : task :=
  if arrives currentTime t then set_admitted true t else t.

Definition arrivesAt (currentTime : Z) (s : state) (i : nat) : bool :=
  match tasks s !! i with Some t => arrives currentTime t | None => false end.

(** The selected task finds its resource owned by another id. *)
Definition blocked (s : state) (r : task) : bool :=
  match js_key (needs_resource r) with
  | Some res => ownedByOther s r res
  | None => false
  end.

(** The record of a task after it ran for one tick at speed [work]. *)
Definition ranTask (currentTime : Z) (work : num) (r : task) : task :=
  let r1 := runTask currentTime work r in
  if num_leb (remaining r1) epsilon
  then set_completed true (Some (currentTime + 1)) r1 else r1.

(** The record a task is left with by the dispatch of the task selected
    at index [next]: selected and blocked, it waits; selected and not
    blocked, it runs. *)
Definition dispatchedTask (s : state) (currentTime : Z) (c : cpu)
    (next : option nat) (j : nat) (t : task) : task :=
  if bool_decide (next = Some j) then
    if blocked s t then set_wait_time (wait_time t + 1) t
    else ranTask currentTime (cpu_speed c) t
  else t.

(** The wait loop, on a task of [ready]. *)
Definition bump (run : option nat) (j : nat) (t : task) : task :=
  if negb (completed t) && negb (bool_decide (run = Some j))
  then set_wait_time (wait_time t + 1) t else t.

(** The fields of a task that only running it changes. *)
Definition workOf (t : task) :=
  (id t, abs_deadline t, remaining t, completed t, completion_time t, history t).

(** ** Observations of a state *)

(** Every component of the state but the task store and the log. *)
Definition machine (s : state) :=
  (ready s, running s, cpuState s, totalEnergy s, cpuBusyTime s,
   resources s, timeline s).

(** The components that admission leaves alone. *)
Definition unadmitted (s : state) :=
  (running s, cpuState s, totalEnergy s, cpuBusyTime s, resources s, timeline s).

(** The components that dispatching a task leaves alone. *)
Definition clock (s : state) :=
  (ready s, cpuState s, totalEnergy s, timeline s).

(** A projection of the task records that none of the flags enters. *)
Definition flagless {B : Type} (p : task -> B) : Prop :=
  (forall b t, p (set_boosted b t) = p t) /\
  (forall b t, p (set_effectiveCritical b t) = p t).

(** ** The normaliser, field by field *)

Section Coercion.
Context {host : Host}.

(** [v || dflt], then [Number]. *)
Definition coerce (v : jsval) (dflt : num) : num :=
  if truthy v then numberValue v else dflt.

(** The values the normaliser passes to [Number], in the order of the
    calls; [Number] is not called on a period that is null or absent,
    and does not raise on such a value. *)
Definition converted (d : descriptor) : list jsval :=
  [ js_or (d_arrival d) (JNum (Fin 0));
    js_or (js_or (d_execution d) (d_exec d)) (JNum (Fin 0));
    js_or (js_or (d_deadline d) (d_deadline_relative d))
          (JNum (exec (normalize d)));
    d_period d ].

(** One of the conversions of the descriptor raises. *)
Definition raises (d : descriptor) : bool := existsb throws (converted d).

End Coercion.

(** No numeric field of a task is NaN. *)
Definition defined_fields (t : task) : Prop :=
  is_nan (arrival t) = false /\ is_nan (exec t) = false /\
  is_nan (remaining t) = false /\ is_nan (deadline_relative t) = false /\
  is_nan (abs_deadline t) = false /\ is_nan (period t) = false.

(** ** The priority-inheritance estimator, as specified and as coded *)

(** The score as the specification words it: a task boosted earlier in
    the tick counts as critical. *)
Definition score_claimed (t : task) : num :=
  sub64 (if is_critical t || _boosted t then of_Z 1000000 else of_Z 0)
          (abs_deadline t).

(** [inheritOne] and [applyPriorityInheritance] with that score. *)
Definition inheritOne_claimed (currentTime : Z) (s : state) (w : nat) : state :=
  match tasks s !! w with
  | None => s
  | Some waiter =>
      match js_key (needs_resource waiter) with
      | None => s
      | Some r =>
          match js_key (resources s !! r) with
          | None => s
          | Some ownerId =>
              match findById ownerId (tasks s) with
              | None => s
              | Some (o, owner) =>
                  if num_gtb (score_claimed waiter) (score_claimed owner) then
                    logPush (EvBoost currentTime (id owner) (id waiter))
                      (update o (set_boosted true) s)
                  else s
              end
          end
      end
  end.

Definition applyPriorityInheritance_claimed (currentTime : Z) (s : state) : state :=
  let s1 := set_tasks (set_boosted false <$> tasks s) s in
  foldl (inheritOne_claimed currentTime) s1 (ready s1).

(** Waiter [w] finds its resource owned by the task at index [o] and
    scores higher than that task, by the score of the code. *)
Definition boosts (s : state) (w o : nat) : Prop :=
  exists waiter r ownerId owner,
    tasks s !! w = Some waiter /\
    js_key (needs_resource waiter) = Some r /\
    js_key (resources s !! r) = Some ownerId /\
    findById ownerId (tasks s) = Some (o, owner) /\
    num_gtb (prio waiter) (prio owner) = true.

(** The same, as a function: the index and id of the owner, and the id
    of the waiter. *)
Definition boostsAt (s : state) (w : nat) : option (nat * string * string) :=
  match tasks s !! w with
  | None => None
  | Some waiter =>
      match js_key (needs_resource waiter) with
      | None => None
      | Some r =>
          match js_key (resources s !! r) with
          | None => None
          | Some ownerId =>
              match findById ownerId (tasks s) with
              | None => None
              | Some (o, owner) =>
                  if num_gtb (prio waiter) (prio owner)
                  then Some (o, id owner, id waiter) else None
              end
          end
      end
  end.

Definition boostsIndex (s : state) (o w : nat) : bool :=
  match boostsAt s w with
  | Some (o', _, _) => bool_decide (o' = o)
  | None => false
  end.

Definition unboost (t : task) : task := set_boosted false t.

(** The line a boost writes to the log. *)
Definition boostLine (currentTime : Z) (b : nat * string * string) : event :=
  EvBoost currentTime b.1.2 b.2.

(** ** Task sets and states used as examples *)

(** The store of the sample set before the first tick. *)
Definition sampleLoaded : state := init (normalize <$> SAMPLE_TASKS).

(** The sample set at tick 0, once T1 and T2 are admitted. *)
Definition sampleAtStart : state := admitArrivals 0 sampleLoaded.

(** A single task that needs one tick of work. *)
Definition oneShot : list descriptor :=
  [mkTask "A" 0 1 5 None false None None].

(** A task without execution time, next to one with one unit of work. *)
Definition zeroWork : list descriptor :=
  [ mkTask "Z" 0 0 5 None false None None;
    mkTask "A" 0 1 5 None false None None ].

(** A descriptor whose deadline is an object with a property toString,
    as [{"toString": 0}] parses to. *)
Definition throwingDeadline : descriptor :=
  {| d_id := "A"; d_arrival := JNum (of_Z 0); d_execution := JNum (of_Z 1);
     d_exec := JUndefined; d_deadline := JObj [Property "toString" (JNum (of_Z 0))];
     d_deadline_relative := JUndefined; d_period := JNull;
     d_is_critical := JBool false; d_holds_resource := None;
     d_needs_resource := None; d_start_time := JUndefined;
     d_admitted := JUndefined;
     d_boosted := JUndefined; d_effectiveCritical := JUndefined |}.

(** A descriptor whose arrival is an object, as in [{id: "A", arrival: {}}]. *)
Definition objectArrival : descriptor :=
  {| d_id := "A"; d_arrival := JObj []; d_execution := JNum (of_Z 1);
     d_exec := JUndefined; d_deadline := JNum (of_Z 5);
     d_deadline_relative := JUndefined; d_period := JNull;
     d_is_critical := JBool false; d_holds_resource := None;
     d_needs_resource := None; d_start_time := JUndefined;
     d_admitted := JUndefined;
     d_boosted := JUndefined; d_effectiveCritical := JUndefined |}.

(** An owner that holds R, and two waiters that arrive one tick later. *)
Definition contention : list descriptor :=
  [ mkTask "O" 0 5 100 None false (Some "R") None;
    mkTask "W1" 1 2 50 None false None (Some "R");
    mkTask "W2" 1 2 60 None false None (Some "R") ].

(** That example after tick 0 under edf: O has run and owns R. *)
Definition afterTick0 : state :=
  fst (tick "edf" (of_Z 20) 0 (init (normalize <$> contention))).

(** The state in which the estimator runs at tick 1 of that example
    under hybrid: W1 and W2 are admitted and the flags are cleared. *)
Definition contended : state :=
  let s := admitArrivals 1 (fst (tick "hybrid" (of_Z 20) 0
                                   (init (normalize <$> contention)))) in
  set_tasks (clearFlags <$> tasks s) s.



(** A descriptor whose deadline is an object, as in
    [{id: "A", arrival: 0, execution: 1, deadline: {}}], next to a task
    of deadline 5. *)
Definition nanDeadline : list descriptor :=
  [ {| d_id := "A"; d_arrival := JNum (of_Z 0); d_execution := JNum (of_Z 1);
       d_exec := JUndefined; d_deadline := JObj [];
       d_deadline_relative := JUndefined; d_period := JNull;
       d_is_critical := JBool false; d_holds_resource := None;
       d_needs_resource := None; d_start_time := JUndefined;
       d_admitted := JUndefined;
       d_boosted := JUndefined; d_effectiveCritical := JUndefined |};
    mkTask "B" 0 1 5 None false None None ].

(** Two critical tasks, the first with an object as its period, the
    second of period 5. *)
Definition nanPeriod : list descriptor :=
  [ {| d_id := "A"; d_arrival := JNum (of_Z 0); d_execution := JNum (of_Z 1);
       d_exec := JUndefined; d_deadline := JNum (of_Z 9);
       d_deadline_relative := JUndefined; d_period := JObj [];
       d_is_critical := JBool true; d_holds_resource := None;
       d_needs_resource := None; d_start_time := JUndefined;
       d_admitted := JUndefined;
       d_boosted := JUndefined; d_effectiveCritical := JUndefined |};
    mkTask "B" 0 1 9 (Some 5) true None None ].

(** Two critical tasks with the same period, deadline and arrival, T2
    ahead of T1 in the collection, once both are admitted. *)
Definition tied : list descriptor :=
  [ mkTask "T2" 0 1 10 (Some 10) true None None;
    mkTask "T1" 0 1 10 (Some 10) true None None ].

Definition tiedAtStart : state := admitArrivals 0 (init (normalize <$> tied)).

(** The same two tasks, not critical. *)
Definition tiedPlain : list descriptor :=
  [ mkTask "T2" 0 1 10 None false None None;
    mkTask "T1" 0 1 10 None false None None ].

Definition tiedPlainAtStart : state :=
  admitArrivals 0 (init (normalize <$> tiedPlain)).

(** One task that arrives at 0, with decimal execution time and
    deadline, as in [{id: "D", arrival: 0, execution: 0.1, deadline: 20.1}]. *)
Definition decimalTask (execution deadline : Q) : list descriptor :=
  [ {| d_id := "D"; d_arrival := JNum (of_Z 0); d_execution := JNum (Fin execution);
       d_exec := JUndefined; d_deadline := JNum (Fin deadline);
       d_deadline_relative := JUndefined; d_period := JNull;
       d_is_critical := JBool false; d_holds_resource := None;
       d_needs_resource := None; d_start_time := JUndefined;
       d_admitted := JUndefined;
       d_boosted := JUndefined; d_effectiveCritical := JUndefined |} ].

(** * The run as a whole *)

(** ** What a tick does to one task *)

(** The fields of a task that the loop only reads. *)
Definition static (t : task) :=
  (id t, arrival t, exec t, deadline_relative t, abs_deadline t, period t,
   is_critical t, holds_resource t, needs_resource t).

(** The fields that record the execution of a task. *)
Definition life (t : task) :=
  (static t, remaining t, history t, started t, start_time t, completed t,
   completion_time t).

(** The task at index [j] is the selected one and is not blocked. *)
Definition runsAt (s : state) (next : option nat) (j : nat) (t : task) : bool :=
  bool_decide (next = Some j) && negb (blocked s t).

(** The units of waiting the task at index [j] is charged at a tick that
    selects [next], leaves [run] running and the task as [t']. *)
Definition waited (s : state) (next : option nat) (ready' : list nat)
    (run : option nat) (j : nat) (t t' : task) : Z :=
  (if bool_decide (next = Some j) && blocked s t then 1 else 0) +
  (if bool_decide (j ∈ ready') && negb (completed t') &&
      negb (bool_decide (run = Some j)) then 1 else 0).

(** ** What holds of every task at every tick *)

(** The record of a task at the start of tick [now]. A task that has
    not started is as it was loaded. A task that has started has one
    history segment, from the tick of its first run to the end of its
    last one; it is completed at the end of that segment, or has work
    left. *)
Definition lifecycle (now : Z) (t : task) : Prop :=
  if started t then
    exists a e,
      start_time t = JNum (of_Z a) /\
      history t = [{| seg_start := a; seg_end := e; seg_state := "run" |}] /\
      0 <= a /\ a < e /\ e <= now /\
      num_leb (arrival t) (of_Z a) = true /\
      (if completed t
       then completion_time t = Some e /\
            num_leb (remaining t) epsilon = true /\
            num_leb (of_Z (-1)) (remaining t) = true
       else completion_time t = None /\ num_gtb (remaining t) epsilon = true)
  else
    history t = [] /\ completed t = false /\
    completion_time t = None /\ remaining t = exec t.

(** Every Ready task has arrived before tick [now]. *)
Definition arrived (now : Z) (s : state) : Prop :=
  forall i t, i ∈ ready s -> tasks s !! i = Some t ->
    num_leb (arrival t) (of_Z (now - 1)) = true.

(** The state at the start of tick [now] of a run. *)
Definition runInv (now : Z) (s : state) : Prop :=
  0 <= now /\ wf s /\ arrived now s /\
  forall j t, tasks s !! j = Some t -> lifecycle now t.

(** ** What the dispatch of a task writes *)

(** The decrement of the tick brings the task to completion. *)
Definition completes (c : cpu) (r : task) : bool :=
  num_leb (sub64 (remaining r) (cpu_speed c)) epsilon.

(** The table once a task that is not blocked has been given the
    resource it needs and the one it holds (lines 270-279). *)
Definition granted (r : task) (m : gmap string string) : gmap string string :=
  let m1 := match js_key (needs_resource r) with
            | Some res => assign res (id r) m
            | None => m
            end in
  match js_key (holds_resource r) with
  | Some h => assign h (id r) m1
  | None => m1
  end.

(** The table once a completed task has given back what is recorded
    for its id (lines 300-311). *)
Definition released (r : task) (m : gmap string string) : gmap string string :=
  let m1 := match js_key (holds_resource r) with
            | Some h => if bool_decide (m !! h = Some (id r)) then delete h m else m
            | None => m
            end in
  match js_key (needs_resource r) with
  | Some n => if bool_decide (m1 !! n = Some (id r)) then delete n m1 else m1
  | None => m1
  end.

(** The table after the dispatch of [r] at speed [c]. *)
Definition tableAfter (s : state) (c : cpu) (r : task) : gmap string string :=
  if blocked s r then resources s
  else if completes c r then released r (granted r (resources s))
  else granted r (resources s).

(** The lines the dispatch of [r] appends to the log. *)
Definition linesOf (now : Z) (s : state) (c : cpu) (r : task) : list event :=
  let ran :=
    EvRunning now (id r) (cpu_speed c)
      (num_max (of_Z 0) (sub64 (remaining r) (cpu_speed c))) ::
    (if completes c r then
       EvCompleted (now + 1) (id r) (abs_deadline r) ::
       match js_key (holds_resource r) with
       | Some h =>
           if bool_decide (granted r (resources s) !! h = Some (id r))
           then [EvReleased (now + 1) (id r) h] else []
       | None => []
       end
     else []) in
  match js_key (needs_resource r) with
  | Some res =>
      if ownedByOther s r res then [EvBlocked now (id r) res]
      else EvAcquired now (id r) res :: ran
  | None => ran
  end.

(** ** The log *)

Definition ev_time (e : event) : Z :=
  match e with
  | EvAdmitted t _ | EvBoost t _ _ | EvBlocked t _ _ | EvAcquired t _ _
  | EvRunning t _ _ _ | EvCompleted t _ _ | EvReleased t _ _ | EvIdle t => t
  end.

(** The line that tells what the processor did at a tick. *)
Definition is_dispatch (e : event) : bool :=
  match e with
  | EvRunning _ _ _ _ | EvBlocked _ _ _ | EvIdle _ => true
  | _ => false
  end.

Definition is_running (e : event) : bool :=
  match e with EvRunning _ _ _ _ => true | _ => false end.

(** The number of ticks a log tells of. *)
Definition ticksOf (l : list event) : Z :=
  Z.of_nat (length (List.filter is_dispatch l)).

Definition runningLines (l : list event) : Z :=
  Z.of_nat (length (List.filter is_running l)).

(** Time stamps never go back along the log. *)
Definition chronological (l : list event) : Prop :=
  forall i j e1 e2, (i <= j)%nat -> l !! i = Some e1 -> l !! j = Some e2 ->
    ev_time e1 <= ev_time e2.

(** The log and the counters at the start of tick [now]. *)
Definition counted (scheduler : string) (now : Z) (s : state) : Prop :=
  chronological (log s) /\
  Forall (fun e => 0 <= ev_time e <= now) (log s) /\
  ticksOf (log s) = now /\
  runningLines (log s) = cpuBusyTime s /\
  3 * now <= totalEnergy s <= 10 * now /\
  (scheduler <> "energy-hybrid" -> totalEnergy s = 10 * now).

(** ** The timeline *)

(** The snapshot at position [k] is that of tick [k]. *)
Definition stamped (tl : list snapshot) : Prop :=
  forall k sn, tl !! k = Some sn -> snap_time sn = Z.of_nat k.

(** Every task is admitted and completed. *)
Definition finished (ts : list task) : Prop :=
  Forall (fun t => admitted t = true /\ completed t = true) ts.

(** The number of iterations a run of [totalTime] makes at most. *)
Definition maxTicks (totalTime : Z) : Z := Z.max 0 (totalTime + 1).

(** The state in which the loop has ended after [k] ticks: by the bound
    on the tick, or by the early exit. *)
Definition ended (totalTime k : Z) (s : state) : Prop :=
  (k = maxTicks totalTime /\ Z.of_nat (length (timeline s)) = k /\
   (0 < k -> allDone s = false)) \/
  (0 < k /\ Z.of_nat (length (timeline s)) + 1 = k /\ allDone s = true).

(** A task with more work than the run has ticks. *)
Definition longTask : list descriptor :=
  [mkTask "L" 0 1000 2000 None false None None].

(** ** Admission and ownership *)

(** A task is admitted at the start of tick [now] when its descriptor
    came with a truthy [admitted], or when it arrived at an earlier tick. *)
Definition admittedBy (ds : list descriptor) (now : Z) (s : state) : Prop :=
  forall j d t, ds !! j = Some d -> tasks s !! j = Some t ->
    admitted t =
      truthy (d_admitted d) || (0 <? now) && num_leb (arrival t) (of_Z (now - 1)).

(** [r] is the resource the task holds or the one it needs. *)
Definition keyOf (t : task) (r : string) : Prop :=
  js_key (holds_resource t) = Some r \/ js_key (needs_resource t) = Some r.

(** Every owner the table records is a task that has run, is not
    completed, and holds or needs the resource. *)
Definition unfinishedOwners (s : state) : Prop :=
  forall r oid, resources s !! r = Some oid ->
    exists j t, tasks s !! j = Some t /\ id t = oid /\ started t = true /\
      completed t = false /\ keyOf t r.

(** ** Examples *)

(** Two tasks of one tick each, the second arriving after a gap. *)
Definition staggered : list descriptor :=
  [ mkTask "A" 0 1 5 None false None None;
    mkTask "B" 3 1 5 None false None None ].

(** That example after tick 0 under edf: A has run and is completed. *)
Definition afterA : state :=
  fst (tick "edf" (of_Z 20) 0 (init (normalize <$> staggered))).

(** ** Strings *)

Definition chars (s : string) : list ascii := String.list_ascii_of_string s.

(** The character class of the regular expression of [escapeHtml]. *)
Definition special (c : ascii) : bool :=
  Ascii.eqb c "&" || Ascii.eqb c "<" || Ascii.eqb c ">" || Ascii.eqb c dquote ||
  Ascii.eqb c "'".

(** The character references [escapeHtml] writes, without their
    ampersand. *)
Definition entities : list string := ["amp;"; "lt;"; "gt;"; "quot;"; "#39;"].

(** The number of occurrences of a character in a string. *)
Definition occurrences (c : ascii) (s : string) : nat :=
  length (List.filter (Ascii.eqb c) (chars s)).

(** ** Parts of the chart *)

Definition barColor (p : svgPart) : option string :=
  match p with Bar _ _ _ c => Some c | _ => None end.

Definition gridX (p : svgPart) : option num :=
  match p with GridLine x _ => Some x | _ => None end.

(** A part whose place on the time axis is not a number; a grid line or
    a grid label is no such part. *)
Definition unplaced (p : svgPart) : Prop :=
  match p with
  | GridLine _ _ | GridLabel _ _ => False
  | DeadlineLine x _ _ | DeadlineLabel x _ _ => x = NaN
  | Bar sx _ w _ => sx = NaN /\ w = NaN
  | _ => True
  end.

(** The colour of the bar of a task that has run. *)
Definition runColor (t : task) : string :=
  if is_critical t then "#2563eb" else "#06b6d4".

(** ** A selection that stays blocked *)

(** Every task of the store is admitted. *)
Definition settled (s : state) : Prop :=
  Forall (fun t => admitted t = true) (tasks s).

(** What the selection reads of a task once the boosts are estimated. *)
Definition boostedLife (t : task) := (life t, _boosted t).

(** A task object without what the comparators and the filters of the
    selection never read. *)
Definition unwaited (t : task) : task := set_wait_time 0 (set_admitted true t).

(** The contention example after tick 1 under edf: the three tasks are
    admitted, O owns R, and W1, which needs R, has been selected and
    blocked. *)
Definition deadlocked : state := fst (tick "edf" (of_Z 20) 1 afterTick0).

(** * Properties of the embedding *)

(** ** Comparisons of numbers *)

Lemma num_ltb_Fin (a b : Q) : num_ltb (Fin a) (Fin b) = true <-> (a < b)%Q.
Proof.
  cbn [num_ltb]. destruct (Qcompare_spec a b) as [E|E|E]; split; try done.
  - intros H. rewrite E in H. by apply Qlt_irrefl in H.
  - intros H. exfalso. apply (Qlt_irrefl a). eapply Qlt_trans; eassumption.
Qed.

Lemma num_leb_Fin (a b : Q) : num_leb (Fin a) (Fin b) = true <-> (a <= b)%Q.
Proof.
  cbn [num_leb]. destruct (Qcompare_spec a b) as [E|E|E]; split; try done.
  - intros _. rewrite E. apply Qle_refl.
  - intros _. by apply Qlt_le_weak.
  - intros H. exfalso. apply (Qlt_irrefl a). eapply Qle_lt_trans; eassumption.
Qed.

Lemma num_leb_Fin_false (a b : Q) : num_leb (Fin a) (Fin b) = false <-> (b < a)%Q.
Proof.
  split.
  - intros H. apply Qnot_le_lt. intros Hle%num_leb_Fin. congruence.
  - intros H. destruct (num_leb (Fin a) (Fin b)) eqn:E; [|done].
    apply num_leb_Fin in E. exfalso. apply (Qlt_irrefl a).
    eapply Qle_lt_trans; eassumption.
Qed.

Lemma num_leb_mono (x : num) (a b : Z) :
  num_leb x (of_Z a) = true -> a <= b -> num_leb x (of_Z b) = true.
Proof.
  destruct x as [| | |q]; try done. unfold of_Z. rewrite !num_leb_Fin.
  intros H Hab. eapply Qle_trans; [exact H|]. by rewrite <- Zle_Qle.
Qed.

(** ** Rounding *)

Lemma round64_nearest (q : Q) :
  round64 q =
    match (q ?= 0)%Q with
    | Eq => Fin 0
    | Lt => if Qle_bool (pow2 1024) (nearest (Qabs q)) then NInf
            else Fin (Qred (- nearest (Qabs q)))
    | Gt => if Qle_bool (pow2 1024) (nearest (Qabs q)) then PInf
            else Fin (Qred (nearest (Qabs q)))
    end.
Proof. reflexivity. Qed.

Lemma round64_not_nan (q : Q) : is_nan (round64 q) = false.
Proof.
  rewrite round64_nearest. destruct (q ?= 0)%Q; [done|..];
    by destruct (Qle_bool _ _).
Qed.

Lemma pow2_Qpower (e : Z) : (pow2 e == 2 ^ e)%Q.
Proof.
  unfold pow2. destruct (0 <=? e) eqn:E.
  - apply Z.leb_le in E. by rewrite Zpower_Qpower.
  - apply Z.leb_gt in E. set (N := 2 ^ (- e)).
    assert (0 < N) as HN by (apply Z.pow_pos_nonneg; lia).
    assert (2 ^ e == / inject_Z N)%Q as ->.
    { replace e with (- - e) by lia. rewrite (Qpower_opp 2 (- e)).
      unfold N. by rewrite Zpower_Qpower by lia. }
    destruct N as [|p|p]; try done.
Qed.

Lemma pow2_pos (e : Z) : (0 < pow2 e)%Q.
Proof. rewrite pow2_Qpower. by apply Qpower_0_lt. Qed.

Lemma pow2_add (a b : Z) : (pow2 (a + b) == pow2 a * pow2 b)%Q.
Proof. rewrite !pow2_Qpower. by apply Qpower_plus. Qed.

Lemma pow2_lt (a b : Z) : a < b -> (pow2 a < pow2 b)%Q.
Proof. intros H. rewrite !pow2_Qpower. by apply Qpower_lt_compat_l. Qed.

Lemma pow2_le (a b : Z) : a <= b -> (pow2 a <= pow2 b)%Q.
Proof. intros H. rewrite !pow2_Qpower. by apply Qpower_le_compat_l. Qed.

Lemma pow2_Z (e : Z) : 0 <= e -> (pow2 e == inject_Z (2 ^ e))%Q.
Proof. intros H. unfold pow2. by rewrite (proj2 (Z.leb_le 0 e) H). Qed.

Lemma pow2_lt_inv (a b : Z) : (pow2 a < pow2 b)%Q -> a < b.
Proof.
  rewrite !pow2_Qpower. intros H. by apply Qpower_lt_compat_l_inv in H.
Qed.

Lemma roundEven_comp (q q' : Q) : (q == q')%Q -> roundEven q = roundEven q'.
Proof.
  intros H. unfold roundEven. rewrite (Qfloor_comp _ _ H).
  assert ((q - inject_Z (Qfloor q') ?= 1 # 2)%Q = (q' - inject_Z (Qfloor q') ?= 1 # 2)%Q)
    as -> by (by rewrite H).
  done.
Qed.

Lemma roundEven_Z (z : Z) : roundEven (inject_Z z) = z.
Proof.
  unfold roundEven. rewrite Qfloor_Z.
  assert ((inject_Z z - inject_Z z ?= 1 # 2)%Q = Lt) as ->; [|done].
  apply (proj1 (Qlt_alt _ _)). lra.
Qed.

Lemma roundEven_nonneg (q : Q) : (0 <= q)%Q -> 0 <= roundEven q.
Proof.
  intros H. assert (0 <= Qfloor q) as Hf.
  { change 0 with (Qfloor 0). by apply Qfloor_resp_le. }
  unfold roundEven. repeat case_match; lia.
Qed.

Lemma roundEven_le (q : Q) (n : Z) : (q <= inject_Z n)%Q -> roundEven q <= n.
Proof.
  intros H. assert (Qfloor q <= n) as Hf.
  { rewrite <- (Qfloor_Z n). by apply Qfloor_resp_le. }
  destruct (decide (Qfloor q = n)) as [E|E].
  - unfold roundEven. rewrite E.
    assert ((q - inject_Z n ?= 1 # 2)%Q = Lt) as ->; [|lia].
    apply (proj1 (Qlt_alt _ _)). lra.
  - unfold roundEven. repeat case_match; lia.
Qed.

Lemma roundEven_ge (q : Q) (n : Z) : (inject_Z n <= q)%Q -> n <= roundEven q.
Proof.
  intros H. assert (n <= Qfloor q) as Hf.
  { rewrite <- (Qfloor_Z n). by apply Qfloor_resp_le. }
  unfold roundEven. repeat case_match; lia.
Qed.

Lemma ilog2_spec (q : Q) :
  (0 < q)%Q -> (pow2 (ilog2 q) <= q)%Q /\ (q < pow2 (ilog2 q + 1))%Q.
Proof.
  intros Hq. destruct q as [n d]. unfold ilog2. cbn [Qnum Qden].
  assert (0 < n) as Hn by (unfold Qlt in Hq; cbn in Hq; lia).
  set (ln := Z.log2 n). set (ld := Z.log2 (Z.pos d)).
  destruct (Z.log2_spec n Hn) as [Hn1 Hn2]. fold ln in Hn1, Hn2.
  destruct (Z.log2_spec (Z.pos d) eq_refl) as [Hd1 Hd2]. fold ld in Hd1, Hd2.
  assert (0 <= ln) as Hln by apply Z.log2_nonneg.
  assert (0 <= ld) as Hld by apply Z.log2_nonneg.
  assert (pow2 ln <= inject_Z n)%Q as A1 by (rewrite pow2_Z by done; by rewrite <- Zle_Qle).
  assert (inject_Z n < pow2 (ln + 1))%Q as A2.
  { rewrite pow2_Z by lia. rewrite <- Zlt_Qlt. by rewrite <- Z.add_1_r in Hn2. }
  assert (pow2 ld <= inject_Z (Z.pos d))%Q as B1
    by (rewrite pow2_Z by done; by rewrite <- Zle_Qle).
  assert (inject_Z (Z.pos d) < pow2 (ld + 1))%Q as B2.
  { rewrite pow2_Z by lia. rewrite <- Zlt_Qlt. by rewrite <- Z.add_1_r in Hd2. }
  assert ((n # d) * inject_Z (Z.pos d) == inject_Z n)%Q as Hmul.
  { rewrite (Qmake_Qdiv n d). field. discriminate. }
  set (q := n # d) in *.
  assert (0 < inject_Z (Z.pos d))%Q as Hdpos by done.
  pose proof (pow2_pos ld) as Pld. pose proof (pow2_pos (ln - ld)) as Pk.
  pose proof (pow2_pos (ln - ld - 1)) as Pk1.
  assert (pow2 (ln + 1) == pow2 (ln - ld + 1) * pow2 ld)%Q as E1.
  { rewrite <- pow2_add. by replace (ln - ld + 1 + ld) with (ln + 1) by lia. }
  assert (pow2 ln == pow2 (ln - ld - 1) * pow2 (ld + 1))%Q as E2.
  { rewrite <- pow2_add. by replace (ln - ld - 1 + (ld + 1)) with ln by lia. }
  assert (q < pow2 (ln - ld + 1))%Q as U.
  { pose proof (pow2_pos (ln - ld + 1)). nra. }
  assert (pow2 (ln - ld - 1) <= q)%Q as L by nra.
  destruct (Qle_bool (pow2 (ln - ld)) q) eqn:E.
  - apply Qle_bool_iff in E. done.
  - split; [done|]. replace (ln - ld - 1 + 1) with (ln - ld) by lia.
    apply Qnot_le_lt. intros H. apply Qle_bool_iff in H. congruence.
Qed.

Lemma ilog2_unique (q : Q) (e : Z) :
  (pow2 e <= q)%Q -> (q < pow2 (e + 1))%Q -> ilog2 q = e.
Proof.
  intros H1 H2. assert (0 < q)%Q as Hq by (pose proof (pow2_pos e); lra).
  destruct (ilog2_spec q Hq) as [H3 H4].
  assert (ilog2 q < e + 1).
  { apply pow2_lt_inv. lra. }
  assert (e < ilog2 q + 1).
  { apply pow2_lt_inv. lra. }
  lia.
Qed.

Lemma ilog2_comp (q q' : Q) : (0 < q)%Q -> (q == q')%Q -> ilog2 q = ilog2 q'.
Proof.
  intros Hq H. destruct (ilog2_spec q Hq) as [H1 H2].
  symmetry. apply ilog2_unique; by rewrite <- H.
Qed.

Lemma nearest_comp (a a' : Q) : (0 < a)%Q -> (a == a')%Q -> (nearest a == nearest a')%Q.
Proof.
  intros Ha H. unfold nearest, ulpExp. rewrite (ilog2_comp a a' Ha H).
  set (e := Z.max _ _).
  assert (a / pow2 e == a' / pow2 e)%Q as Hd by (by rewrite H).
  by rewrite (roundEven_comp _ _ Hd).
Qed.

Lemma nearest_nonneg (a : Q) : (0 <= a)%Q -> (0 <= nearest a)%Q.
Proof.
  intros Ha. unfold nearest. set (e := ulpExp a).
  pose proof (pow2_pos e) as Hp.
  assert (0 <= roundEven (a / pow2 e)) as Hm.
  { apply roundEven_nonneg. apply Qle_shift_div_l; [done|]. lra. }
  assert (0 <= inject_Z (roundEven (a / pow2 e)))%Q.
  { change 0%Q with (inject_Z 0). by rewrite <- Zle_Qle. }
  nra.
Qed.

(** The significand of the nearest number has at most 53 bits, and has
    53 bits unless the number is subnormal. *)
Lemma nearest_significand (a : Q) :
  (0 < a)%Q ->
  let m := roundEven (a / pow2 (ulpExp a)) in
  0 <= m <= 2 ^ 53 /\ (ulpExp a <> -1074 -> 2 ^ 52 <= m).
Proof.
  intros Ha. cbv zeta. destruct (ilog2_spec a Ha) as [H1 H2].
  set (e := ulpExp a). pose proof (pow2_pos e) as Hp.
  assert (ilog2 a - 52 <= e) as He by (unfold e, ulpExp; lia).
  assert (a / pow2 e < inject_Z (2 ^ 53))%Q as Hup.
  { apply Qlt_shift_div_r; [done|]. rewrite <- pow2_Z by done. rewrite <- pow2_add.
    eapply Qlt_le_trans; [exact H2|]. apply pow2_le. lia. }
  split; [split|].
  - apply roundEven_nonneg. apply Qle_shift_div_l; [done|]. lra.
  - apply roundEven_le. lra.
  - intros Hne. assert (e = ilog2 a - 52) as Hee by (unfold e, ulpExp in *; lia).
    apply roundEven_ge. apply Qle_shift_div_l; [done|].
    rewrite <- pow2_Z by done. rewrite <- pow2_add.
    eapply Qle_trans; [|exact H1]. apply pow2_le. lia.
Qed.

(** A number of binary64 is its own nearest number. *)
Lemma nearest_fix (m e : Z) :
  0 < m <= 2 ^ 53 -> -1074 <= e -> (2 ^ 52 <= m \/ e = -1074) ->
  (nearest (inject_Z m * pow2 e) == inject_Z m * pow2 e)%Q.
Proof.
  intros Hm He Hc. set (a := (inject_Z m * pow2 e)%Q).
  pose proof (pow2_pos e) as Hp.
  assert (0 < inject_Z m)%Q as Hm0 by (change 0%Q with (inject_Z 0); rewrite <- Zlt_Qlt; lia).
  assert (0 < a)%Q as Ha by (unfold a; nra).
  destruct (decide (m = 2 ^ 53)) as [->|Hne].
  - (* a power of two: the significand is renormalised *)
    assert (a == pow2 (e + 53))%Q as Ea.
    { unfold a. rewrite pow2_add, (pow2_Z 53) by done. ring. }
    assert (ilog2 a = e + 53) as Hl.
    { apply ilog2_unique; rewrite Ea; [lra|]. apply pow2_lt. lia. }
    unfold nearest, ulpExp. rewrite Hl.
    replace (Z.max (e + 53 - 52) (-1074)) with (e + 1) by lia.
    assert (a / pow2 (e + 1) == inject_Z (2 ^ 52))%Q as Hd.
    { rewrite Ea. replace (e + 53) with (52 + (e + 1)) by lia.
      rewrite pow2_add, (pow2_Z 52) by done. pose proof (pow2_pos (e + 1)).
      field. lra. }
    rewrite (roundEven_comp _ _ Hd), roundEven_Z. unfold a.
    rewrite (pow2_add e 1). change (pow2 1) with 2%Q.
    change (inject_Z (2 ^ 52)) with (4503599627370496)%Q.
    change (inject_Z (2 ^ 53)) with (9007199254740992)%Q. ring.
  - assert (ulpExp a = e) as Hu.
    { unfold ulpExp. destruct Hc as [Hc| ->].
      - assert (ilog2 a = e + 52) as ->; [|lia].
        apply ilog2_unique; unfold a.
        + rewrite (Z.add_comm e 52), pow2_add, (pow2_Z 52) by done.
          assert (inject_Z (2 ^ 52) <= inject_Z m)%Q by (by rewrite <- Zle_Qle). nra.
        + replace (e + 52 + 1) with (53 + e) by lia.
          rewrite pow2_add, (pow2_Z 53) by done.
          assert (inject_Z m < inject_Z (2 ^ 53))%Q by (rewrite <- Zlt_Qlt; lia). nra.
      - destruct (ilog2_spec a Ha) as [H1 H2].
        assert (ilog2 a < 53 + -1074); [|lia].
        apply pow2_lt_inv. eapply Qle_lt_trans; [exact H1|]. unfold a.
        rewrite pow2_add, (pow2_Z 53) by done.
        assert (inject_Z m < inject_Z (2 ^ 53))%Q by (rewrite <- Zlt_Qlt; lia). nra. }
    unfold nearest. rewrite Hu.
    assert (a / pow2 e == inject_Z m)%Q as Hd by (unfold a; field; lra).
    by rewrite (roundEven_comp _ _ Hd), roundEven_Z.
Qed.

Lemma nearest_idem (a : Q) :
  (0 < a)%Q -> (0 < nearest a)%Q -> (nearest (nearest a) == nearest a)%Q.
Proof.
  intros Ha Hv. destruct (nearest_significand a Ha) as [[Hm0 Hm1] Hm2].
  unfold nearest in Hv |- * at 2 3. set (e := ulpExp a) in *.
  set (m := roundEven (a / pow2 e)) in *.
  assert (0 < m) as Hm.
  { destruct (decide (m = 0)) as [E|E]; [|lia]. rewrite E in Hv.
    exfalso. change (inject_Z 0) with 0%Q in Hv. lra. }
  apply nearest_fix; [lia|unfold e, ulpExp; lia|].
  destruct (decide (e = -1074)); [by right|left; by apply Hm2].
Qed.

Lemma Qle_bool_comp (a b b' : Q) : (b == b')%Q -> Qle_bool a b = Qle_bool a b'.
Proof.
  intros H. destruct (Qle_bool a b') eqn:E.
  - apply Qle_bool_iff. apply Qle_bool_iff in E. by rewrite H.
  - destruct (Qle_bool a b) eqn:E'; [|done].
    apply Qle_bool_iff in E'. rewrite H in E'. apply Qle_bool_iff in E'. congruence.
Qed.

Lemma Qred_zero (q : Q) : (Qred q == 0)%Q -> Qred q = 0%Q.
Proof.
  intros H. rewrite <- (Qred_complete _ _ (Qred_correct q)).
  by rewrite (Qred_complete _ _ H).
Qed.

(** Rounding gives a number of binary64: rounding it again changes
    nothing. *)
Lemma round64_idem (q : Q) : fl (round64 q) = round64 q.
Proof.
  rewrite round64_nearest. destruct (Qcompare_spec q 0) as [E|E|E]; [done|..].
  - assert (0 < Qabs q)%Q as Ha by (rewrite Qabs_neg; lra).
    pose proof (nearest_nonneg (Qabs q) (Qlt_le_weak _ _ Ha)) as Hv.
    set (v := nearest (Qabs q)) in *.
    destruct (Qle_bool (pow2 1024) v) eqn:Ho; [done|].
    cbn [fl]. rewrite round64_nearest.
    destruct (Qcompare_spec (Qred (- v)) 0) as [E'|E'|E'].
    + f_equal. symmetry. by apply Qred_zero.
    + rewrite Qred_correct in E'.
      assert (Qabs (Qred (- v)) == v)%Q as Hab.
      { rewrite Qred_correct, Qabs_neg by lra. ring. }
      assert (0 < v)%Q as Hv0 by lra.
      assert (nearest (Qabs (Qred (- v))) == v)%Q as Hn.
      { rewrite (nearest_comp _ v) by (done || lra). by apply nearest_idem. }
      rewrite (Qle_bool_comp _ _ v Hn), Ho. f_equal. apply Qred_complete.
      by rewrite Hn.
    + rewrite Qred_correct in E'. lra.
  - assert (0 < Qabs q)%Q as Ha by (rewrite Qabs_pos; lra).
    pose proof (nearest_nonneg (Qabs q) (Qlt_le_weak _ _ Ha)) as Hv.
    set (v := nearest (Qabs q)) in *.
    destruct (Qle_bool (pow2 1024) v) eqn:Ho; [done|].
    cbn [fl]. rewrite round64_nearest.
    destruct (Qcompare_spec (Qred v) 0) as [E'|E'|E'].
    + f_equal. symmetry. by apply Qred_zero.
    + rewrite Qred_correct in E'. lra.
    + rewrite Qred_correct in E'.
      assert (Qabs (Qred v) == v)%Q as Hab.
      { rewrite Qred_correct, Qabs_pos by lra. done. }
      assert (nearest (Qabs (Qred v)) == v)%Q as Hn.
      { rewrite (nearest_comp _ v) by (done || lra). by apply nearest_idem. }
      rewrite (Qle_bool_comp _ _ v Hn), Ho. f_equal. apply Qred_complete.
      by rewrite Hn.
Qed.

Lemma fl_idem (x : num) : fl (fl x) = fl x.
Proof. destruct x; try done. apply round64_idem. Qed.

Lemma pow2_neg (e : Z) : e < 0 -> pow2 e = 1 # Z.to_pos (2 ^ (- e)).
Proof. intros H. unfold pow2. by rewrite (proj2 (Z.leb_gt 0 e) H). Qed.

Lemma ilog2_le_0 (a : Q) : (0 < a)%Q -> (a <= 1)%Q -> ilog2 a <= 0.
Proof.
  intros H0 H1. destruct a as [n d]. unfold ilog2. cbn [Qnum Qden].
  assert (n <= Z.pos d) as Hnd.
  { unfold Qle in H1. cbn in H1. lia. }
  pose proof (Z.log2_le_mono _ _ Hnd). case_match; lia.
Qed.

Lemma round64_ge_m1 (q : Q) : (-1 <= q)%Q -> num_leb (of_Z (-1)) (round64 q) = true.
Proof.
  intros Hq. unfold round64. destruct (Qcompare_spec q 0) as [E|E|E].
  - done.
  - cbv zeta. set (a := Qabs q). set (e := Z.max _ _).
    assert (a == - q)%Q as Ha by (subst a; apply Qabs_neg; lra).
    assert (0 < a)%Q as Ha0 by lra. assert (a <= 1)%Q as Ha1 by lra.
    assert (e <= -52) as He.
    { subst e. pose proof (ilog2_le_0 a Ha0 Ha1). lia. }
    set (N := 2 ^ (- e)). assert (0 < N) as HN by (apply Z.pow_pos_nonneg; lia).
    assert (pow2 e = 1 # Z.to_pos N) as Hp by (apply pow2_neg; lia).
    assert (a / pow2 e <= inject_Z N)%Q as Hdiv.
    { rewrite Hp. unfold Qdiv, Qinv. cbn [Qnum Qden].
      assert ((Z.pos (Z.to_pos N) # 1) == inject_Z N)%Q as ->.
      { unfold inject_Z. by rewrite Z2Pos.id. }
      assert (0 < inject_Z N)%Q by (change 0%Q with (inject_Z 0); by rewrite <- Zlt_Qlt).
      nra. }
    pose proof (roundEven_le _ _ Hdiv) as Hm.
    assert (0 <= roundEven (a / pow2 e)) as Hm0.
    { apply roundEven_nonneg. apply Qle_shift_div_l; [apply pow2_pos|lra]. }
    set (m := roundEven _) in *.
    assert (inject_Z m * pow2 e <= 1)%Q as Hv.
    { rewrite Hp. unfold Qle, Qmult, inject_Z. cbn.
      rewrite Pos.mul_1_l, Z2Pos.id by done. lia. }
    assert (inject_Z m * pow2 e >= 0)%Q as Hv0.
    { pose proof (pow2_pos e). assert (0 <= inject_Z m)%Q; [|nra].
      change 0%Q with (inject_Z 0). by rewrite <- Zle_Qle. }
    destruct (Qle_bool _ _) eqn:Ho.
    + apply Qle_bool_iff in Ho. exfalso.
      assert (1 < pow2 1024)%Q by done. lra.
    + unfold of_Z. apply num_leb_Fin. rewrite Qred_correct.
      change (inject_Z (-1)) with (-1)%Q. lra.
  - cbv zeta. set (e := Z.max _ _). set (m := roundEven _).
    assert (0 <= m) as Hm0.
    { apply roundEven_nonneg. apply Qle_shift_div_l; [apply pow2_pos|].
      rewrite Qmult_0_l. apply Qabs_nonneg. }
    destruct (Qle_bool _ _); [done|].
    unfold of_Z. apply num_leb_Fin. rewrite Qred_correct.
    pose proof (pow2_pos e). assert (0 <= inject_Z m)%Q.
    { change 0%Q with (inject_Z 0). by rewrite <- Zle_Qle. }
    change (inject_Z (-1)) with (-1)%Q. nra.
Qed.

Lemma fl_not_nan (x : num) : is_nan x = false -> is_nan (fl x) = false.
Proof. destruct x; try done. intros _. apply round64_not_nan. Qed.

(** * Properties *)

(** ** Frame lemmas: what each step leaves untouched *)

Lemma alter_proj {B : Type} (p : task -> B) (f : task -> task) (i : nat) (l : list task) :
  (forall t, p (f t) = p t) -> p <$> alter f i l = p <$> l.
Proof.
  intros Hp. revert i. induction l as [|x l IH]; intros [|i]; try done.
  - cbn. by rewrite Hp.
  - cbn. f_equal. apply IH.
Qed.

Lemma proj_lookup {B : Type} (p : task -> B) (l l' : list task) (j : nat) (t : task) :
  p <$> l' = p <$> l -> l !! j = Some t ->
  exists t', l' !! j = Some t' /\ p t' = p t.
Proof.
  intros Heq Hj.
  assert (H : (p <$> l') !! j = Some (p t))
    by (rewrite Heq, list_lookup_fmap, Hj; done).
  rewrite list_lookup_fmap in H. destruct (l' !! j) as [t'|]; simplify_eq/=. eauto.
Qed.

Lemma proj_lookup_eq {B : Type} (p : task -> B) (l l' : list task) (j : nat) (t t' : task) :
  p <$> l' = p <$> l -> l !! j = Some t -> l' !! j = Some t' -> p t' = p t.
Proof.
  intros Heq Hj Hj'. destruct (proj_lookup p l l' j t Heq Hj) as (t'' & H1 & H2).
  congruence.
Qed.

Lemma proj_length {B : Type} (p : task -> B) (l l' : list task) :
  p <$> l' = p <$> l -> length l' = length l.
Proof. intros H. apply (f_equal length) in H. by rewrite !length_fmap in H. Qed.

Lemma foldl_frame {A C : Type} (obs : state -> C) (f : state -> A -> state)
    (l : list A) (s : state) :
  (forall s x, obs (f s x) = obs s) -> obs (foldl f s l) = obs s.
Proof.
  intros Hf. revert s. induction l as [|x l IH]; intros s; simpl; [done|].
  rewrite IH. apply Hf.
Qed.

Section Frames.
Context {host : Host}.

Lemma inheritOne_machine now s w : machine (inheritOne now s w) = machine s.
Proof. unfold inheritOne. repeat case_match; done. Qed.

Lemma inheritOne_proj {B : Type} (p : task -> B) now s w :
  (forall b t, p (set_boosted b t) = p t) ->
  p <$> tasks (inheritOne now s w) = p <$> tasks s.
Proof.
  intros Hp. unfold inheritOne. repeat case_match; try done.
  simpl. by apply alter_proj.
Qed.

Lemma applyPriorityInheritance_machine now s :
  machine (applyPriorityInheritance now s) = machine s.
Proof.
  unfold applyPriorityInheritance.
  rewrite (foldl_frame machine) by apply inheritOne_machine. done.
Qed.

Lemma applyPriorityInheritance_proj {B : Type} (p : task -> B) now s :
  (forall b t, p (set_boosted b t) = p t) ->
  p <$> tasks (applyPriorityInheritance now s) = p <$> tasks s.
Proof.
  intros Hp. unfold applyPriorityInheritance.
  rewrite (foldl_frame (fun s => p <$> tasks s))
    by (intros; by apply inheritOne_proj).
  simpl. rewrite <- list_fmap_compose. apply list_fmap_ext. intros ? t _. apply Hp.
Qed.

Lemma markEffective_proj {B : Type} (p : task -> B) s i :
  (forall b t, p (set_effectiveCritical b t) = p t) ->
  p <$> tasks (markEffective s i) = p <$> tasks s.
Proof. intros Hp. simpl. apply alter_proj. intros t. apply Hp. Qed.

Lemma chooseNextWithBoost_fst sched s :
  fst (chooseNextWithBoost sched s) =
    if (length (candidatesOf s) =? 0)%nat then s
    else foldl markEffective s (candidatesOf s).
Proof.
  unfold chooseNextWithBoost, candidatesOf.
  repeat case_match; done.
Qed.

Lemma chooseNextWithBoost_machine sched s :
  machine (fst (chooseNextWithBoost sched s)) = machine s.
Proof.
  rewrite chooseNextWithBoost_fst. case_match; [done|].
  by apply foldl_frame.
Qed.

Lemma chooseNextWithBoost_proj {B : Type} (p : task -> B) sched s :
  (forall b t, p (set_effectiveCritical b t) = p t) ->
  p <$> tasks (fst (chooseNextWithBoost sched s)) = p <$> tasks s.
Proof.
  intros Hp. rewrite chooseNextWithBoost_fst. case_match; [done|].
  apply (foldl_frame (fun s => p <$> tasks s)). intros. by apply markEffective_proj.
Qed.

Lemma waitOne_machine s j : machine (waitOne s j) = machine s.
Proof. unfold waitOne. repeat case_match; done. Qed.

Lemma waitOne_log s j : log (waitOne s j) = log s.
Proof. unfold waitOne. repeat case_match; done. Qed.

Lemma waitOne_proj {B : Type} (p : task -> B) s j :
  (forall w t, p (set_wait_time w t) = p t) ->
  p <$> tasks (waitOne s j) = p <$> tasks s.
Proof.
  intros Hp. unfold waitOne. repeat case_match; try done.
  simpl. apply alter_proj. intros. apply Hp.
Qed.

Lemma waitAll_machine s l : machine (foldl waitOne s l) = machine s.
Proof. apply foldl_frame, waitOne_machine. Qed.

Lemma waitAll_log s l : log (foldl waitOne s l) = log s.
Proof. apply foldl_frame, waitOne_log. Qed.

Lemma waitAll_proj {B : Type} (p : task -> B) s l :
  (forall w t, p (set_wait_time w t) = p t) ->
  p <$> tasks (foldl waitOne s l) = p <$> tasks s.
Proof.
  intros Hp. apply (foldl_frame (fun s => p <$> tasks s)).
  intros. by apply waitOne_proj.
Qed.

Lemma admitOne_unadmitted now s i : unadmitted (admitOne now s i) = unadmitted s.
Proof. unfold admitOne. repeat case_match; done. Qed.

Lemma admitOne_proj {B : Type} (p : task -> B) now s i :
  (forall b t, p (set_admitted b t) = p t) ->
  p <$> tasks (admitOne now s i) = p <$> tasks s.
Proof.
  intros Hp. unfold admitOne. repeat case_match; try done.
  simpl. apply alter_proj. intros. apply Hp.
Qed.

Lemma admitArrivals_unadmitted now s :
  unadmitted (admitArrivals now s) = unadmitted s.
Proof. apply foldl_frame, admitOne_unadmitted. Qed.

Lemma admitArrivals_proj {B : Type} (p : task -> B) now s :
  (forall b t, p (set_admitted b t) = p t) ->
  p <$> tasks (admitArrivals now s) = p <$> tasks s.
Proof.
  intros Hp. apply (foldl_frame (fun s => p <$> tasks s)).
  intros. by apply admitOne_proj.
Qed.

Lemma update_other i f s j : i <> j -> tasks (update i f s) !! j = tasks s !! j.
Proof. intros. simpl. by apply list_lookup_alter_ne. Qed.

Lemma update_same i f s : tasks (update i f s) !! i = f <$> tasks s !! i.
Proof. simpl. apply list_lookup_alter_eq. Qed.

Lemma release_held_tasks now r s : tasks (release_held now r s) = tasks s.
Proof. unfold release_held. repeat case_match; done. Qed.

Lemma clear_needed_tasks r s : tasks (clear_needed r s) = tasks s.
Proof. unfold clear_needed. repeat case_match; done. Qed.

Lemma release_held_clock now r s : clock (release_held now r s) = clock s.
Proof. unfold release_held. repeat case_match; done. Qed.

Lemma clear_needed_clock r s : clock (clear_needed r s) = clock s.
Proof. unfold clear_needed. repeat case_match; done. Qed.

Lemma execute_clock now i s : clock (execute now i s) = clock s.
Proof.
  unfold execute. repeat case_match; try done.
  by rewrite clear_needed_clock, release_held_clock.
Qed.

Lemma execute_other now i s j :
  i <> j -> tasks (execute now i s) !! j = tasks s !! j.
Proof.
  intros Hij. unfold execute. repeat case_match.
  - rewrite clear_needed_tasks, release_held_tasks. simpl.
    by rewrite !list_lookup_alter_ne.
  - simpl. by rewrite !list_lookup_alter_ne.
  - simpl. by rewrite !list_lookup_alter_ne.
Qed.

Lemma dispatch_clock now i s : clock (dispatch now i s) = clock s.
Proof.
  unfold dispatch. repeat case_match; try done; by rewrite execute_clock.
Qed.

Lemma dispatch_other now i s j :
  i <> j -> tasks (dispatch now i s) !! j = tasks s !! j.
Proof.
  intros Hij. unfold dispatch. repeat case_match; try done;
    rewrite ?execute_other by done; simpl; by rewrite ?list_lookup_alter_ne.
Qed.

End Frames.

(** ** Numbers *)

Lemma Qsgn_sub (a b : Q) : Qsgn (Qred (a - b)) = (a ?= b)%Q.
Proof.
  unfold Qsgn. rewrite (Qred_correct (a - b)).
  destruct (Qcompare_spec a b) as [E|E|E].
  - apply Qeq_alt. rewrite E. ring.
  - apply (proj1 (Qlt_alt _ _)). lra.
  - apply (proj1 (Qgt_alt _ _)). lra.
Qed.

Lemma num_sub_truthy (x y : num) :
  is_nan x = false -> is_nan y = false ->
  num_truthy (num_sub x y) = if num_cmp x y is Eq then false else true.
Proof.
  destruct x, y; try done. intros _ _. simpl. by rewrite Qsgn_sub.
Qed.

Lemma num_sub_gtb (x y : num) :
  is_nan x = false -> is_nan y = false ->
  num_gtb (num_sub x y) (of_Z 0) = if num_cmp x y is Gt then true else false.
Proof.
  destruct x, y; try done. intros _ _. simpl.
  change (inject_Z 0) with 0%Q. rewrite <- Qcompare_antisym.
  fold (Qsgn (Qred (q - q0))). rewrite Qsgn_sub. by destruct (q ?= q0)%Q.
Qed.

Lemma num_cmp_refl (x : num) : is_nan x = false -> num_cmp x x = Eq.
Proof. destruct x; try done. intros _. simpl. by apply Qeq_alt. Qed.

Lemma num_cmp_antisym (x y : num) :
  is_nan x = false -> is_nan y = false -> num_cmp y x = CompOpp (num_cmp x y).
Proof.
  destruct x, y; try done. intros _ _. simpl. by rewrite Qcompare_antisym.
Qed.

Lemma num_cmp_eq_l (x y z : num) :
  is_nan x = false -> is_nan y = false -> is_nan z = false ->
  num_cmp x y = Eq -> num_cmp x z = num_cmp y z.
Proof.
  destruct x, y, z; try done. intros _ _ _. simpl. intros E.
  apply Qeq_alt in E. by rewrite E.
Qed.

Lemma num_cmp_eq_r (x y z : num) :
  is_nan x = false -> is_nan y = false -> is_nan z = false ->
  num_cmp y z = Eq -> num_cmp x y = num_cmp x z.
Proof.
  destruct x, y, z; try done. intros _ _ _. simpl. intros E.
  apply Qeq_alt in E. by rewrite E.
Qed.

Lemma num_cmp_lt_trans (x y z : num) :
  is_nan x = false -> is_nan y = false -> is_nan z = false ->
  num_cmp x y = Lt -> num_cmp y z = Lt -> num_cmp x z = Lt.
Proof.
  destruct x, y, z; try done. intros _ _ _. simpl.
  rewrite <- !Qlt_alt. apply Qlt_trans.
Qed.

(** ** Sorting and the comparators *)

Lemma insertBy_elem {A : Type} (cmp : A -> A -> num) (x y : A) (l : list A) :
  y ∈ insertBy cmp x l <-> y = x \/ y ∈ l.
Proof.
  induction l as [|z l IH]; cbn [insertBy].
  - rewrite list_elem_of_singleton, elem_of_nil. tauto.
  - destruct (num_gtb (cmp x z) (of_Z 0)); rewrite ?elem_of_cons; rewrite ?IH; rewrite ?elem_of_cons; tauto.
Qed.

Lemma sortBy_elem {A : Type} (cmp : A -> A -> num) (y : A) (l : list A) :
  y ∈ sortBy cmp l <-> y ∈ l.
Proof.
  induction l as [|z l IH]; [done|].
  cbn [sortBy foldr]. fold (sortBy cmp l).
  rewrite insertBy_elem, elem_of_cons, IH. done.
Qed.

Lemma head_sortBy_min {A : Type} (cmp : A -> A -> num) (le : A -> A -> Prop)
    (ok : A -> Prop) (l : list A) (m : A) :
  (forall x y, ok x -> ok y -> num_gtb (cmp x y) (of_Z 0) = false -> le x y) ->
  (forall x y, ok x -> ok y -> num_gtb (cmp x y) (of_Z 0) = true -> le y x) ->
  (forall x, ok x -> le x x) ->
  (forall x y z, ok x -> ok y -> ok z -> le x y -> le y z -> le x z) ->
  Forall ok l ->
  head (sortBy cmp l) = Some m ->
  m ∈ l /\ forall y, y ∈ l -> le m y.
Proof.
  intros Hle Hgt Hrefl Htrans Hok. revert m.
  induction l as [|x l IH]; intros m; [done|].
  cbn [sortBy foldr]. fold (sortBy cmp l).
  apply Forall_cons in Hok as [Hx Hl]. specialize (IH Hl).
  destruct (sortBy cmp l) as [|y sl] eqn:Hs.
  - cbn [insertBy head]. intros Hm. injection Hm as <-. destruct l as [|z l].
    + split; [apply list_elem_of_here|].
      intros y Hy. apply list_elem_of_singleton in Hy. subst. auto.
    + assert (z ∈ sortBy cmp (z :: l)) as Hz
        by (apply sortBy_elem, list_elem_of_here).
      rewrite Hs in Hz. by apply elem_of_nil in Hz.
  - destruct (IH y eq_refl) as [Hyl Hymin].
    assert (ok y) as Hy by (rewrite Forall_forall in Hl; auto).
    cbn [insertBy]. destruct (num_gtb (cmp x y) (of_Z 0)) eqn:Hc; cbn [head];
      intros Hm; injection Hm as <-.
    + split; [by apply list_elem_of_further|].
      intros z Hz. apply elem_of_cons in Hz as [->|Hz]; auto.
    + split; [apply list_elem_of_here|].
      intros z Hz. apply elem_of_cons in Hz as [->|Hz]; auto.
      assert (ok z) by (rewrite Forall_forall in Hl; auto).
      apply (Htrans x y z); auto.
Qed.

Lemma head_sortBy_None {A : Type} (cmp : A -> A -> num) (l : list A) :
  head (sortBy cmp l) = None -> l = [].
Proof.
  destruct l as [|x l]; [done|]. cbn [sortBy foldr]. fold (sortBy cmp l). intros H.
  assert (x ∈ insertBy cmp x (sortBy cmp l)) as Hx by (apply insertBy_elem; auto).
  destruct (insertBy cmp x (sortBy cmp l)); [by apply elem_of_nil in Hx | done].
Qed.

Lemma num_gtb_of_Z (z : Z) : num_gtb (of_Z z) (of_Z 0) = (0 <? z).
Proof.
  unfold num_gtb, of_Z, num_ltb, Qcompare. simpl. rewrite Z.mul_1_r.
  by destruct z.
Qed.

Section Comparators.
Context {host : Host} {order : HostOrder host}.

Lemma lc_refl (a : string) : localeCompare a a = 0.
Proof. pose proof (lc_antisym a a). lia. Qed.

(** The sign of a comparator, for tasks whose keys are numbers. *)
Lemma cmp_sign (key : task -> num) (a b : task) :
  is_nan (key a) = false -> is_nan (key b) = false ->
  is_nan (arrival a) = false -> is_nan (arrival b) = false ->
  num_gtb (num_or (num_or (num_sub (key a) (key b))
                          (num_sub (arrival a) (arrival b)))
                  (of_Z (localeCompare (id a) (id b)))) (of_Z 0) =
  match num_cmp (key a) (key b) with
  | Gt => true
  | Lt => false
  | Eq => match num_cmp (arrival a) (arrival b) with
          | Gt => true
          | Lt => false
          | Eq => 0 <? localeCompare (id a) (id b)
          end
  end.
Proof.
  intros Ha Hb Ha' Hb'. unfold num_or at 2.
  rewrite (num_sub_truthy (key a) (key b)) by done.
  destruct (num_cmp (key a) (key b)) eqn:E1.
  - unfold num_or. rewrite (num_sub_truthy (arrival a) (arrival b)) by done.
    destruct (num_cmp (arrival a) (arrival b)) eqn:E2.
    + apply num_gtb_of_Z.
    + rewrite num_sub_gtb by done. by rewrite E2.
    + rewrite num_sub_gtb by done. by rewrite E2.
  - unfold num_or. rewrite num_sub_truthy by done. rewrite E1.
    rewrite num_sub_gtb by done. by rewrite E1.
  - unfold num_or. rewrite num_sub_truthy by done. rewrite E1.
    rewrite num_sub_gtb by done. by rewrite E1.
Qed.

Lemma lex_le_of_not_gt (key : task -> num) (a b : task) :
  key_ok key a -> key_ok key b ->
  num_gtb (num_or (num_or (num_sub (key a) (key b))
                          (num_sub (arrival a) (arrival b)))
                  (of_Z (localeCompare (id a) (id b)))) (of_Z 0) = false ->
  lex_le key a b.
Proof.
  intros [Ha Ha'] [Hb Hb']. rewrite cmp_sign by done. unfold lex_le, num_lt, num_eqv.
  destruct (num_cmp (key a) (key b)); [|auto|done].
  destruct (num_cmp (arrival a) (arrival b)); [|auto|done].
  intros H%Z.ltb_ge. auto.
Qed.

Lemma lex_le_of_gt (key : task -> num) (a b : task) :
  key_ok key a -> key_ok key b ->
  num_gtb (num_or (num_or (num_sub (key a) (key b))
                          (num_sub (arrival a) (arrival b)))
                  (of_Z (localeCompare (id a) (id b)))) (of_Z 0) = true ->
  lex_le key b a.
Proof.
  intros [Ha Ha'] [Hb Hb']. rewrite cmp_sign by done. unfold lex_le, num_lt, num_eqv.
  rewrite (num_cmp_antisym (key a) (key b)) by done.
  rewrite (num_cmp_antisym (arrival a) (arrival b)) by done.
  destruct (num_cmp (key a) (key b)); simpl; [|done|auto].
  destruct (num_cmp (arrival a) (arrival b)); simpl; [|done|auto].
  intros H%Z.ltb_lt. apply lc_antisym in H. right. split; [done|]. right. split; [done|lia].
Qed.

Lemma lex_le_refl (key : task -> num) (a : task) : key_ok key a -> lex_le key a a.
Proof.
  intros [Ha Ha']. right. split; [by apply num_cmp_refl|].
  right. split; [by apply num_cmp_refl|]. by rewrite lc_refl.
Qed.

Lemma lex_le_trans (key : task -> num) (a b c : task) :
  key_ok key a -> key_ok key b -> key_ok key c ->
  lex_le key a b -> lex_le key b c -> lex_le key a c.
Proof.
  intros [Ha Ha'] [Hb Hb'] [Hc Hc']. unfold lex_le, num_lt, num_eqv.
  intros [H1|[H1 H1']] [H2|[H2 H2']].
  - left. by apply (num_cmp_lt_trans _ (key b)).
  - left. by rewrite <- (num_cmp_eq_r (key a) (key b) (key c)).
  - left. by rewrite (num_cmp_eq_l (key a) (key b) (key c)).
  - right. split; [by rewrite (num_cmp_eq_l (key a) (key b) (key c))|].
    destruct H1' as [H1'|[H1' H1'']], H2' as [H2'|[H2' H2'']].
    + left. by apply (num_cmp_lt_trans _ (arrival b)).
    + left. by rewrite <- (num_cmp_eq_r (arrival a) (arrival b) (arrival c)).
    + left. by rewrite (num_cmp_eq_l (arrival a) (arrival b) (arrival c)).
    + right. split; [by rewrite (num_cmp_eq_l (arrival a) (arrival b) (arrival c))|].
      by apply (lc_trans _ (id b)).
Qed.

End Comparators.

(** ** The selection *)

Lemma mark_idemp t : mark (mark t) = mark t.
Proof. by destruct t. Qed.

Lemma markAll_lookup s l i :
  tasks (foldl markEffective s l) !! i =
    (if decide (i ∈ l) then mark else fun t => t) <$> tasks s !! i.
Proof.
  revert s. induction l as [|x l IH]; intros s.
  - simpl. by destruct (tasks s !! i).
  - cbn [foldl]. rewrite IH. unfold markEffective. fold mark.
    destruct (decide (x = i)) as [->|Hne].
    + rewrite update_same. rewrite (decide_True (P := i ∈ i :: l)) by apply list_elem_of_here.
      destruct (tasks s !! i) as [t|]; [|done]. simpl.
      destruct (decide (i ∈ l)); [by rewrite mark_idemp | done].
    + rewrite update_other by done.
      destruct (decide (i ∈ l)) as [Hi|Hi].
      * rewrite (decide_True (P := i ∈ x :: l)) by (by apply list_elem_of_further). done.
      * rewrite (decide_False (P := i ∈ x :: l)); [done|].
        intros [->|H]%elem_of_cons; done.
Qed.

Lemma deref_elem ts l i t : (i, t) ∈ deref ts l <-> i ∈ l /\ ts !! i = Some t.
Proof.
  unfold deref. rewrite list_elem_of_omap. split.
  - intros (j & Hj & H). destruct (ts !! j) eqn:E; simplify_eq/=. done.
  - intros [Hi H]. exists i. split; [done|]. by rewrite H.
Qed.

Lemma filter_elem {A : Type} (f : A -> bool) (l : list A) (x : A) :
  x ∈ List.filter f l <-> x ∈ l /\ f x = true.
Proof. rewrite !list_elem_of_In. apply filter_In. Qed.

Lemma candidatesOf_elem s i :
  i ∈ candidatesOf s <-> exists t, candidate s i t.
Proof.
  unfold candidatesOf, candidate. rewrite list_elem_of_fmap. split.
  - intros ([j t] & -> & H). apply filter_elem in H as [H1 H2].
    apply deref_elem in H1 as [? ?]. exists t. done.
  - intros (t & H1 & H2 & H3). exists (i, t). split; [done|].
    apply filter_elem. split; [|done]. by apply deref_elem.
Qed.

(** The objects the comparators see: the candidates, marked. *)
Lemma objs_elem s i t :
  (i, t) ∈ deref (tasks (foldl markEffective s (candidatesOf s))) (candidatesOf s)
  <-> exists t0, candidate s i t0 /\ t = mark t0.
Proof.
  rewrite deref_elem, markAll_lookup. split.
  - intros [Hi H]. rewrite decide_True in H by done.
    apply candidatesOf_elem in Hi as (t0 & Hc). exists t0. split; [done|].
    destruct Hc as (_ & Ht0 & _). rewrite Ht0 in H. simpl in H. congruence.
  - intros (t0 & Hc & ->).
    assert (i ∈ candidatesOf s) as Hi by (apply candidatesOf_elem; eauto).
    split; [done|]. rewrite decide_True by done.
    destruct Hc as (_ & Ht0 & _). by rewrite Ht0.
Qed.

Lemma candidatesOf_nil s :
  (length (candidatesOf s) =? 0)%nat = true -> forall i t, ~ candidate s i t.
Proof.
  intros H%Nat.eqb_eq i t Hc. apply length_zero_iff_nil in H.
  assert (i ∈ candidatesOf s) as Hi by (apply candidatesOf_elem; eauto).
  rewrite H in Hi. by apply elem_of_nil in Hi.
Qed.

Section Selection.
Context {host : Host} {order : HostOrder host}.

(** The head of a sorted array of task objects is least in the ordering. *)
Lemma first_sorted_least (key : task -> num) (L : list (nat * task)) (m : nat) :
  (forall p, p ∈ L -> key_ok key p.2) ->
  fst <$> head (sortBy (fun p q : nat * task =>
      num_or (num_or (num_sub (key p.2) (key q.2))
                     (num_sub (arrival p.2) (arrival q.2)))
             (of_Z (localeCompare (id p.2) (id q.2)))) L) = Some m ->
  exists tm, (m, tm) ∈ L /\ forall p, p ∈ L -> lex_le key tm p.2.
Proof.
  intros Hok Hm.
  destruct (head _) as [[m' tm]|] eqn:Hh; simplify_eq/=.
  exists tm.
  eapply (head_sortBy_min _ (fun p q => lex_le key p.2 q.2) (fun p => key_ok key p.2))
    in Hh.
  - destruct Hh as [H1 H2]. split; [done|]. intros p Hp. by apply (H2 p).
  - intros x y Hx Hy. by apply lex_le_of_not_gt.
  - intros x y Hx Hy. by apply lex_le_of_gt.
  - intros x Hx. by apply lex_le_refl.
  - intros x y z Hx Hy Hz. by apply lex_le_trans.
  - by apply Forall_forall.
Qed.

Lemma first_sorted_None (cmp : nat * task -> nat * task -> num) (L : list (nat * task)) :
  fst <$> head (sortBy cmp L) = None -> L = [].
Proof.
  destruct (head _) eqn:H; [done|]. intros _. by apply head_sortBy_None in H.
Qed.

End Selection.

Section SelectionClaims.
Context {host : Host} {order : HostOrder host}.

(** C4, as the code has it. Under the edf discipline, and under any
    name that is neither rms nor one of the two hybrids (the fall-back),
    when no candidate has NaN for its abs_deadline or its arrival, the
    selected task is a candidate that is least in the EDF ordering among
    the candidates: smaller abs_deadline first, ties by smaller arrival,
    then by the id that localeCompare, the collation of the host, puts
    first. With no candidate, nothing is selected. *)
Theorem edf_selects_earliest_deadline (scheduler : string) (s : state) :
  scheduler <> "rms" -> scheduler <> "hybrid" -> scheduler <> "energy-hybrid" ->
  (forall i t, candidate s i t -> key_ok abs_deadline t) ->
  match snd (chooseNextWithBoost scheduler s) with
  | None => forall i t, ~ candidate s i t
  | Some m =>
      exists tm, candidate s m tm /\
        forall i t, candidate s i t -> edf_le tm t
  end.
Proof.
  intros H1%String.eqb_neq H2%String.eqb_neq H3%String.eqb_neq Hok.
  unfold chooseNextWithBoost. fold (candidatesOf s).
  destruct (length (candidatesOf s) =? 0)%nat eqn:Hn.
  { simpl. by apply candidatesOf_nil. }
  rewrite H1, H2, H3. simpl.
  assert (forall o,
    o = fst <$> head (sortBy (byTask cmpEDF)
          (deref (tasks (foldl markEffective s (candidatesOf s))) (candidatesOf s))) ->
    match o with
    | None => forall i t, ~ candidate s i t
    | Some m => exists tm, candidate s m tm /\
        forall i t, candidate s i t -> edf_le tm t
    end) as Hmain.
  { intros [m|] Ho; symmetry in Ho.
    - apply (first_sorted_least abs_deadline) in Ho.
      + destruct Ho as (tm & Hm & Hmin). apply objs_elem in Hm as (t0 & Hc & ->).
        exists t0. split; [done|]. intros i t Hi.
        apply (Hmin (i, mark t)). apply objs_elem. eauto.
      + intros [i t] (t0 & Hc & ->)%objs_elem. apply (Hok i t0 Hc).
    - apply first_sorted_None in Ho. intros i t Hc.
      assert ((i, mark t) ∈ deref (tasks (foldl markEffective s (candidatesOf s)))
                                 (candidatesOf s)) as Hi by (apply objs_elem; eauto).
      rewrite Ho in Hi. by apply elem_of_nil in Hi. }
  destruct (String.eqb scheduler "edf"); simpl; by apply Hmain.
Qed.

(** C3, as the code has it. Under the hybrid and energy-hybrid
    disciplines, when no candidate has NaN for its period, its
    abs_deadline or its arrival: if some candidate is effectively
    critical (critical, or boosted at this tick), the selected task is an
    effectively critical candidate that is least in the RMS ordering
    among the effectively critical candidates; if none is, the selected
    task is least in the EDF ordering among all the candidates. Both
    orderings break their ties by smaller arrival, then by the id that
    localeCompare, the collation of the host, puts first. *)
Theorem hybrid_selects_critical_first (scheduler : string) (s : state) :
  scheduler = "hybrid" \/ scheduler = "energy-hybrid" ->
  (forall i t, candidate s i t -> key_ok abs_deadline t /\ key_ok period t) ->
  match snd (chooseNextWithBoost scheduler s) with
  | None => forall i t, ~ candidate s i t
  | Some m =>
      exists tm, candidate s m tm /\
        ((exists i t, candidate s i t /\ effectivelyCritical t = true) ->
           effectivelyCritical tm = true /\
           forall i t, candidate s i t -> effectivelyCritical t = true -> rms_le tm t) /\
        ((forall i t, candidate s i t -> effectivelyCritical t = false) ->
           forall i t, candidate s i t -> edf_le tm t)
  end.
Proof.
  intros Hs Hok.
  unfold chooseNextWithBoost. fold (candidatesOf s).
  destruct (length (candidatesOf s) =? 0)%nat eqn:Hn.
  { simpl. by apply candidatesOf_nil. }
  assert (String.eqb scheduler "rms" = false) as ->
    by (apply String.eqb_neq; by destruct Hs as [-> | ->]).
  assert (String.eqb scheduler "edf" = false) as ->
    by (apply String.eqb_neq; by destruct Hs as [-> | ->]).
  assert (String.eqb scheduler "hybrid" || String.eqb scheduler "energy-hybrid" = true)
    as -> by (by destruct Hs as [-> | ->]).
  set (objs := deref (tasks (foldl markEffective s (candidatesOf s))) (candidatesOf s)).
  assert (forall p, p ∈ List.filter (fun p : nat * task => _effectiveCritical p.2) objs <->
            exists t0, candidate s p.1 t0 /\ p.2 = mark t0 /\ effectivelyCritical t0 = true)
    as Hcrit.
  { intros [i t]. rewrite filter_elem. unfold objs. rewrite objs_elem. simpl. split.
    - intros [(t0 & Hc & ->) He]. eauto.
    - intros (t0 & Hc & -> & He). eauto. }
  destruct (0 <? length (List.filter (fun p : nat * task => _effectiveCritical p.2) objs))%nat
    eqn:Hlen; simpl.
  - destruct (fst <$> head (sortBy (byTask cmpRMS) _)) as [m|] eqn:Ho.
    + apply (first_sorted_least period) in Ho.
      * destruct Ho as (tm & Hm & Hmin).
        apply Hcrit in Hm as (t0 & Hc & Hmark & He). simpl in Hc, Hmark. subst tm.
        exists t0. split; [done|]. split.
        -- intros _. split; [done|]. intros i t Hi Hei.
           apply (Hmin (i, mark t)). apply Hcrit. simpl. eauto.
        -- intros Hnone. rewrite (Hnone m t0 Hc) in He. done.
      * intros p (t0 & Hc & -> & _)%Hcrit. apply (Hok _ _ Hc).
    + apply first_sorted_None in Ho. rewrite Ho in Hlen. done.
  - assert (forall i t, candidate s i t -> effectivelyCritical t = false) as Hnone.
    { intros i t Hc. destruct (effectivelyCritical t) eqn:He; [|done].
      assert ((i, mark t) ∈ List.filter (fun p : nat * task => _effectiveCritical p.2) objs)
        as Hi by (apply Hcrit; simpl; eauto).
      destruct (List.filter _ objs); [by apply elem_of_nil in Hi | done]. }
    destruct (fst <$> head (sortBy (byTask cmpEDF) _)) as [m|] eqn:Ho.
    + apply (first_sorted_least abs_deadline) in Ho.
      * destruct Ho as (tm & Hm & Hmin). apply objs_elem in Hm as (t0 & Hc & ->).
        exists t0. split; [done|]. split.
        -- intros (i & t & Hc' & He). rewrite (Hnone i t Hc') in He. done.
        -- intros _ i t Hi. apply (Hmin (i, mark t)). apply objs_elem. eauto.
      * intros [i t] (t0 & Hc & ->)%objs_elem. apply (Hok i t0 Hc).
    + apply first_sorted_None in Ho. intros i t Hc.
      assert ((i, mark t) ∈ objs) as Hi by (apply objs_elem; eauto).
      rewrite Ho in Hi. by apply elem_of_nil in Hi.
Qed.

End SelectionClaims.

(** C4, as stated, fails: a deadline that is not a number gives NaN for
    abs_deadline; every difference with it is NaN, which the comparator
    takes for a tie, so that A, first by its id, is selected under edf
    ahead of B, whose deadline is 5. *)
Lemma nan_deadline_selected_under_edf :
  let s := admitArrivals 0 (init (normalize <$> nanDeadline)) in
  normalizeTasks nanDeadline = Some (normalize <$> nanDeadline) /\
  exists ta tb, candidate s 0 ta /\ candidate s 1 tb /\
    id ta = "A" /\ abs_deadline ta = NaN /\
    id tb = "B" /\ abs_deadline tb = Fin 5 /\
    snd (chooseNextWithBoost "edf" s) = Some 0%nat /\
    snd (chooseNextWithBoost "fifo" s) = Some 0%nat /\
    num_leb (abs_deadline ta) (abs_deadline tb) = false /\
    cmpEDF ta tb = of_Z (-1) /\
    ~ key_ok abs_deadline ta.
Proof.
  cbv zeta. split; [vm_compute; reflexivity|].
  eexists; eexists.
  split; [split; [|split]; [apply (bool_decide_unpack _); vm_compute; exact I
                          | vm_compute; reflexivity | vm_compute; reflexivity]|].
  split; [split; [|split]; [apply (bool_decide_unpack _); vm_compute; exact I
                          | vm_compute; reflexivity | vm_compute; reflexivity]|].
  repeat (split; [vm_compute; reflexivity|]).
  intros [H _]. vm_compute in H. discriminate H.
Qed.

(** C3, as stated, fails: a period that is not a number gives NaN; A
    and B are critical, and A, first by its id, is selected under hybrid
    ahead of B, whose period is 5. *)
Lemma nan_period_selected_under_hybrid :
  let s := admitArrivals 0 (init (normalize <$> nanPeriod)) in
  normalizeTasks nanPeriod = Some (normalize <$> nanPeriod) /\
  exists ta tb, candidate s 0 ta /\ candidate s 1 tb /\
    id ta = "A" /\ effectivelyCritical ta = true /\ period ta = NaN /\
    id tb = "B" /\ effectivelyCritical tb = true /\ period tb = Fin 5 /\
    snd (chooseNextWithBoost "hybrid" s) = Some 0%nat /\
    snd (chooseNextWithBoost "energy-hybrid" s) = Some 0%nat /\
    num_leb (period ta) (period tb) = false /\
    cmpRMS ta tb = of_Z (-1) /\
    ~ key_ok period ta.
Proof.
  cbv zeta. split; [vm_compute; reflexivity|].
  eexists; eexists.
  split; [split; [|split]; [apply (bool_decide_unpack _); vm_compute; exact I
                          | vm_compute; reflexivity | vm_compute; reflexivity]|].
  split; [split; [|split]; [apply (bool_decide_unpack _); vm_compute; exact I
                          | vm_compute; reflexivity | vm_compute; reflexivity]|].
  repeat (split; [vm_compute; reflexivity|]).
  intros [H _]. vm_compute in H. discriminate H.
Qed.

(** ** The selection of a tick *)

Section Tick.
Context {host : Host}.

Lemma first_in (cmp : nat * task -> nat * task -> num) (L : list (nat * task)) (m : nat) :
  fst <$> head (sortBy cmp L) = Some m -> exists tm, (m, tm) ∈ L.
Proof.
  destruct (head _) as [[m' tm]|] eqn:Hh; simpl; [|done].
  intros [= ->]. exists tm. apply (sortBy_elem cmp). by apply head_Some_elem_of.
Qed.

(** Whatever the discipline, the selected task is a candidate. *)
Lemma chooseNextWithBoost_candidate sched s m :
  snd (chooseNextWithBoost sched s) = Some m -> exists t, candidate s m t.
Proof.
  unfold chooseNextWithBoost. fold (candidatesOf s).
  assert (forall cmp L,
    (forall p, p ∈ L -> p ∈ deref (tasks (foldl markEffective s (candidatesOf s)))
                              (candidatesOf s)) ->
    fst <$> head (sortBy cmp L) = Some m -> exists t, candidate s m t) as Hmain.
  { intros cmp L HL (tm & Hm)%first_in. apply HL in Hm.
    apply objs_elem in Hm as (t0 & Hc & _). eauto. }
  repeat case_match; simpl; try done; apply Hmain; try done.
  intros p Hp%filter_elem. tauto.
Qed.

Lemma selectAt_unadmitted sched now s :
  unadmitted (fst (selectAt sched now s)) = unadmitted s.
Proof.
  unfold selectAt.
  pose proof (chooseNextWithBoost_machine sched
    (applyPriorityInheritance now
       (set_tasks (clearFlags <$> tasks (admitArrivals now s)) (admitArrivals now s)))) as H1.
  pose proof (applyPriorityInheritance_machine now
       (set_tasks (clearFlags <$> tasks (admitArrivals now s)) (admitArrivals now s))) as H2.
  pose proof (admitArrivals_unadmitted now s) as H3.
  unfold machine, unadmitted in *. simpl in *. simplify_eq. congruence.
Qed.

Lemma selectAt_ready sched now s :
  ready (fst (selectAt sched now s)) = ready (admitArrivals now s).
Proof.
  unfold selectAt.
  pose proof (chooseNextWithBoost_machine sched
    (applyPriorityInheritance now
       (set_tasks (clearFlags <$> tasks (admitArrivals now s)) (admitArrivals now s)))) as H1.
  pose proof (applyPriorityInheritance_machine now
       (set_tasks (clearFlags <$> tasks (admitArrivals now s)) (admitArrivals now s))) as H2.
  unfold machine in *. simpl in *. simplify_eq. congruence.
Qed.

Lemma selection_proj {B : Type} (p : task -> B) sched now s :
  flagless p ->
  p <$> tasks (fst (chooseNextWithBoost sched
                      (applyPriorityInheritance now
                         (set_tasks (clearFlags <$> tasks s) s)))) = p <$> tasks s.
Proof.
  intros [Hb He].
  rewrite chooseNextWithBoost_proj by done.
  rewrite applyPriorityInheritance_proj by done.
  simpl. rewrite <- list_fmap_compose. apply list_fmap_ext. intros ? t _.
  simpl. unfold clearFlags. by rewrite He, Hb.
Qed.

Lemma selectAt_proj {B : Type} (p : task -> B) sched now s :
  flagless p -> (forall b t, p (set_admitted b t) = p t) ->
  p <$> tasks (fst (selectAt sched now s)) = p <$> tasks s.
Proof.
  intros Hf Ha. unfold selectAt. rewrite selection_proj by done.
  by apply admitArrivals_proj.
Qed.

Lemma selectAt_candidate sched now s m :
  snd (selectAt sched now s) = Some m ->
  exists t, candidate (fst (selectAt sched now s)) m t.
Proof.
  unfold selectAt. intros H.
  set (s3 := applyPriorityInheritance now _) in *.
  destruct (chooseNextWithBoost_candidate sched s3 m H) as (t & Hr & Ht & Hc).
  destruct (proj_lookup (fun t => (remaining t, completed t)) (tasks s3)
              (tasks (fst (chooseNextWithBoost sched s3))) m t) as (t' & Ht' & Hp);
    [by apply chooseNextWithBoost_proj|done|].
  exists t'. split; [|split; [done|]].
  - pose proof (chooseNextWithBoost_machine sched s3) as Hm.
    unfold machine in Hm. simplify_eq. congruence.
  - unfold isCandidate in *. simplify_eq. congruence.
Qed.

End Tick.

(** ** The evaluation host orders strings consistently *)

Lemma string_compare_le_trans (a b c : string) :
  String.compare a b <> Gt -> String.compare b c <> Gt -> String.compare a c <> Gt.
Proof.
  revert b c. induction a as [|x a IH]; intros [|y b] [|z c]; simpl; try done.
  unfold Ascii.compare.
  destruct (N.compare_spec (Ascii.N_of_ascii x) (Ascii.N_of_ascii y)) as [E1|E1|E1];
  destruct (N.compare_spec (Ascii.N_of_ascii y) (Ascii.N_of_ascii z)) as [E2|E2|E2];
  destruct (N.compare_spec (Ascii.N_of_ascii x) (Ascii.N_of_ascii z)) as [E3|E3|E3];
    try done; try lia.
  apply IH.
Qed.

#[export] Instance evalHost_order : HostOrder evalHost.
Proof.
  split.
  - intros a b. simpl. unfold codeUnitCompare. rewrite (String.compare_antisym a b).
    destruct (String.compare b a); simpl; lia.
  - intros a b c. simpl. unfold codeUnitCompare.
    pose proof (string_compare_le_trans a b c).
    destruct (String.compare a b), (String.compare b c), (String.compare a c);
      intros; try lia; exfalso; by apply H.
Qed.

(** ** One tick *)

Section TickFacts.
Context {host : Host}.

Lemma tick_fst sched lax now s :
  fst (tick sched lax now s) =
    let s7 := foldl waitOne (dispatched sched lax now s)
                    (ready (dispatched sched lax now s)) in
    if allDone s7 then s7
    else set_timeline (timeline s7 ++ [snapshotOf now s7]) s7.
Proof. unfold tick. cbv zeta. by destruct (allDone _). Qed.

Lemma tick_snd sched lax now s :
  snd (tick sched lax now s) =
    allDone (foldl waitOne (dispatched sched lax now s)
                   (ready (dispatched sched lax now s))).
Proof. unfold tick. cbv zeta. by destruct (allDone _). Qed.

Lemma dispatched_clock sched lax now s :
  let sel := selectAt sched now s in
  let c := governor sched lax now (snd sel ≫= fun i => tasks (fst sel) !! i) in
  clock (dispatched sched lax now s) =
    (ready (fst sel), c, totalEnergy s + cpu_power c, timeline s).
Proof.
  cbv zeta. unfold dispatched. pose proof (selectAt_unadmitted sched now s) as Hu.
  destruct (selectAt sched now s) as [s4 next]. cbn [fst snd] in *.
  unfold unadmitted in Hu. injection Hu as _ _ He _ _ Ht.
  destruct next; [rewrite dispatch_clock|]; unfold clock;
    cbn [ready cpuState totalEnergy timeline set_cpu logPush]; congruence.
Qed.

Lemma tick_machine sched lax now s :
  let s' := fst (tick sched lax now s) in
  running s' = running (dispatched sched lax now s) /\
  cpuBusyTime s' = cpuBusyTime (dispatched sched lax now s) /\
  resources s' = resources (dispatched sched lax now s) /\
  log s' = log (dispatched sched lax now s) /\
  cpuState s' = cpuState (dispatched sched lax now s) /\
  ready s' = ready (dispatched sched lax now s) /\
  totalEnergy s' = totalEnergy (dispatched sched lax now s).
Proof.
  cbv zeta. rewrite tick_fst. cbv zeta.
  pose proof (waitAll_machine (dispatched sched lax now s)
                (ready (dispatched sched lax now s))) as Hm.
  pose proof (waitAll_log (dispatched sched lax now s)
                (ready (dispatched sched lax now s))) as Hl.
  unfold machine in Hm. injection Hm as H1 H2 H3 H4 H5 H6 H7.
  destruct (allDone _);
    cbn [running cpuBusyTime resources log cpuState ready totalEnergy set_timeline];
    repeat split; congruence.
Qed.

Lemma tick_clock sched lax now s :
  let sel := selectAt sched now s in
  let c := governor sched lax now (snd sel ≫= fun i => tasks (fst sel) !! i) in
  let s' := fst (tick sched lax now s) in
  ready s' = ready (fst sel) /\ cpuState s' = c /\
  totalEnergy s' = totalEnergy s + cpu_power c.
Proof.
  cbv zeta.
  pose proof (tick_machine sched lax now s) as Hm. cbv zeta in Hm.
  destruct Hm as (_ & _ & _ & _ & -> & -> & ->).
  pose proof (dispatched_clock sched lax now s) as Hc. cbv zeta in Hc.
  unfold clock in Hc. injection Hc as -> -> -> _. done.
Qed.

(** The snapshot is appended only when the loop does not break. *)
Lemma tick_timeline sched lax now s :
  timeline (fst (tick sched lax now s)) =
    if snd (tick sched lax now s) then timeline s
    else timeline s ++
           [snapshotOf now (foldl waitOne (dispatched sched lax now s)
                                  (ready (dispatched sched lax now s)))].
Proof.
  rewrite tick_fst, tick_snd. cbv zeta.
  pose proof (dispatched_clock sched lax now s) as Hc. cbv zeta in Hc.
  pose proof (waitAll_machine (dispatched sched lax now s)
                (ready (dispatched sched lax now s))) as Hm.
  unfold clock in Hc. injection Hc as _ _ _ Ht.
  unfold machine in Hm. injection Hm as _ _ _ _ _ _ Ht'.
  destruct (allDone _); cbn [timeline set_timeline]; congruence.
Qed.

(** C6. Under energy-hybrid the CPU state of a tick is LOW when no task
    is selected; otherwise it is LOW exactly when the laxity of the
    selected task, abs_deadline - (currentTime + remaining) with the
    remaining work the task has when it is selected, each operation
    rounded as binary64 rounds it, exceeds the threshold, and HIGH if
    not. Under every other discipline it is HIGH. The power of that
    state is what the tick adds to the energy. *)
Theorem cpu_state_of_tick (scheduler : string) (laxityThreshold : num)
    (currentTime : Z) (s : state) :
  let sel := selectAt scheduler currentTime s in
  let s' := fst (tick scheduler laxityThreshold currentTime s) in
  (scheduler <> "energy-hybrid" -> cpuState s' = HIGH) /\
  (scheduler = "energy-hybrid" -> snd sel = None -> cpuState s' = LOW) /\
  (scheduler = "energy-hybrid" ->
     forall m, snd sel = Some m ->
       exists tm, tasks (fst sel) !! m = Some tm /\
         let laxity :=
           sub64 (abs_deadline tm) (add64 (of_Z currentTime) (remaining tm)) in
         cpuState s' = if num_gtb laxity laxityThreshold then LOW else HIGH) /\
  totalEnergy s' = totalEnergy s + cpu_power (cpuState s').
Proof.
  cbv zeta.
  pose proof (tick_clock scheduler laxityThreshold currentTime s) as Hc.
  cbv zeta in Hc. destruct Hc as (_ & Hc & He).
  rewrite He, Hc. clear He Hc. repeat split.
  - intros Hs%String.eqb_neq. unfold governor. by rewrite Hs.
  - intros -> Hn. by rewrite Hn.
  - intros -> m Hm.
    destruct (selectAt_candidate "energy-hybrid" currentTime s m Hm) as (tm & _ & Ht & _).
    exists tm. split; [done|]. rewrite Hm. cbn [mbind option_bind]. rewrite Ht. done.
Qed.

End TickFacts.

(** ** Admission and the wait counters *)

Lemma admitAll_spec (now : Z) (l : list nat) (s : state) :
  NoDup l ->
  ready (foldl (admitOne now) s l) = ready s ++ List.filter (arrivesAt now s) l /\
  forall j, tasks (foldl (admitOne now) s l) !! j =
    (if decide (j ∈ l) then admitTask now else fun t => t) <$> tasks s !! j.
Proof.
  revert s. induction l as [|x l IH]; intros s Hnd.
  - simpl. rewrite app_nil_r. split; [done|]. intros j. by destruct (tasks s !! j).
  - apply NoDup_cons in Hnd as [Hx Hnd]. cbn [foldl].
    destruct (IH (admitOne now s x) Hnd) as [IHr IHt]. clear IH.
    assert (forall i, i <> x -> tasks (admitOne now s x) !! i = tasks s !! i) as Hother.
    { intros i Hi. unfold admitOne. repeat case_match; try done.
      simpl. by apply list_lookup_alter_ne. }
    assert (List.filter (arrivesAt now (admitOne now s x)) l
            = List.filter (arrivesAt now s) l) as Hfilter.
    { apply filter_ext_in. intros i Hi%list_elem_of_In. unfold arrivesAt.
      rewrite Hother; [done|]. intros ->. done. }
    split.
    + rewrite IHr, Hfilter. cbn [List.filter]. unfold arrivesAt at 2, admitOne.
      destruct (tasks s !! x) as [t|] eqn:Ht; [|done].
      unfold arrives. destruct (negb (admitted t) && num_leb (arrival t) (of_Z now));
        simpl; [by rewrite <- app_assoc | done].
    + intros j. rewrite IHt. destruct (decide (j = x)) as [->|Hj].
      * rewrite (decide_False (P := x ∈ l)) by done.
        rewrite (decide_True (P := x ∈ x :: l)) by apply list_elem_of_here.
        unfold admitOne, admitTask, arrives.
        destruct (tasks s !! x) as [t|] eqn:Ht; [|by rewrite Ht].
        destruct (negb (admitted t) && num_leb (arrival t) (of_Z now)) eqn:Ha.
        -- simpl. rewrite list_lookup_alter_eq, Ht. simpl. by rewrite Ha.
        -- rewrite Ht. simpl. by rewrite Ha.
      * rewrite Hother by done. destruct (decide (j ∈ l)) as [Hl|Hl].
        -- rewrite (decide_True (P := j ∈ x :: l)) by (by apply list_elem_of_further). done.
        -- rewrite (decide_False (P := j ∈ x :: l)); [done|].
           intros [->|H]%elem_of_cons; done.
Qed.

Lemma admitArrivals_ready now s :
  ready (admitArrivals now s) =
    ready s ++ List.filter (arrivesAt now s) (seq 0 (length (tasks s))).
Proof. apply admitAll_spec, NoDup_seq. Qed.

Lemma admitArrivals_lookup now s j :
  tasks (admitArrivals now s) !! j = admitTask now <$> tasks s !! j.
Proof.
  destruct (admitAll_spec now (seq 0 (length (tasks s))) s (NoDup_seq _ _)) as [_ H].
  unfold admitArrivals. rewrite H. destruct (tasks s !! j) as [t|] eqn:Ht; [|done].
  apply lookup_lt_Some in Ht. rewrite decide_True; [done|].
  apply elem_of_seq. lia.
Qed.

Lemma admitTask_admitted now t : admitted t = true -> admitTask now t = t.
Proof. intros H. unfold admitTask, arrives. by rewrite H. Qed.

Lemma admitTask_arrives now t : arrives now t = true -> admitted (admitTask now t) = true.
Proof. intros H. unfold admitTask. by rewrite H. Qed.

Lemma admitTask_completed now t : completed (admitTask now t) = completed t.
Proof. unfold admitTask. by destruct (arrives now t). Qed.

Lemma admitTask_mono now t : admitted t = true -> admitted (admitTask now t) = true.
Proof. intros H. by rewrite admitTask_admitted. Qed.

Lemma admitArrivals_wf now s : wf s -> wf (admitArrivals now s).
Proof.
  intros (Hnd & Hr & Hc). rewrite Forall_forall in Hr. rewrite Forall_forall in Hc.
  unfold wf. rewrite admitArrivals_ready. split; [|split].
  - apply NoDup_app. split; [done|]. split.
    + intros i Hi Hnew%filter_elem. destruct Hnew as [_ Ha].
      specialize (Hr i Hi). unfold arrivesAt, arrives in Ha.
      destruct (tasks s !! i) as [t|]; [|done]. simpl in Hr. injection Hr as Hr.
      rewrite Hr in Ha. done.
    + apply NoDup_ListNoDup, List.NoDup_filter, NoDup_ListNoDup, NoDup_seq.
  - apply Forall_forall. intros i [Hi|Hi]%elem_of_app; rewrite admitArrivals_lookup.
    + specialize (Hr i Hi). destruct (tasks s !! i) as [t|]; [|done].
      simpl in *. injection Hr as Hr. by rewrite admitTask_mono.
    + apply filter_elem in Hi as [_ Ha]. unfold arrivesAt in Ha.
      destruct (tasks s !! i) as [t|]; [|done]. simpl. by rewrite admitTask_arrives.
  - apply Forall_forall. intros t' (j & Hj)%list_elem_of_lookup.
    rewrite admitArrivals_lookup in Hj.
    destruct (tasks s !! j) as [t|] eqn:Ht; simplify_eq/=.
    rewrite admitTask_completed. intros Hct. apply admitTask_mono. apply Hc; [|done].
    apply list_elem_of_lookup. eauto.
Qed.

Lemma waitAll_lookup (s : state) (l : list nat) (j : nat) :
  NoDup l ->
  tasks (foldl waitOne s l) !! j =
    (if decide (j ∈ l) then bump (running s) j else fun t => t) <$> tasks s !! j.
Proof.
  revert s. induction l as [|x l IH]; intros s Hnd.
  - simpl. by destruct (tasks s !! j).
  - apply NoDup_cons in Hnd as [Hx Hnd]. cbn [foldl]. rewrite IH by done.
    assert (running (waitOne s x) = running s) as ->.
    { pose proof (waitOne_machine s x) as H. unfold machine in H. by simplify_eq. }
    destruct (decide (j = x)) as [->|Hj].
    + rewrite (decide_False (P := x ∈ l)) by done.
      rewrite (decide_True (P := x ∈ x :: l)) by apply list_elem_of_here.
      unfold waitOne, bump. destruct (tasks s !! x) as [t|] eqn:Ht; [|by rewrite Ht].
      destruct (negb (completed t) && negb (bool_decide (running s = Some x))) eqn:Hb.
      * simpl. rewrite list_lookup_alter_eq, Ht. simpl. by rewrite Hb.
      * rewrite Ht. simpl. by rewrite Hb.
    + assert (tasks (waitOne s x) !! j = tasks s !! j) as ->.
      { unfold waitOne. repeat case_match; try done; simpl;
          apply list_lookup_alter_ne; congruence. }
      destruct (decide (j ∈ l)) as [Hl|Hl].
      * rewrite (decide_True (P := j ∈ x :: l)) by (by apply list_elem_of_further). done.
      * rewrite (decide_False (P := j ∈ x :: l)); [done|].
        intros [->|H]%elem_of_cons; done.
Qed.

(** ** Dispatching the selected task *)

Section Dispatch.
Context {host : Host}.

Lemma runTask_static now w r :
  id (runTask now w r) = id r /\
  holds_resource (runTask now w r) = holds_resource r /\
  needs_resource (runTask now w r) = needs_resource r.
Proof. unfold runTask. by destruct (started r). Qed.

Opaque runTask.

Lemma execute_lookup now i s r :
  tasks s !! i = Some r ->
  tasks (execute now i s) !! i = Some (ranTask now (cpu_speed (cpuState s)) r) /\
  running (execute now i s) = running s /\
  cpuBusyTime (execute now i s) = cpuBusyTime s + 1.
Proof.
  intros Hr. unfold execute, ranTask. simpl.
  rewrite list_lookup_alter_eq, Hr. simpl.
  destruct (num_leb _ epsilon); simpl.
  - rewrite clear_needed_tasks, release_held_tasks. simpl.
    rewrite list_lookup_alter_eq, list_lookup_alter_eq, Hr. split; [done|].
    unfold clear_needed, release_held. repeat case_match; done.
  - rewrite list_lookup_alter_eq, Hr. done.
Qed.

Lemma release_clear now r s k :
  js_key (holds_resource r) = Some k \/ js_key (needs_resource r) = Some k ->
  resources (clear_needed r (release_held now r s)) !! k <> Some (id r).
Proof.
  intros Hk Hfinal.
  assert (forall s', js_key (needs_resource r) = Some k ->
            resources (clear_needed r s') !! k <> Some (id r)) as Hneed.
  { intros s' Hn. unfold clear_needed. rewrite Hn. case_bool_decide as Hd; simpl.
    - by rewrite lookup_delete_eq.
    - done. }
  assert (forall s', resources s' !! k <> Some (id r) ->
            resources (clear_needed r s') !! k <> Some (id r)) as Hkeep.
  { intros s' Hs'. unfold clear_needed. destruct (js_key (needs_resource r)) as [n|]; [|done].
    case_bool_decide; [|done]. simpl. destruct (decide (n = k)) as [->|Hne].
    - by rewrite lookup_delete_eq.
    - by rewrite lookup_delete_ne. }
  destruct Hk as [Hh|Hn]; [|by eapply Hneed].
  eapply Hkeep; [|done]. unfold release_held. rewrite Hh.
  case_bool_decide as Hd; simpl; [by rewrite lookup_delete_eq | done].
Qed.

Lemma execute_released now i s r k :
  tasks s !! i = Some r ->
  num_leb (remaining (runTask now (cpu_speed (cpuState s)) r)) epsilon = true ->
  js_key (holds_resource r) = Some k \/ js_key (needs_resource r) = Some k ->
  resources (execute now i s) !! k <> Some (id r).
Proof.
  intros Hr Hdone Hk. unfold execute. simpl.
  rewrite list_lookup_alter_eq, Hr. simpl. rewrite Hdone.
  destruct (runTask_static now (cpu_speed (cpuState s)) r) as (Hid & Hh & Hn).
  rewrite <- Hid. apply release_clear. by rewrite Hh, Hn.
Qed.

Lemma dispatch_blocked now i s r res :
  tasks s !! i = Some r -> js_key (needs_resource r) = Some res ->
  ownedByOther s r res = true ->
  dispatch now i s =
    set_running None
      (logPush (EvBlocked now (id r) res)
         (update i (fun t => set_wait_time (wait_time t + 1) t)
            (set_running (Some i) s))).
Proof.
  intros Hr Hn Ho. unfold dispatch. simpl. rewrite Hr, Hn.
  unfold ownedByOther in *. simpl. by rewrite Ho.
Qed.

Lemma dispatch_runs now i s r :
  tasks s !! i = Some r -> blocked s r = false ->
  exists s3, dispatch now i s = execute now i s3 /\ tasks s3 = tasks s /\
    running s3 = Some i /\ cpuState s3 = cpuState s /\
    cpuBusyTime s3 = cpuBusyTime s.
Proof.
  intros Hr Hb. unfold dispatch, blocked in *. simpl. rewrite Hr.
  destruct (js_key (needs_resource r)) as [res|].
  - unfold ownedByOther in *. simpl. rewrite Hb. simpl.
    destruct (js_key (holds_resource r)); eexists; split; done.
  - simpl. destruct (js_key (holds_resource r)); eexists; split; done.
Qed.

Lemma dispatch_lookup now i s r :
  tasks s !! i = Some r ->
  tasks (dispatch now i s) !! i =
    Some (if blocked s r then set_wait_time (wait_time r + 1) r
          else ranTask now (cpu_speed (cpuState s)) r) /\
  running (dispatch now i s) = (if blocked s r then None else Some i) /\
  cpuBusyTime (dispatch now i s) =
    (if blocked s r then cpuBusyTime s else cpuBusyTime s + 1).
Proof.
  intros Hr. destruct (blocked s r) eqn:Hb.
  - unfold blocked in Hb. destruct (js_key (needs_resource r)) as [res|] eqn:Hn; [|done].
    rewrite (dispatch_blocked now i s r res) by done. simpl.
    rewrite list_lookup_alter_eq, Hr. done.
  - destruct (dispatch_runs now i s r Hr Hb) as (s3 & -> & Ht & Hrun & Hcpu & Hbusy).
    rewrite <- Ht in Hr. destruct (execute_lookup now i s3 r Hr) as (H1 & H2 & H3).
    rewrite H1, H2, H3. rewrite Hcpu, Hrun, Hbusy. done.
Qed.

Transparent runTask.

End Dispatch.

(** ** The tasks after a tick *)

Lemma runTask_remaining now w r :
  remaining (runTask now w r) = sub64 (remaining r) w.
Proof. unfold runTask. by destruct (started r). Qed.

Lemma runTask_fields now w r :
  completed (runTask now w r) = completed r /\
  completion_time (runTask now w r) = completion_time r /\
  admitted (runTask now w r) = admitted r /\
  wait_time (runTask now w r) = wait_time r.
Proof. unfold runTask. by destruct (started r). Qed.

Lemma ranTask_remaining now w r :
  remaining (ranTask now w r) = sub64 (remaining r) w.
Proof.
  unfold ranTask. destruct (num_leb _ _); [cbn [remaining set_completed]|];
    apply runTask_remaining.
Qed.

Lemma ranTask_completed now w r :
  completed (ranTask now w r) =
    completed r || num_leb (sub64 (remaining r) w) epsilon.
Proof.
  unfold ranTask. rewrite runTask_remaining.
  destruct (runTask_fields now w r) as (Hc & _).
  destruct (num_leb _ _).
  - cbn [completed set_completed]. by rewrite orb_true_r.
  - by rewrite Hc, orb_false_r.
Qed.

Lemma ranTask_completion_time now w r :
  num_leb (sub64 (remaining r) w) epsilon = true ->
  completion_time (ranTask now w r) = Some (now + 1).
Proof. intros H. unfold ranTask. rewrite runTask_remaining, H. done. Qed.

Lemma ranTask_static now w r :
  id (ranTask now w r) = id r /\ admitted (ranTask now w r) = admitted r /\
  wait_time (ranTask now w r) = wait_time r.
Proof.
  unfold ranTask. destruct (runTask_static now w r) as (H1 & _).
  destruct (runTask_fields now w r) as (_ & _ & H2 & H3).
  destruct (num_leb _ _); [cbn [id admitted wait_time set_completed]|]; done.
Qed.

Section TickTasks.
Context {host : Host}.

Lemma selectAt_wf sched now s :
  wf s -> NoDup (ready (fst (selectAt sched now s))).
Proof.
  intros Hwf%(admitArrivals_wf now). rewrite selectAt_ready. apply Hwf.
Qed.

Lemma dispatched_lookup sched lax now s j t4 :
  let sel := selectAt sched now s in
  tasks (fst sel) !! j = Some t4 ->
  tasks (dispatched sched lax now s) !! j =
    Some (dispatchedTask s now (cpuState (dispatched sched lax now s)) (snd sel) j t4).
Proof.
  cbv zeta. intros Ht4.
  pose proof (dispatched_clock sched lax now s) as Hc. cbv zeta in Hc.
  unfold clock in Hc. injection Hc as _ Hc _ _. rewrite Hc. clear Hc.
  unfold dispatched, dispatchedTask.
  pose proof (selectAt_unadmitted sched now s) as Hu.
  destruct (selectAt sched now s) as [s4 next]. cbn [fst snd] in *.
  unfold unadmitted in Hu. injection Hu as _ _ _ _ Hres _.
  destruct next as [m|].
  - destruct (decide (m = j)) as [->|Hne].
    + rewrite bool_decide_eq_true_2 by done.
      set (s5 := set_cpu _ _ s4).
      destruct (dispatch_lookup now j s5 t4 Ht4) as (H1 & _). rewrite H1.
      unfold blocked, ownedByOther. subst s5. cbn [resources cpuState set_cpu].
      rewrite Hres. done.
    + rewrite bool_decide_eq_false_2 by congruence.
      rewrite dispatch_other by done. done.
  - rewrite bool_decide_eq_false_2 by done. done.
Qed.

Lemma tick_tasks sched lax now s :
  tasks (fst (tick sched lax now s)) =
    tasks (foldl waitOne (dispatched sched lax now s)
                 (ready (dispatched sched lax now s))).
Proof. rewrite tick_fst. cbv zeta. by destruct (allDone _). Qed.

Lemma tick_lookup sched lax now s j t4 :
  let sel := selectAt sched now s in
  let s' := fst (tick sched lax now s) in
  wf s -> tasks (fst sel) !! j = Some t4 ->
  tasks s' !! j =
    Some ((if decide (j ∈ ready (fst sel)) then bump (running s') j else fun t => t)
            (dispatchedTask s now (cpuState s') (snd sel) j t4)).
Proof.
  cbv zeta. intros Hwf Ht4.
  pose proof (tick_machine sched lax now s) as Hm. cbv zeta in Hm.
  destruct Hm as (Hrun & _ & _ & _ & Hcpu & _).
  rewrite Hrun, Hcpu, tick_tasks.
  pose proof (dispatched_clock sched lax now s) as Hc. cbv zeta in Hc.
  unfold clock in Hc. injection Hc as Hready _ _ _.
  rewrite waitAll_lookup by (rewrite Hready; by apply selectAt_wf).
  rewrite (dispatched_lookup sched lax now s j t4 Ht4).
  rewrite Hready. by destruct (decide _).
Qed.

End TickTasks.

(** ** Well-formedness is kept by a tick *)

Lemma wf_proj (s s' : state) :
  ready s' = ready s ->
  (fun t => (admitted t, completed t)) <$> tasks s' =
    (fun t => (admitted t, completed t)) <$> tasks s ->
  wf s -> wf s'.
Proof.
  intros Hr Hp (Hnd & Ha & Hc). unfold wf. rewrite Hr. split; [done|]. split.
  - rewrite Forall_forall in Ha. apply Forall_forall. intros i Hi.
    specialize (Ha i Hi). destruct (tasks s !! i) as [t|] eqn:Ht; [|done].
    destruct (proj_lookup _ _ _ i t Hp Ht) as (t' & Ht' & Heq).
    rewrite Ht'. simpl in *. congruence.
  - rewrite Forall_forall in Hc. apply Forall_forall.
    intros t' (j & Hj)%list_elem_of_lookup.
    destruct (proj_lookup _ _ _ j t' (eq_sym Hp) Hj) as (t & Ht & Heq).
    injection Heq as Ha' Hc'. rewrite <- Ha', <- Hc'. apply Hc.
    apply list_elem_of_lookup. eauto.
Qed.

Lemma bump_fields run j t :
  admitted (bump run j t) = admitted t /\ completed (bump run j t) = completed t /\
  completion_time (bump run j t) = completion_time t /\
  remaining (bump run j t) = remaining t.
Proof. unfold bump. by destruct (_ && _). Qed.

Section TickWf.
Context {host : Host}.

Lemma selectAt_wf_state sched now s : wf s -> wf (fst (selectAt sched now s)).
Proof.
  intros Hwf%(admitArrivals_wf now). revert Hwf. apply wf_proj.
  - apply selectAt_ready.
  - unfold selectAt. by apply selection_proj.
Qed.

Lemma dispatch_length now i s : length (tasks (dispatch now i s)) = length (tasks s).
Proof.
  destruct (tasks s !! i) as [r|] eqn:Hr.
  - destruct (blocked s r) eqn:Hb.
    + unfold blocked in Hb. destruct (js_key (needs_resource r)) as [res|] eqn:Hn; [|done].
      rewrite (dispatch_blocked now i s r res) by done. simpl. apply length_alter.
    + destruct (dispatch_runs now i s r Hr Hb) as (s3 & -> & <- & _).
      unfold execute. repeat case_match;
        rewrite ?clear_needed_tasks, ?release_held_tasks; simpl;
        by rewrite ?length_alter.
  - unfold dispatch. simpl. by rewrite Hr.
Qed.

Lemma tick_length sched lax now s :
  length (tasks (fst (tick sched lax now s))) = length (tasks s).
Proof.
  rewrite tick_tasks.
  rewrite (proj_length (fun _ => tt) _ _
             (waitAll_proj (fun _ => tt) _ _ (fun _ _ => eq_refl))).
  unfold dispatched.
  pose proof (selectAt_proj (fun _ => tt) sched now s) as Hp.
  destruct (selectAt sched now s) as [s4 next]. cbn [fst] in Hp.
  apply proj_length in Hp; [|done|done].
  destruct next; [rewrite dispatch_length|]; done.
Qed.

Lemma tick_lookup_inv sched lax now s j t' :
  tasks (fst (tick sched lax now s)) !! j = Some t' ->
  exists t4, tasks (fst (selectAt sched now s)) !! j = Some t4.
Proof.
  intros Hj%lookup_lt_Some. rewrite tick_length in Hj.
  rewrite <- (proj_length (fun _ => tt) _ _
                (selectAt_proj (fun _ => tt) sched now s
                   (conj (fun _ _ => eq_refl) (fun _ _ => eq_refl))
                   (fun _ _ => eq_refl))) in Hj.
  by apply lookup_lt_is_Some_2.
Qed.

Lemma dispatchedTask_fields s now c next j t :
  admitted (dispatchedTask s now c next j t) = admitted t /\
  (completed (dispatchedTask s now c next j t) = true ->
     completed t = true \/ next = Some j).
Proof.
  unfold dispatchedTask. case_bool_decide; [|by auto].
  destruct (blocked s t); [by auto|].
  destruct (ranTask_static now (cpu_speed c) t) as (_ & Ha & _). auto.
Qed.

Lemma tick_wf sched lax now s : wf s -> wf (fst (tick sched lax now s)).
Proof.
  intros Hwf. pose proof (selectAt_wf_state sched now s Hwf) as (Hnd & Ha & Hc).
  pose proof (tick_clock sched lax now s) as Hr. cbv zeta in Hr.
  destruct Hr as (Hr & _).
  rewrite Forall_forall in Ha. rewrite Forall_forall in Hc.
  unfold wf. rewrite Hr. split; [done|]. split.
  - apply Forall_forall. intros i Hi. specialize (Ha i Hi).
    destruct (tasks (fst (selectAt sched now s)) !! i) as [t4|] eqn:Ht4; [|done].
    rewrite (tick_lookup sched lax now s i t4 Hwf Ht4).
    cbn [fmap option_fmap option_map]. rewrite decide_True by done.
    destruct (bump_fields (running (fst (tick sched lax now s))) i
      (dispatchedTask s now (cpuState (fst (tick sched lax now s)))
         (snd (selectAt sched now s)) i t4)) as (-> & _).
    destruct (dispatchedTask_fields s now (cpuState (fst (tick sched lax now s)))
         (snd (selectAt sched now s)) i t4) as (-> & _).
    cbn [fmap option_fmap option_map] in Ha. done.
  - apply Forall_forall. intros t' (j & Hj)%list_elem_of_lookup.
    destruct (tick_lookup_inv sched lax now s j t' Hj) as (t4 & Ht4).
    rewrite (tick_lookup sched lax now s j t4 Hwf Ht4) in Hj.
    apply (inj Some) in Hj. subst t'.
    set (d := dispatchedTask _ _ _ _ _ _).
    assert (admitted d = admitted t4 /\
            (completed d = true -> completed t4 = true \/
               snd (selectAt sched now s) = Some j)) as (Had & Hcd)
      by apply dispatchedTask_fields.
    assert (forall f : task -> task,
              (f = bump (running (fst (tick sched lax now s))) j \/ f = (fun t => t)) ->
              completed (f d) = true -> admitted (f d) = true) as Hf.
    { intros f Hf Hcf.
      assert (admitted (f d) = admitted d /\ completed (f d) = completed d) as (-> & Hcfd).
      { destruct Hf as [-> | ->]; [|done].
        destruct (bump_fields (running (fst (tick sched lax now s))) j d) as (? & ? & _).
        done. }
      rewrite Hcfd in Hcf. rewrite Had. destruct (Hcd Hcf) as [Hc4|Hsel].
      - apply Hc; [|done]. apply list_elem_of_lookup. eauto.
      - destruct (selectAt_candidate sched now s j Hsel) as (t & Hi & Ht & _).
        specialize (Ha j Hi). rewrite Ht4 in Ha.
        cbn [fmap option_fmap option_map] in Ha. congruence. }
    destruct (decide _).
    + apply (Hf (bump (running (fst (tick sched lax now s))) j)). by left.
    + apply (Hf (fun t => t)). by right.
Qed.

End TickWf.

(** ** A blocked selection *)

Section Blocked.
Context {host : Host}.

Lemma dispatched_some sched lax now s m :
  snd (selectAt sched now s) = Some m ->
  exists c e, dispatched sched lax now s =
    dispatch now m (set_cpu c e (fst (selectAt sched now s))).
Proof.
  unfold dispatched. destruct (selectAt sched now s) as [s4 next]. cbn [fst snd].
  intros ->. eauto.
Qed.


End Blocked.


(** ** Completion *)

Section Completion.
Context {host : Host}.

Lemma dispatched_resources_completed sched lax now s j t4 k :
  let sel := selectAt sched now s in
  let c := cpuState (dispatched sched lax now s) in
  snd sel = Some j -> tasks (fst sel) !! j = Some t4 ->
  blocked s t4 = false ->
  num_leb (sub64 (remaining t4) (cpu_speed c)) epsilon = true ->
  js_key (holds_resource t4) = Some k \/ js_key (needs_resource t4) = Some k ->
  resources (dispatched sched lax now s) !! k <> Some (id t4).
Proof.
  cbv zeta. intros Hsel Ht4 Hb Hdone Hk.
  pose proof (dispatched_clock sched lax now s) as Hc. cbv zeta in Hc.
  unfold clock in Hc. injection Hc as _ Hc _ _. rewrite Hc in Hdone. clear Hc.
  pose proof (selectAt_unadmitted sched now s) as Hu.
  unfold unadmitted in Hu. injection Hu as _ _ _ _ Hres _.
  unfold dispatched. destruct (selectAt sched now s) as [s4 next]. cbn [fst snd] in *.
  subst next. set (s5 := set_cpu _ _ s4) in *.
  assert (blocked s5 t4 = false) as Hb5.
  { unfold blocked, ownedByOther in *. subst s5. cbn [resources set_cpu].
    by rewrite Hres. }
  destruct (dispatch_runs now j s5 t4 Ht4 Hb5) as (s3 & -> & Ht & _ & Hcpu & _).
  apply execute_released; [by rewrite Ht | | done].
  rewrite runTask_remaining, Hcpu. subst s5. cbn [cpuState set_cpu]. done.
Qed.

End Completion.

(** ** The loop *)

Lemma allDone_false (s : state) (j : nat) (t : task) :
  tasks s !! j = Some t -> completed t = false -> allDone s = false.
Proof.
  intros Hj Hc. unfold allDone.
  assert (t ∈ tasks s) as Hin by (apply list_elem_of_lookup; eauto).
  destruct (admitted t) eqn:Ha.
  - assert (t ∈ List.filter (fun t => negb (completed t) && admitted t) (tasks s)) as H
      by (apply filter_elem; by rewrite Hc, Ha).
    destruct (List.filter _ (tasks s)); [by apply elem_of_nil in H | done].
  - assert (t ∈ List.filter (fun t => negb (admitted t)) (tasks s)) as H
      by (apply filter_elem; by rewrite Ha).
    destruct (List.filter (fun t => negb (admitted t)) (tasks s));
      [by apply elem_of_nil in H | by rewrite andb_false_r].
Qed.

Section Loop.
Context {host : Host}.

Lemma tick_stop sched lax now s :
  snd (tick sched lax now s) = allDone (fst (tick sched lax now s)).
Proof.
  rewrite tick_fst, tick_snd. cbv zeta. destruct (allDone _) eqn:H; [done|].
  unfold allDone in *. done.
Qed.

Lemma loop_length sched lax n now s :
  length (tasks (loop sched lax n now s)) = length (tasks s).
Proof.
  revert now s. induction n as [|n IH]; intros now s; cbn [loop]; [done|].
  pose proof (tick_length sched lax now s) as Hl.
  destruct (tick sched lax now s) as [s' stop]. cbn [fst] in Hl.
  destruct stop; [done|]. by rewrite IH.
Qed.

(** A property that every tick keeps and that keeps the loop going. *)
Lemma loop_invariant (I : state -> Prop) sched lax :
  (forall now s, I s ->
     I (fst (tick sched lax now s)) /\ snd (tick sched lax now s) = false) ->
  forall n now s, I s ->
    I (loop sched lax n now s) /\
    loop sched lax (S n) now s =
      fst (tick sched lax (now + Z.of_nat n) (loop sched lax n now s)) /\
    length (timeline (loop sched lax n now s)) = (length (timeline s) + n)%nat.
Proof.
  intros Hstep. induction n as [|n IH]; intros now s Hs.
  - split; [done|]. split; [|cbn [loop]; lia]. cbn [loop Z.of_nat]. rewrite Z.add_0_r.
    destruct (Hstep now s Hs) as [_ Hgo].
    destruct (tick sched lax now s) as [s' stop]. cbn [fst snd] in *. by subst.
  - destruct (Hstep now s Hs) as [Hs' Hgo].
    pose proof (tick_timeline sched lax now s) as Htl. rewrite Hgo in Htl.
    change (loop sched lax (S (S n)) now s) with
      (let '(s', stop) := tick sched lax now s in
       if stop then s' else loop sched lax (S n) (now + 1) s').
    change (loop sched lax (S n) now s) with
      (let '(s', stop) := tick sched lax now s in
       if stop then s' else loop sched lax n (now + 1) s').
    destruct (tick sched lax now s) as [s' stop]. cbn [fst snd] in Hs', Hgo, Htl.
    subst stop.
    destruct (IH (now + 1) s' Hs') as (H1 & H2 & H3).
    split; [done|]. split.
    + rewrite H2. f_equal. f_equal. lia.
    + rewrite H3, Htl, length_app. cbn [length]. lia.
Qed.

Lemma tick_keeps_unselected sched lax now s j t :
  tasks s !! j = Some t ->
  snd (selectAt sched now s) <> Some j ->
  exists t', tasks (fst (tick sched lax now s)) !! j = Some t' /\ workOf t' = workOf t.
Proof.
  intros Ht Hsel.
  destruct (proj_lookup workOf (tasks s) (tasks (fst (selectAt sched now s))) j t)
    as (t4 & Ht4 & Hp4); [by apply selectAt_proj | done |].
  assert (tasks (dispatched sched lax now s) !! j = Some t4) as Hd.
  { unfold dispatched. destruct (selectAt sched now s) as [s4 next]. cbn [fst snd] in *.
    destruct next as [m|]; [|done]. rewrite dispatch_other by congruence. done. }
  destruct (proj_lookup workOf (tasks (dispatched sched lax now s))
              (tasks (fst (tick sched lax now s))) j t4) as (t' & Ht' & Hp');
    [rewrite tick_tasks; by apply waitAll_proj | done |].
  exists t'. split; [done|]. congruence.
Qed.

(** A task without work left is not selected, keeps its record, and
    keeps the loop from breaking. *)
Lemma tick_keeps_idle_task sched lax now s j t :
  tasks s !! j = Some t -> isCandidate t = false -> completed t = false ->
  snd (selectAt sched now s) <> Some j /\
  snd (tick sched lax now s) = false /\
  exists t', tasks (fst (tick sched lax now s)) !! j = Some t' /\ workOf t' = workOf t.
Proof.
  intros Ht Hc Hnc.
  assert (snd (selectAt sched now s) <> Some j) as Hsel.
  { intros Hsel.
    destruct (selectAt_candidate sched now s j Hsel) as (t4 & _ & Ht4 & Hc4).
    assert (workOf t4 = workOf t) as Hp
      by (eapply (proj_lookup_eq workOf); [by apply selectAt_proj | done | done]).
    injection Hp as _ _ Hr Hcp _ _. unfold isCandidate in *. congruence. }
  destruct (tick_keeps_unselected sched lax now s j t Ht Hsel) as (t' & Ht' & Hp).
  split; [done|]. split; [|eauto].
  rewrite tick_stop. apply (allDone_false _ j t'); [done|].
  injection Hp as _ _ _ Hcp _ _. congruence.
Qed.


(** A completed task is not selected and keeps its record. *)
Lemma tick_keeps_completed sched lax now s j t :
  tasks s !! j = Some t -> completed t = true ->
  exists t', tasks (fst (tick sched lax now s)) !! j = Some t' /\ workOf t' = workOf t.
Proof.
  intros Ht Hc. apply tick_keeps_unselected; [done|]. intros Hsel.
  destruct (selectAt_candidate sched now s j Hsel) as (t4 & _ & Ht4 & Hc4).
  assert (workOf t4 = workOf t) as Hp
    by (eapply (proj_lookup_eq workOf); [by apply selectAt_proj | done | done]).
  injection Hp as _ _ _ Hcp _ _. unfold isCandidate in Hc4.
  rewrite Hcp, Hc in Hc4. by rewrite andb_false_r in Hc4.
Qed.

Lemma loop_keeps_completed sched lax n now s j t :
  tasks s !! j = Some t -> completed t = true ->
  exists t', tasks (loop sched lax n now s) !! j = Some t' /\ workOf t' = workOf t.
Proof.
  revert now s t. induction n as [|n IH]; intros now s t Ht Hc; cbn [loop]; [eauto|].
  destruct (tick_keeps_completed sched lax now s j t Ht Hc) as (t1 & Ht1 & Hw1).
  destruct (tick sched lax now s) as [s1 stop]. cbn [fst] in Ht1.
  destruct stop; [eauto|].
  assert (completed t1 = true) as Hc1 by (injection Hw1 as _ _ _ -> _ _; done).
  destruct (IH (now + 1) s1 t1 Ht1 Hc1) as (t' & Ht' & Hw').
  exists t'. split; [done|]. congruence.
Qed.

(** Every state of a run is well-formed. *)
Lemma init_wf (ds : list descriptor) : wf (init (normalize <$> ds)).
Proof.
  unfold wf, init. cbn [ready tasks]. split; [apply NoDup_nil_2|].
  split; [apply Forall_nil_2|]. apply Forall_forall.
  intros t (d & -> & _)%list_elem_of_fmap. done.
Qed.

Lemma loop_wf sched lax n now s : wf s -> wf (loop sched lax n now s).
Proof.
  revert now s. induction n as [|n IH]; intros now s Hwf; cbn [loop]; [done|].
  pose proof (tick_wf sched lax now s Hwf) as Hwf'.
  destruct (tick sched lax now s) as [s' stop]. cbn [fst] in Hwf'.
  destruct stop; [done|]. by apply IH.
Qed.

Lemma simulate_wf ds sched totalTime lax : wf (simulate ds sched totalTime lax).
Proof. apply loop_wf, init_wf. Qed.

(** C5. A task is marked completed at one tick only: the tick at which
    it is selected, is not blocked (what resources gives under the name
    it needs is falsy or its own id), and is left, after the decrement
    by the speed of that tick as binary64 rounds it, with
    remaining <= epsilon (0.0001). At that tick completion_time becomes
    currentTime + 1 and no entry of the table under its holds_resource
    or needs_resource names its id any more. From then on the task is
    never selected, never admitted again, and its completed flag,
    completion_time and remaining stay as they are, at the next tick and
    however long the loop goes on. *)
Theorem completion_happens_once (scheduler : string) (laxityThreshold : num)
    (currentTime : Z) (s : state) (j : nat) (t : task) :
  let sel := selectAt scheduler currentTime s in
  let s' := fst (tick scheduler laxityThreshold currentTime s) in
  let ran := bool_decide (snd sel = Some j) && negb (blocked s t) in
  let left := sub64 (remaining t) (cpu_speed (cpuState s')) in
  wf s -> tasks s !! j = Some t ->
  exists t', tasks s' !! j = Some t' /\
    (completed t = true ->
       snd sel <> Some j /\
       (exists new, ready s' = ready s ++ new /\ j ∉ new) /\
       completed t' = true /\ completion_time t' = completion_time t /\
       remaining t' = remaining t) /\
    (completed t = false ->
       completed t' = ran && num_leb left epsilon /\
       (completed t' = true ->
          completion_time t' = Some (currentTime + 1) /\
          remaining t' = left /\
          forall k, js_key (holds_resource t) = Some k \/
                    js_key (needs_resource t) = Some k ->
                    resources s' !! k <> Some (id t))) /\
    (completed t = true ->
       forall n later, exists t'',
         tasks (loop scheduler laxityThreshold n later s) !! j = Some t'' /\
         completed t'' = true /\ completion_time t'' = completion_time t /\
         remaining t'' = remaining t).
Proof.
  cbv zeta. intros Hwf Ht.
  set (p := fun t => (id t, remaining t, completed t, completion_time t,
                      holds_resource t, needs_resource t)).
  destruct (proj_lookup p (tasks s) (tasks (fst (selectAt scheduler currentTime s))) j t)
    as (t4 & Ht4 & Hp); [by apply selectAt_proj | done |].
  injection Hp as Hid Hrem Hcomp Hct Hh Hn.
  assert (blocked s t4 = blocked s t) as Hbl
    by (unfold blocked, ownedByOther; by rewrite Hn, Hid).
  rewrite (tick_lookup scheduler laxityThreshold currentTime s j t4 Hwf Ht4).
  cbv zeta.
  set (run := running (fst (tick scheduler laxityThreshold currentTime s))).
  set (c := cpuState (fst (tick scheduler laxityThreshold currentTime s))).
  set (d := dispatchedTask s currentTime c (snd (selectAt scheduler currentTime s)) j t4).
  set (f := if decide (j ∈ ready (fst (selectAt scheduler currentTime s)))
            then bump run j else fun t => t).
  assert (completed (f d) = completed d /\ completion_time (f d) = completion_time d /\
          remaining (f d) = remaining d) as (Hfc & Hfct & Hfr).
  { unfold f. destruct (decide _); [|done].
    destruct (bump_fields run j d) as (_ & ? & ? & ?). done. }
  exists (f d). split; [done|]. rewrite Hfc, Hfct, Hfr. split; [|split].
  - intros Hdone.
    assert (snd (selectAt scheduler currentTime s) <> Some j) as Hnot.
    { intros Hsel.
      destruct (selectAt_candidate scheduler currentTime s j Hsel) as (t0 & _ & Ht0 & Hc).
      rewrite Ht4 in Ht0. injection Ht0 as <-. unfold isCandidate in Hc.
      rewrite Hcomp, Hdone in Hc. by rewrite andb_false_r in Hc. }
    split; [done|]. split.
    + exists (List.filter (arrivesAt currentTime s) (seq 0 (length (tasks s)))).
      split.
      * pose proof (tick_clock scheduler laxityThreshold currentTime s) as Hc.
        cbv zeta in Hc. destruct Hc as (-> & _).
        by rewrite selectAt_ready, admitArrivals_ready.
      * intros (_ & Ha)%filter_elem. unfold arrivesAt, arrives in Ha. rewrite Ht in Ha.
        destruct Hwf as (_ & _ & Hc). rewrite Forall_forall in Hc.
        rewrite (Hc t) in Ha; [done | | done]. apply list_elem_of_lookup. eauto.
    + unfold d, dispatchedTask. rewrite bool_decide_eq_false_2 by done.
      by rewrite Hcomp, Hct, Hrem.
  - intros Hnot. unfold d, dispatchedTask.
    destruct (bool_decide (snd (selectAt scheduler currentTime s) = Some j)) eqn:Hsel.
    + apply bool_decide_eq_true_1 in Hsel. rewrite Hbl.
      destruct (blocked s t) eqn:Hb; cbn [negb andb].
      * cbn [completed set_wait_time]. rewrite Hcomp, Hnot. done.
      * rewrite ranTask_completed, ranTask_remaining, Hcomp, Hnot, Hrem.
        cbn [orb]. split; [done|]. intros Hle. split; [|split; [done|]].
        -- apply ranTask_completion_time. by rewrite Hrem.
        -- intros k Hk.
           pose proof (tick_machine scheduler laxityThreshold currentTime s) as Hm.
           cbv zeta in Hm. destruct Hm as (_ & _ & Hres & _ & Hcpu & _).
           rewrite Hres, <- Hid.
           apply (dispatched_resources_completed scheduler laxityThreshold
                    currentTime s j t4 k Hsel Ht4).
           ++ by rewrite Hbl.
           ++ rewrite <- Hcpu, Hrem. done.
           ++ by rewrite Hh, Hn.
    + cbn [andb]. rewrite Hcomp, Hnot. done.
  - intros Hdone n later.
    destruct (loop_keeps_completed scheduler laxityThreshold n later s j t Ht Hdone)
      as (t'' & Ht'' & Hw).
    exists t''. split; [done|]. injection Hw as _ _ -> -> -> _. done.
Qed.

End Loop.

(** ** Tasks without work, the metrics and the normaliser *)

Section Run.
Context {host : Host}.

Lemma normalize_lookup (ds : list descriptor) (j : nat) (d : descriptor) :
  ds !! j = Some d -> tasks (init (normalize <$> ds)) !! j = Some (normalize d).
Proof. intros H. simpl. by rewrite list_lookup_fmap, H. Qed.

(** C10. A task whose normalised execution is 0 stays as it was loaded
    for the whole run. Before every tick k it has no work left, is not a
    candidate, is not completed and has never run; tick k does not select
    it and does not break the loop. So the run takes totalTime + 1 ticks,
    each with its snapshot, and the task is in the deadline-miss list of
    the result. *)
Theorem zero_execution_task_never_runs (ds : list descriptor) (scheduler : string)
    (totalTime : Z) (laxityThreshold : num) (j : nat) (d : descriptor) :
  ds !! j = Some d ->
  num_eqv (exec (normalize d)) (of_Z 0) ->
  (forall k : nat,
     let s := loop scheduler laxityThreshold k 0 (init (normalize <$> ds)) in
     (exists t, tasks s !! j = Some t /\ remaining t = exec (normalize d) /\
        isCandidate t = false /\ completed t = false /\ history t = []) /\
     snd (selectAt scheduler (Z.of_nat k) s) <> Some j /\
     snd (tick scheduler laxityThreshold (Z.of_nat k) s) = false) /\
  let res := runSimulation ds scheduler totalTime laxityThreshold in
  (exists t, r_tasks res !! j = Some t /\ completed t = false /\
     completion_time t = None) /\
  (d_id d, false, None, abs_deadline (normalize d)) ∈ r_deadlineMisses res /\
  length (r_timeline res) = Z.to_nat (totalTime + 1).
Proof.
  intros Hd Hz.
  set (w := workOf (normalize d)).
  set (I := fun s : state => exists t, tasks s !! j = Some t /\ workOf t = w).
  assert (forall t, workOf t = w ->
            remaining t = exec (normalize d) /\ isCandidate t = false /\
            completed t = false /\ history t = [] /\ completion_time t = None /\
            id t = d_id d /\ abs_deadline t = abs_deadline (normalize d))
    as Hw.
  { intros t Ht. unfold w, workOf in Ht. injection Ht as -> -> Hr Hc -> ->.
    repeat split; try done. unfold isCandidate. rewrite Hr. simpl.
    unfold num_eqv in Hz. simpl in Hz.
    destruct (numberValue _) as [| | |q]; try done. simpl in *.
    change (inject_Z 0) with 0%Q in *.
    rewrite <- Qcompare_antisym, Hz. done. }
  assert (forall now s, I s ->
            I (fst (tick scheduler laxityThreshold now s)) /\
            snd (tick scheduler laxityThreshold now s) = false) as Hstep.
  { intros now s (t & Ht & Hwt). destruct (Hw t Hwt) as (_ & Hc & Hnc & _).
    destruct (tick_keeps_idle_task scheduler laxityThreshold now s j t Ht Hc Hnc)
      as (_ & Hgo & t' & Ht' & Hp).
    split; [|done]. exists t'. split; [done|]. congruence. }
  assert (I (init (normalize <$> ds))) as Hinit.
  { exists (normalize d). split; [by apply normalize_lookup | done]. }
  split.
  - intros k. simpl.
    destruct (loop_invariant I scheduler laxityThreshold Hstep k 0 _ Hinit)
      as ((t & Ht & Hwt) & _ & _).
    destruct (Hw t Hwt) as (Hr & Hc & Hnc & Hh & _).
    split; [by eauto 10|].
    destruct (tick_keeps_idle_task scheduler laxityThreshold (Z.of_nat k) _ j t Ht Hc Hnc)
      as (Hsel & Hgo & _). done.
  - simpl. unfold simulate.
    destruct (loop_invariant I scheduler laxityThreshold Hstep
                (Z.to_nat (totalTime + 1)) 0 _ Hinit) as ((t & Ht & Hwt) & _ & Hlen).
    destruct (Hw t Hwt) as (Hr & Hc & Hnc & Hh & Hct & Hid & Hdl).
    split; [by eauto|]. split; [|done].
    apply list_elem_of_fmap. exists t. split; [by rewrite Hid, Hnc, Hct, Hdl|].
    apply filter_elem. split; [apply list_elem_of_lookup; eauto|].
    unfold missedOrNot. by rewrite Hnc.
Qed.

(** ** The metrics *)



End Run.



(** ** The timeline *)

(** C7. The tick on which the loop breaks leaves no snapshot: a tick
    appends its snapshot only when the loop goes on. With one task of one
    unit of work, tick 0 runs the task to completion (it is logged,
    counted as busy and charged for energy), the loop breaks, and the
    timeline of the result is empty. *)
Theorem final_tick_has_no_snapshot :
  (forall (host : Host) scheduler laxityThreshold currentTime s,
     timeline (fst (tick scheduler laxityThreshold currentTime s)) =
       if snd (tick scheduler laxityThreshold currentTime s) then timeline s
       else timeline s ++
              [snapshotOf currentTime
                 (foldl waitOne (dispatched scheduler laxityThreshold currentTime s)
                    (ready (dispatched scheduler laxityThreshold currentTime s)))]) /\
  let res := runSimulation oneShot "edf" 10 (of_Z 20) in
  r_timeline res = [] /\
  r_log res = [EvAdmitted 0 "A"; EvRunning 0 "A" (Fin 1) (Fin 0);
               EvCompleted 1 "A" (Fin 5)] /\
  r_cpuBusyTime res = 1 /\ r_totalEnergy res = 10.
Proof.
  split; [intros; apply tick_timeline|]. vm_compute. done.
Qed.

(** ** The normaliser *)

Lemma mapM_spec {A B : Type} (f : A -> option B) (g : A -> B) (bad : A -> bool)
    (l : list A) :
  (forall x, f x = if bad x then None else Some (g x)) ->
  mapM f l = if existsb bad l then None else Some (g <$> l).
Proof.
  intros H. induction l as [|x l IH]; [done|].
  cbn [mapM existsb fmap list_fmap]. rewrite H, IH.
  destruct (bad x); [done|]. cbn. by destruct (existsb bad l).
Qed.

Section Normaliser.
Context {host : Host}.

(** What [Number] gives is a number of binary64 already. *)
Lemma numberValue_fl (v : jsval) : fl (numberValue v) = numberValue v.
Proof.
  revert v. fix IH 1. intros v.
  destruct v as [| |b|x|s|l|ps]; try reflexivity; try apply fl_idem.
  - destruct b; reflexivity.
  - destruct l as [|w [|w' l]]; try reflexivity.
    pose proof (IH w) as IHw.
    destruct w as [| |b|x|s|l|ps]; try reflexivity; exact IHw.
Qed.

Lemma normalizeTask_spec (d : descriptor) :
  normalizeTask d = if raises d then None else Some (normalize d).
Proof.
  unfold normalizeTask, raises, converted, Number. cbn [existsb].
  destruct (throws (js_or (d_arrival d) _)); [done|]. cbn [mbind option_bind orb].
  destruct (throws (js_or (js_or (d_execution d) _) _)); [done|].
  cbn [mbind option_bind orb].
  change (numberValue (js_or (js_or (d_execution d) (d_exec d)) (JNum (Fin 0))))
    with (exec (normalize d)).
  destruct (throws (js_or (js_or (d_deadline d) _) _)); [done|].
  cbn [mbind option_bind orb]. rewrite orb_false_r.
  unfold normalize.
  destruct (d_period d) as [| | | | |l|ps] eqn:E; try done;
    by destruct (throws _).
Qed.

Lemma normalizeTasks_spec (ds : list descriptor) :
  normalizeTasks ds = if existsb raises ds then None else Some (normalize <$> ds).
Proof. apply mapM_spec, normalizeTask_spec. Qed.

(** The call of the simulator raises when the normaliser does, and
    returns the result of [runSimulation] when not. *)
Lemma runSimulation_call_spec (ds : list descriptor) (scheduler : string)
    (totalTime : Z) (laxityThreshold : num) :
  runSimulation_call ds scheduler totalTime laxityThreshold =
    if existsb raises ds then None
    else Some (runSimulation ds scheduler totalTime laxityThreshold).
Proof.
  unfold runSimulation_call. rewrite normalizeTasks_spec.
  by destruct (existsb raises ds).
Qed.

(** C9, as the code has it. The normaliser raises a TypeError exactly
    when one of the values it passes to Number is an object with a
    property of its own named toString, or an array that holds such an
    object; if none is, it gives one task for each descriptor, in the
    order of the input. A field that is absent, null or otherwise falsy
    becomes 0 or its default: deadline_relative defaults to the execution
    time, and a period that is absent or null becomes +Infinity, which
    loses every RMS comparison against a finite period. A truthy value is
    converted by Number, and need not become a number: an object without
    such a property and an array of two elements or more convert to NaN. *)
Theorem normalize_coerces_fields (ds : list descriptor) :
  (normalizeTasks ds = None <-> exists d, d ∈ ds /\ raises d = true) /\
  (forall ts, normalizeTasks ds = Some ts ->
     ts = normalize <$> ds /\ length ts = length ds /\
     forall i, ts !! i = normalize <$> ds !! i) /\
  (forall d, let t := normalize d in
     id t = d_id d /\
     arrival t = coerce (d_arrival d) (Fin 0) /\
     exec t = coerce (d_execution d) (coerce (d_exec d) (Fin 0)) /\
     remaining t = exec t /\
     deadline_relative t =
       coerce (d_deadline d) (coerce (d_deadline_relative d) (exec t)) /\
     abs_deadline t = add64 (arrival t) (deadline_relative t) /\
     period t = match d_period d with
                | JUndefined | JNull => PInf
                | v => numberValue v
                end /\
     completed t = false /\ completion_time t = None /\ history t = []) /\
  (truthy JUndefined = false /\ truthy JNull = false /\
   truthy (JBool false) = false /\ truthy (JStr "") = false /\
   truthy (JNum (Fin 0)) = false /\ truthy (JNum NaN) = false /\
   (forall ps, truthy (JObj ps) = true /\ numberValue (JObj ps) = NaN) /\
   (forall l, truthy (JArr l) = true) /\
   (forall v w l, numberValue (JArr (v :: w :: l)) = NaN)) /\
  (forall a b q, period a = PInf -> period b = Fin q ->
     num_gtb (cmpRMS a b) (of_Z 0) = true /\
     num_gtb (cmpRMS b a) (of_Z 0) = false).
Proof.
  split; [|split; [|split; [|split]]].
  - rewrite normalizeTasks_spec. destruct (existsb raises ds) eqn:E.
    + split; [|done]. intros _. apply existsb_exists in E as (d & Hin & Hd).
      exists d. split; [by apply list_elem_of_In|done].
    + split; [done|]. intros (d & Hin & Hd).
      assert (existsb raises ds = true) as E'; [|congruence].
      apply existsb_exists. exists d. split; [by apply list_elem_of_In|done].
  - intros ts. rewrite normalizeTasks_spec. destruct (existsb raises ds); [done|].
    intros [= <-]. split; [done|]. split; [apply length_fmap|].
    intros i. apply list_lookup_fmap.
  - intros d. unfold normalize, coerce, js_or. simpl.
    repeat split; try done.
    + by destruct (truthy (d_arrival d)).
    + destruct (truthy (d_execution d)) eqn:E1; simpl; rewrite ?E1; [done|].
      destruct (truthy (d_exec d)) eqn:E2; simpl; by rewrite ?E2.
    + destruct (truthy (d_deadline d)) eqn:E1; simpl; rewrite ?E1; [done|].
      destruct (truthy (d_deadline_relative d)) eqn:E2; simpl; rewrite ?E2; [done|].
      apply numberValue_fl.
  - repeat split; done.
  - intros a b q Ha Hb. unfold cmpRMS. rewrite Ha, Hb. split; reflexivity.
Qed.

End Normaliser.

(** C9, as stated, fails: an object in a numeric field becomes NaN, or
    makes the normaliser raise. *)
Lemma object_arrival_is_NaN :
  (arrival (normalize objectArrival) = NaN /\
   normalizeTasks [objectArrival] = Some [normalize objectArrival] /\
   ~ defined_fields (normalize objectArrival)) /\
  normalizeTasks [throwingDeadline] = None.
Proof.
  split; [|done]. split; [done|]. split; [done|]. intros (H & _). discriminate H.
Qed.

(** ** The priority-inheritance estimator *)

Lemma findById_unboost (oid : string) (l l' : list task) (o : nat) (owner' : task) :
  unboost <$> l' = unboost <$> l ->
  findById oid l' = Some (o, owner') ->
  exists owner, findById oid l = Some (o, owner) /\ unboost owner = unboost owner'.
Proof.
  intros Hp (Ho & Hid & Hfirst)%list_find_Some.
  destruct (proj_lookup unboost l' l o owner' (eq_sym Hp) Ho) as (owner & Ho' & Hu).
  exists owner. split; [|done]. apply list_find_Some. split; [done|]. split.
  - apply (f_equal id) in Hu. simpl in Hu. congruence.
  - intros j y Hj Hlt Hy.
    destruct (proj_lookup unboost l l' j y Hp Hj) as (y' & Hj' & Hu').
    apply (Hfirst j y' Hj' Hlt). apply (f_equal id) in Hu'. simpl in Hu'. congruence.
Qed.

Lemma prio_unboost (t t' : task) : unboost t = unboost t' -> prio t = prio t'.
Proof.
  intros H. unfold prio.
  apply (f_equal (fun t => (is_critical t, abs_deadline t))) in H. simpl in H.
  by injection H as -> ->.
Qed.

Lemma boostsAt_ext (s s' : state) (w : nat) :
  unboost <$> tasks s' = unboost <$> tasks s -> resources s' = resources s ->
  boostsAt s' w = boostsAt s w.
Proof.
  intros Hp Hr. unfold boostsAt. rewrite Hr.
  destruct (tasks s !! w) as [waiter|] eqn:Hw.
  - destruct (proj_lookup unboost _ _ w waiter Hp Hw) as (waiter' & -> & Hu).
    assert (needs_resource waiter' = needs_resource waiter) as ->
      by (apply (f_equal needs_resource) in Hu; done).
    destruct (js_key (needs_resource waiter)) as [r|]; [|done].
    destruct (js_key (resources s !! r)) as [oid|]; [|done].
    assert (id waiter' = id waiter) as Hidw by (apply (f_equal id) in Hu; done).
    rewrite (prio_unboost waiter' waiter Hu), Hidw.
    destruct (findById oid (tasks s')) as [[o owner']|] eqn:Hf'.
    + destruct (findById_unboost oid _ _ o owner' Hp Hf') as (owner & -> & Hu').
      rewrite (prio_unboost owner owner' Hu').
      apply (f_equal id) in Hu'. simpl in Hu'. by rewrite Hu'.
    + destruct (findById oid (tasks s)) as [[o owner]|] eqn:Hf; [|done].
      destruct (findById_unboost oid _ _ o owner (eq_sym Hp) Hf) as (owner' & Hf'' & _).
      congruence.
  - destruct (tasks s' !! w) as [waiter'|] eqn:Hw'; [|done].
    destruct (proj_lookup unboost _ _ w waiter' (eq_sym Hp) Hw') as (? & ? & _).
    congruence.
Qed.

Lemma boostsAt_boosts (s : state) (w o : nat) :
  (exists oid wid, boostsAt s w = Some (o, oid, wid)) <-> boosts s w o.
Proof.
  unfold boostsAt, boosts. split.
  - intros (oid & wid & H).
    destruct (tasks s !! w) as [waiter|]; [|done].
    destruct (js_key (needs_resource waiter)) as [r|] eqn:Hr; [|done].
    destruct (js_key (resources s !! r)) as [ownerId|] eqn:Ho; [|done].
    destruct (findById ownerId (tasks s)) as [[o' owner]|] eqn:Hf; [|done].
    destruct (num_gtb (prio waiter) (prio owner)) eqn:Hg; [|done].
    injection H as -> _ _. by eauto 10.
  - intros (waiter & r & ownerId & owner & -> & -> & -> & -> & ->). eauto.
Qed.

Section Inheritance.
Context {host : Host}.

Lemma inheritOne_boostsAt now s w :
  inheritOne now s w =
    match boostsAt s w with
    | Some (o, oid, wid) =>
        logPush (EvBoost now oid wid) (update o (set_boosted true) s)
    | None => s
    end.
Proof. unfold inheritOne, boostsAt. repeat case_match; simplify_eq; done. Qed.

Lemma inheritAll_lookup now (s0 : state) (l : list nat) (s : state) (j : nat) :
  unboost <$> tasks s = unboost <$> tasks s0 -> resources s = resources s0 ->
  tasks (foldl (inheritOne now) s l) !! j =
    (fun t => if existsb (boostsIndex s0 j) l then set_boosted true t else t)
      <$> tasks s !! j.
Proof.
  revert s. induction l as [|w l IH]; intros s Hp Hr.
  - simpl. by destruct (tasks s !! j).
  - cbn [foldl existsb].
    assert (unboost <$> tasks (inheritOne now s w) = unboost <$> tasks s0) as Hp'
      by (rewrite inheritOne_proj; done).
    assert (resources (inheritOne now s w) = resources s0) as Hr'.
    { pose proof (inheritOne_machine now s w) as H. unfold machine in H.
      simplify_eq. congruence. }
    rewrite (IH _ Hp' Hr'). rewrite inheritOne_boostsAt, (boostsAt_ext s0 s w Hp Hr).
    unfold boostsIndex at 2.
    destruct (boostsAt s0 w) as [[[o oid] wid]|] eqn:Hb.
    + simpl. destruct (decide (o = j)) as [->|Hne].
      * rewrite list_lookup_alter_eq, bool_decide_eq_true_2 by done.
        destruct (tasks s !! j) as [t|]; [|done]. simpl.
        by destruct (existsb _ l).
      * rewrite list_lookup_alter_ne, bool_decide_eq_false_2 by done. done.
    + done.
Qed.

Lemma inheritAll_log now (s0 : state) (l : list nat) (s : state) :
  unboost <$> tasks s = unboost <$> tasks s0 -> resources s = resources s0 ->
  log (foldl (inheritOne now) s l) =
    log s ++ omap (fun w => boostLine now <$> boostsAt s0 w) l.
Proof.
  revert s. induction l as [|w l IH]; intros s Hp Hr.
  - simpl. by rewrite app_nil_r.
  - cbn [foldl omap list_omap].
    assert (unboost <$> tasks (inheritOne now s w) = unboost <$> tasks s0) as Hp'
      by (rewrite inheritOne_proj; done).
    assert (resources (inheritOne now s w) = resources s0) as Hr'.
    { pose proof (inheritOne_machine now s w) as H. unfold machine in H.
      simplify_eq. congruence. }
    rewrite (IH _ Hp' Hr'). rewrite inheritOne_boostsAt, (boostsAt_ext s0 s w Hp Hr).
    destruct (boostsAt s0 w) as [[[o oid] wid]|]; [|done].
    cbn [fmap option_fmap option_map log logPush update set_tasks boostLine fst snd].
    by rewrite <- app_assoc.
Qed.

(** C8, as the code has it. The score of a task,
    (is_critical ? 10^6 : 0) - abs_deadline in the arithmetic of
    binary64, reads the is_critical flag only: a boost set earlier in
    the tick does not enter it. After the estimator a task is boosted
    exactly when some Ready waiter, whose resource is recorded for the id
    of that task, has a greater score than it; the log gains one line for
    each Ready waiter that outscores the owner of its resource, in the
    order of the Ready list, also when that owner is boosted already;
    and nothing else changes but the boost flags. *)
Theorem boost_follows_critical_flag_only (currentTime : Z) (s : state) :
  let s' := applyPriorityInheritance currentTime s in
  (forall o t', tasks s' !! o = Some t' ->
     _boosted t' = true <-> exists w, w ∈ ready s /\ boosts s w o) /\
  log s' =
    log s ++ omap (fun w => boostLine currentTime <$> boostsAt s w) (ready s) /\
  unboost <$> tasks s' = unboost <$> tasks s /\
  machine s' = machine s.
Proof.
  cbv zeta. split; [|split; [|split]].
  - intros o t'. unfold applyPriorityInheritance.
    set (s1 := set_tasks (set_boosted false <$> tasks s) s).
    assert (unboost <$> tasks s1 = unboost <$> tasks s) as Hp.
    { simpl. rewrite <- list_fmap_compose. by apply list_fmap_ext. }
    rewrite (inheritAll_lookup currentTime s1 (ready s1) s1 o eq_refl eq_refl).
    simpl. rewrite list_lookup_fmap.
    destruct (tasks s !! o) as [t|]; [|done]. simpl. intros [= <-].
    assert (forall w, boostsIndex s1 o w = true <-> boosts s w o) as Hiff.
    { intros w. rewrite <- boostsAt_boosts. unfold boostsIndex.
      rewrite (boostsAt_ext s s1 w Hp eq_refl).
      destruct (boostsAt s w) as [[[o' oid] wid]|]; split.
      - intros ->%bool_decide_eq_true_1. eauto.
      - intros (? & ? & [= -> _ _]). by apply bool_decide_eq_true_2.
      - done.
      - by intros (? & ? & ?). }
    destruct (existsb (boostsIndex s1 o) (ready s)) eqn:He.
    + split; [intros _|done]. apply existsb_exists in He as (w & Hw & Hb).
      exists w. split; [by apply list_elem_of_In | by apply Hiff].
    + split; [done|]. intros (w & Hw & Hb).
      assert (existsb (boostsIndex s1 o) (ready s) = true) as He'.
      { apply existsb_exists. exists w. split; [by apply list_elem_of_In | by apply Hiff]. }
      congruence.
  - unfold applyPriorityInheritance.
    set (s1 := set_tasks (set_boosted false <$> tasks s) s).
    assert (unboost <$> tasks s1 = unboost <$> tasks s) as Hp.
    { simpl. rewrite <- list_fmap_compose. by apply list_fmap_ext. }
    by rewrite (inheritAll_log currentTime s (ready s1) s1 Hp eq_refl).
  - unfold applyPriorityInheritance.
    rewrite (foldl_frame (fun s => unboost <$> tasks s))
      by (intros; by apply inheritOne_proj).
    simpl. rewrite <- list_fmap_compose. by apply list_fmap_ext.
  - apply applyPriorityInheritance_machine.
Qed.

End Inheritance.

(** C8, as stated, fails: O is boosted by W1 and is then compared with
    W2 by its plain score, so that the boost is logged again. *)
Lemma boosted_owner_keeps_plain_score :
  log (applyPriorityInheritance 1 contended) =
    log contended ++ [EvBoost 1 "O" "W1"; EvBoost 1 "O" "W2"] /\
  log (applyPriorityInheritance_claimed 1 contended) =
    log contended ++ [EvBoost 1 "O" "W1"] /\
  applyPriorityInheritance 1 contended <> applyPriorityInheritance_claimed 1 contended.
Proof.
  assert (log (applyPriorityInheritance 1 contended) =
            log contended ++ [EvBoost 1 "O" "W1"; EvBoost 1 "O" "W2"]) as H1
    by (vm_compute; reflexivity).
  assert (log (applyPriorityInheritance_claimed 1 contended) =
            log contended ++ [EvBoost 1 "O" "W1"]) as H2
    by (vm_compute; reflexivity).
  split; [done|]. split; [done|]. intros H. rewrite H, H2 in H1.
  apply app_inv_head in H1. discriminate H1.
Qed.

(** ** The claims on concrete runs *)

Lemma keys_of_store (key : task -> num) (s : state) :
  Forall (key_ok key) (tasks s) -> forall i t, candidate s i t -> key_ok key t.
Proof.
  intros H i t (_ & Ht & _). rewrite Forall_forall in H. apply H.
  apply list_elem_of_lookup. eauto.
Qed.

Lemma keys_of_store2 (s : state) :
  Forall (fun t => key_ok abs_deadline t /\ key_ok period t) (tasks s) ->
  forall i t, candidate s i t -> key_ok abs_deadline t /\ key_ok period t.
Proof.
  intros H i t (_ & Ht & _). rewrite Forall_forall in H. apply H.
  apply list_elem_of_lookup. eauto.
Qed.

(** Under edf T1 and T2 tie on the deadline and on the arrival: T1, at
    index 1 of the store, is selected by its id. *)
Lemma edf_selects_earliest_deadline_witness :
  snd (chooseNextWithBoost "edf" tiedPlainAtStart) = Some 1%nat /\
  exists tm, candidate tiedPlainAtStart 1 tm /\ id tm = "T1" /\
    forall i t, candidate tiedPlainAtStart i t -> edf_le tm t.
Proof.
  assert (snd (chooseNextWithBoost "edf" tiedPlainAtStart) = Some 1%nat) as Hsel
    by (vm_compute; reflexivity).
  split; [exact Hsel|].
  pose proof (edf_selects_earliest_deadline "edf" tiedPlainAtStart) as H.
  rewrite Hsel in H. destruct H as (tm & Hc & Hmin); [done|done|done| |].
  - apply keys_of_store. apply (bool_decide_unpack _). vm_compute. exact I.
  - exists tm. split; [exact Hc|]. split; [|exact Hmin].
    destruct Hc as (_ & Ht & _). vm_compute in Ht. injection Ht as <-. reflexivity.
Defined.

(** Under hybrid T1 and T2 are critical and tie on the period and on
    the arrival: T1, at index 1 of the store, is selected by its id. *)
Lemma hybrid_selects_critical_first_witness :
  snd (chooseNextWithBoost "hybrid" tiedAtStart) = Some 1%nat /\
  exists tm, candidate tiedAtStart 1 tm /\ id tm = "T1" /\
    effectivelyCritical tm = true /\
    forall i t, candidate tiedAtStart i t -> effectivelyCritical t = true ->
      rms_le tm t.
Proof.
  assert (snd (chooseNextWithBoost "hybrid" tiedAtStart) = Some 1%nat) as Hsel
    by (vm_compute; reflexivity).
  split; [exact Hsel|].
  pose proof (hybrid_selects_critical_first "hybrid" tiedAtStart) as H.
  rewrite Hsel in H. destruct H as (tm & Hc & Hcrit & _); [by left| |].
  - apply keys_of_store2. apply (bool_decide_unpack _). vm_compute. exact I.
  - assert (id tm = "T1" /\ effectivelyCritical tm = true) as [Hid He].
    { destruct Hc as (_ & Ht & _). vm_compute in Ht. injection Ht as <-.
      split; reflexivity. }
    exists tm. split; [exact Hc|]. split; [exact Hid|].
    apply Hcrit. exists 1%nat, tm. split; [exact Hc|exact He].
Defined.


(** The single task of [oneShot] completes at tick 0, at time 1. *)
Lemma completion_happens_once_witness :
  exists t', tasks (fst (tick "edf" (of_Z 20) 0 (init (normalize <$> oneShot))))
               !! 0%nat = Some t' /\
    completed t' = true /\ completion_time t' = Some 1.
Proof.
  assert (exists t, tasks (init (normalize <$> oneShot)) !! 0%nat = Some t /\
                    completed t = false) as (t & Ht & Hc)
    by (eexists; split; [vm_compute; reflexivity | vm_compute; reflexivity]).
  destruct (completion_happens_once "edf" (of_Z 20) 0 (init (normalize <$> oneShot))
              0%nat t) as (t' & Ht' & _ & Hrun & _).
  - apply (bool_decide_unpack _). vm_compute. exact I.
  - exact Ht.
  - destruct (Hrun Hc) as (Hdone & Hthen). exists t'. split; [exact Ht'|].
    assert (completed t' = true) as Hc'.
    { rewrite Hdone. injection Ht as <-. vm_compute. reflexivity. }
    split; [exact Hc'|]. apply (Hthen Hc').
Defined.

(** Under energy-hybrid the sample set starts at full speed: T2 is
    selected with laxity 40 - (0 + 20) = 20, which does not exceed 20.
    With execution 0.1 and deadline 20.1 the laxity is 20 in binary64,
    which does not exceed 20 either; with execution 0.1 and deadline 0.8
    it is 0.7000000000000001, which exceeds the threshold 0.7. *)
Lemma cpu_state_of_tick_witness :
  cpuState (fst (tick "energy-hybrid" (of_Z 20) 0 sampleLoaded)) = HIGH /\
  cpuState (fst (tick "energy-hybrid" (of_Z 19) 0 sampleLoaded)) = LOW /\
  cpuState (fst (tick "rms" (of_Z 19) 0 sampleLoaded)) = HIGH /\
  cpuState (fst (tick "energy-hybrid" (of_Z 20) 0
                   (init (normalize <$> decimalTask (1 # 10) (201 # 10))))) = HIGH /\
  cpuState (fst (tick "energy-hybrid" (round64 (7 # 10)) 0
                   (init (normalize <$> decimalTask (1 # 10) (8 # 10))))) = LOW.
Proof.
  destruct (cpu_state_of_tick "energy-hybrid" (of_Z 20) 0 sampleLoaded)
    as (_ & _ & H20 & _).
  destruct (cpu_state_of_tick "energy-hybrid" (of_Z 19) 0 sampleLoaded)
    as (_ & _ & H19 & _).
  destruct (cpu_state_of_tick "rms" (of_Z 19) 0 sampleLoaded) as (Hrms & _).
  destruct (cpu_state_of_tick "energy-hybrid" (of_Z 20) 0
              (init (normalize <$> decimalTask (1 # 10) (201 # 10))))
    as (_ & _ & Hd & _).
  destruct (cpu_state_of_tick "energy-hybrid" (round64 (7 # 10)) 0
              (init (normalize <$> decimalTask (1 # 10) (8 # 10))))
    as (_ & _ & Hd' & _).
  destruct (H20 eq_refl 1%nat) as (tm & Htm & ->); [vm_compute; reflexivity|].
  destruct (H19 eq_refl 1%nat) as (tm' & Htm' & ->); [vm_compute; reflexivity|].
  destruct (Hd eq_refl 0%nat) as (td & Htd & ->); [vm_compute; reflexivity|].
  destruct (Hd' eq_refl 0%nat) as (td' & Htd' & ->); [vm_compute; reflexivity|].
  split; [|split; [|split; [|split]]].
  - vm_compute in Htm. injection Htm as <-. vm_compute. reflexivity.
  - vm_compute in Htm'. injection Htm' as <-. vm_compute. reflexivity.
  - apply Hrms. discriminate.
  - vm_compute in Htd. injection Htd as <-. vm_compute. reflexivity.
  - vm_compute in Htd'. injection Htd' as <-. vm_compute. reflexivity.
Defined.

(** In the contention example O ends the estimator boosted, by W1. *)
Lemma boost_follows_critical_flag_only_witness :
  exists w, w ∈ ready contended /\ boosts contended w 0.
Proof.
  destruct (boost_follows_critical_flag_only 1 contended) as (H & _).
  assert (exists t', tasks (applyPriorityInheritance 1 contended) !! 0%nat = Some t' /\
                     _boosted t' = true) as (t' & Ht' & Hb)
    by (eexists; split; [vm_compute; reflexivity | vm_compute; reflexivity]).
  apply (H 0%nat t' Ht'). exact Hb.
Defined.

(** The normaliser gives the six tasks of the sample set, raises on a
    deadline that has a property toString, and the aperiodic T3 of the
    sample set sorts after the periodic T1. *)
Lemma normalize_coerces_fields_witness :
  (exists ts, normalizeTasks SAMPLE_TASKS = Some ts /\ length ts = 6%nat) /\
  normalizeTasks [throwingDeadline] = None /\
  num_gtb (cmpRMS (normalize (mkTask "T3" 10 25 60 None false None None))
                  (normalize (mkTask "T1" 0 30 50 (Some 50) true None None)))
          (of_Z 0) = true.
Proof.
  destruct (normalize_coerces_fields SAMPLE_TASKS) as (_ & Hsome & _ & _ & H).
  destruct (normalize_coerces_fields [throwingDeadline]) as (Hnone & _).
  split; [|split].
  - exists (normalize <$> SAMPLE_TASKS).
    assert (normalizeTasks SAMPLE_TASKS = Some (normalize <$> SAMPLE_TASKS)) as Hn
      by (vm_compute; reflexivity).
    split; [exact Hn|]. destruct (Hsome _ Hn) as (_ & Hlen & _). exact Hlen.
  - apply Hnone. exists throwingDeadline. split; [|vm_compute; reflexivity].
    apply list_elem_of_singleton. reflexivity.
  - apply (H _ _ (inject_Z 50)); reflexivity.
Defined.

(** With a task without execution time the run takes all four ticks of
    a horizon of 3. *)
Lemma zero_execution_task_never_runs_witness :
  length (r_timeline (runSimulation zeroWork "edf" 3 (of_Z 20))) = 4%nat.
Proof.
  destruct (zero_execution_task_never_runs zeroWork "edf" 3 (of_Z 20) 0%nat
              (mkTask "Z" 0 0 5 None false None None)) as (_ & _ & _ & H).
  - reflexivity.
  - reflexivity.
  - exact H.
Defined.

(** * Properties of the run as a whole *)

(** ** One task over one tick *)

Lemma ranTask_life now w t4 t :
  life t4 = life t -> life (ranTask now w t4) = life (ranTask now w t).
Proof.
  intros H. unfold ranTask. rewrite !runTask_remaining.
  destruct t4, t. unfold life, static in H. cbn in H.
  injection H as -> -> -> -> -> -> -> -> -> -> -> -> -> -> ->.
  cbn [remaining]. destruct (num_leb _ _); unfold runTask;
    cbn [started]; destruct started1; reflexivity.
Qed.

Lemma blocked_life s t4 t : life t4 = life t -> blocked s t4 = blocked s t.
Proof.
  intros H. unfold life, static in H.
  injection H as Hid _ _ _ _ _ _ _ Hn _ _ _ _ _ _.
  unfold blocked, ownedByOther. by rewrite Hid, Hn.
Qed.

Lemma dispatchedTask_step s now c next j t :
  life (dispatchedTask s now c next j t) =
    life (if runsAt s next j t then ranTask now (cpu_speed c) t else t) /\
  admitted (dispatchedTask s now c next j t) = admitted t /\
  wait_time (dispatchedTask s now c next j t) =
    wait_time t + (if bool_decide (next = Some j) && blocked s t then 1 else 0).
Proof.
  unfold dispatchedTask, runsAt. case_bool_decide; cbn [andb]; [|split; [done|split; [done|lia]]].
  destruct (blocked s t); cbn [negb].
  - split; [done|]. split; [done|]. cbn [wait_time set_wait_time]. lia.
  - destruct (ranTask_static now (cpu_speed c) t) as (_ & Ha & Hw).
    split; [done|]. split; [done|]. lia.
Qed.

Lemma bumped_step (l : list nat) run j d :
  let d' := (if decide (j ∈ l) then bump run j else fun t => t) d in
  life d' = life d /\ admitted d' = admitted d /\ completed d' = completed d /\
  wait_time d' = wait_time d +
    (if bool_decide (j ∈ l) && negb (completed d) && negb (bool_decide (run = Some j))
     then 1 else 0).
Proof.
  cbv zeta. destruct (decide _) as [Hin|Hin];
    [rewrite bool_decide_eq_true_2 by done | rewrite bool_decide_eq_false_2 by done];
    cbn [andb]; [|repeat (split; [done|]); lia].
  unfold bump. destruct (negb (completed d) && _); [|repeat (split; [done|]); lia].
  repeat (split; [done|]). done.
Qed.

Section TaskStep.
Context {host : Host}.

Lemma selectAt_task sched now s j t :
  tasks s !! j = Some t ->
  exists t4, tasks (fst (selectAt sched now s)) !! j = Some t4 /\
    life t4 = life t /\ wait_time t4 = wait_time t /\
    admitted t4 = admitted t || arrives now t.
Proof.
  intros Ht.
  destruct (proj_lookup (fun t => (life t, wait_time t)) (tasks s)
              (tasks (fst (selectAt sched now s))) j t) as (t4 & Ht4 & Hp);
    [by apply selectAt_proj | done |].
  exists t4. apply pair_equal_spec in Hp as [Hl Hw]. repeat (split; [done|]).
  pose proof (admitArrivals_lookup now s j) as Ha. rewrite Ht in Ha.
  cbn [fmap option_fmap option_map] in Ha.
  assert (admitted t4 = admitted (admitTask now t)) as ->.
  { eapply (proj_lookup_eq admitted); [|exact Ha|exact Ht4].
    unfold selectAt. by apply selection_proj. }
  unfold admitTask, arrives. destruct (admitted t) eqn:E; cbn [negb andb orb]; [done|].
  destruct (num_leb _ _); [done|]. by rewrite E.
Qed.

(** The record of a task after a tick, from its record before. *)
Lemma tick_life sched lax now s j t :
  let sel := selectAt sched now s in
  let s' := fst (tick sched lax now s) in
  wf s -> tasks s !! j = Some t ->
  exists t', tasks s' !! j = Some t' /\
    life t' = life (if runsAt s (snd sel) j t
                    then ranTask now (cpu_speed (cpuState s')) t else t) /\
    admitted t' = admitted t || arrives now t /\
    wait_time t' = wait_time t + waited s (snd sel) (ready s') (running s') j t t'.
Proof.
  cbv zeta. intros Hwf Ht.
  destruct (selectAt_task sched now s j t Ht) as (t4 & Ht4 & Hl & Hw & Ha).
  pose proof (tick_clock sched lax now s) as Hr. cbv zeta in Hr.
  destruct Hr as (Hr & _).
  rewrite (tick_lookup sched lax now s j t4 Hwf Ht4). eexists. split; [done|].
  rewrite Hr. unfold waited, runsAt.
  rewrite <- (blocked_life s t4 t Hl), <- Hw, <- Ha.
  destruct (dispatchedTask_step s now (cpuState (fst (tick sched lax now s)))
              (snd (selectAt sched now s)) j t4) as (H1 & H2 & H3).
  destruct (bumped_step (ready (fst (selectAt sched now s)))
              (running (fst (tick sched lax now s))) j
              (dispatchedTask s now (cpuState (fst (tick sched lax now s)))
                 (snd (selectAt sched now s)) j t4)) as (H4 & H5 & H6 & H7).
  rewrite H4, H5, H6, H7, H1, H2, H3. split; [|split; [done|lia]].
  unfold runsAt.
  destruct (bool_decide (snd (selectAt sched now s) = Some j) && negb (blocked s t4));
    [by apply ranTask_life | done].
Qed.

End TaskStep.

(** One tick of work on a task that has work left: the task is then
    completed with at most one unit of overshoot, or has work left. *)
Lemma work_left (r : num) (c : cpu) :
  num_gtb r (of_Z 0) = true ->
  if num_leb (sub64 r (cpu_speed c)) epsilon
  then num_leb (of_Z (-1)) (sub64 r (cpu_speed c)) = true
  else num_gtb (sub64 r (cpu_speed c)) epsilon = true.
Proof.
  destruct r as [| | |q]; try done; [by destruct c|].
  unfold num_gtb, of_Z. rewrite num_ltb_Fin.
  intros Hq.
  assert (exists w, cpu_speed c = Fin w /\ (0 < w)%Q /\ (w <= 1)%Q) as (w & -> & Hw0 & Hw1).
  { destruct c; eexists; (split; [reflexivity|]); split; reflexivity || discriminate. }
  unfold sub64. cbn [num_sub fl].
  pose proof (Qred_correct (q - w)) as Hred.
  pose proof (round64_not_nan (Qred (q - w))) as Hn.
  destruct (num_leb _ _) eqn:E.
  - apply round64_ge_m1. rewrite Hred. change (inject_Z 0) with 0%Q in Hq. lra.
  - unfold epsilon in *. destruct (round64 (Qred (q - w))) as [| | |x]; try done.
    apply num_leb_Fin_false in E. by apply num_ltb_Fin.
Qed.

(** ** The life of a task *)

Lemma lifecycle_life now t t' : life t' = life t -> lifecycle now t -> lifecycle now t'.
Proof.
  unfold life, static. intros H.
  injection H as _ Ha He _ _ _ _ _ _ Hr Hh Hs Hst Hc Hct.
  unfold lifecycle. by rewrite Ha, He, Hr, Hh, Hs, Hst, Hc, Hct.
Qed.

Lemma lifecycle_mono now t : lifecycle now t -> lifecycle (now + 1) t.
Proof.
  unfold lifecycle. destruct (started t); [|done].
  intros (a & e & H1 & H2 & H3 & H4 & H5 & H6). exists a, e.
  repeat (split; [done || lia|]). done.
Qed.

Lemma ranTask_run now w t :
  static (ranTask now w t) = static t /\
  started (ranTask now w t) = true /\
  start_time (ranTask now w t) =
    (if started t then start_time t else JNum (of_Z now)) /\
  history (ranTask now w t) = extend_history now (history t) /\
  completion_time (ranTask now w t) =
    (if num_leb (sub64 (remaining t) w) epsilon then Some (now + 1)
     else completion_time t).
Proof.
  unfold ranTask. rewrite runTask_remaining.
  destruct (num_leb _ _); unfold runTask; destruct (started t) eqn:E;
    cbn; rewrite ?E; done.
Qed.

Lemma lifecycle_ran now c t :
  0 <= now -> lifecycle now t -> isCandidate t = true ->
  num_leb (arrival t) (of_Z now) = true ->
  lifecycle (now + 1) (ranTask now (cpu_speed c) t).
Proof.
  intros Hnow Hl [Hrem Hnc%negb_true_iff]%andb_true_iff Harr.
  pose proof (work_left (remaining t) c Hrem) as Hw.
  destruct (ranTask_run now (cpu_speed c) t) as (Hst & Hs & Hstart & Hh & Hct).
  unfold static in Hst. injection Hst as _ Ha _ _ _ _ _ _ _.
  unfold lifecycle in *.
  rewrite Hs, Hstart, Hh, Hct, Ha, ranTask_completed, ranTask_remaining, Hnc.
  cbn [orb].
  assert (exists a, (if started t then start_time t else JNum (of_Z now)) =
                      JNum (of_Z a) /\
            0 <= a /\ a < now + 1 /\ num_leb (arrival t) (of_Z a) = true /\
            extend_history now (history t) =
              [{| seg_start := a; seg_end := now + 1; seg_state := "run" |}])
    as (a & H1 & H2 & H3 & H4 & H5).
  { destruct (started t).
    - destruct Hl as (a & e & H1 & H2 & H3 & H4 & H5 & H6 & _).
      exists a. rewrite H2. cbn. repeat (split; [done || lia|]). done.
    - destruct Hl as (H2 & _). exists now. rewrite H2. cbn.
      repeat (split; [done || lia|]). done. }
  exists a, (now + 1). repeat (split; [done || lia|]).
  destruct (num_leb (sub64 (remaining t) (cpu_speed c)) epsilon); [done|].
  split; [|done].
  destruct (started t).
  - destruct Hl as (? & ? & _ & _ & _ & _ & _ & _ & H7). rewrite Hnc in H7. tauto.
  - tauto.
Qed.

(** ** The invariant of the loop *)

Lemma life_static t' t : life t' = life t -> static t' = static t.
Proof. unfold life. congruence. Qed.

Lemma static_arrival t' t : static t' = static t -> arrival t' = arrival t.
Proof. unfold static. congruence. Qed.

Lemma isCandidate_life t' t : life t' = life t -> isCandidate t' = isCandidate t.
Proof.
  unfold life, isCandidate. intros H.
  assert (remaining t' = remaining t /\ completed t' = completed t) as [-> ->]
    by (split; congruence). done.
Qed.

Section RunInvariant.
Context {host : Host}.

Lemma tick_lookup_back sched lax now s j t' :
  tasks (fst (tick sched lax now s)) !! j = Some t' -> exists t, tasks s !! j = Some t.
Proof.
  intros Hj%lookup_lt_Some. rewrite tick_length in Hj. by apply lookup_lt_is_Some_2.
Qed.

(** A tick changes none of the fields that describe a task. *)
Lemma tick_static sched lax now s :
  wf s -> static <$> tasks (fst (tick sched lax now s)) = static <$> tasks s.
Proof.
  intros Hwf. apply list_eq. intros j. rewrite !list_lookup_fmap.
  destruct (tasks s !! j) as [t|] eqn:Ht.
  - destruct (tick_life sched lax now s j t Hwf Ht) as (t' & -> & Hl & _).
    cbn [fmap option_fmap option_map]. f_equal.
    rewrite (life_static _ _ Hl).
    destruct (runsAt _ _ _ _); [|done]. apply ranTask_run.
  - destruct (tasks (fst (tick sched lax now s)) !! j) as [t'|] eqn:Ht'; [|done].
    destruct (tick_lookup_back sched lax now s j t' Ht') as (t & Ht2). congruence.
Qed.

(** The task a tick lets run is a candidate that is Ready at that tick. *)
Lemma runsAt_candidate sched now s j t :
  tasks s !! j = Some t ->
  runsAt s (snd (selectAt sched now s)) j t = true ->
  isCandidate t = true /\ j ∈ ready (fst (selectAt sched now s)).
Proof.
  intros Ht [Hsel%bool_decide_eq_true _]%andb_true_iff.
  destruct (selectAt_candidate sched now s j Hsel) as (t4 & Hin & Ht4 & Hc).
  destruct (selectAt_task sched now s j t Ht) as (t4' & Ht4' & Hl & _).
  rewrite Ht4 in Ht4'. injection Ht4' as <-.
  by rewrite <- (isCandidate_life _ _ Hl).
Qed.

Lemma tick_arrived sched lax now s :
  wf s -> arrived now s -> arrived (now + 1) (fst (tick sched lax now s)).
Proof.
  intros Hwf Harr i t' Hin Ht'.
  replace (now + 1 - 1) with now by lia.
  destruct (tick_lookup_back sched lax now s i t' Ht') as (t & Ht).
  assert (arrival t' = arrival t) as ->.
  { pose proof (tick_static sched lax now s Hwf) as Hs.
    exact (static_arrival _ _ (proj_lookup_eq static _ _ i t t' Hs Ht Ht')). }
  pose proof (tick_clock sched lax now s) as Hr. cbv zeta in Hr.
  destruct Hr as (Hr & _). rewrite Hr, selectAt_ready, admitArrivals_ready in Hin.
  apply elem_of_app in Hin as [Hin|Hin].
  - apply (num_leb_mono _ (now - 1)); [by apply (Harr i)|lia].
  - apply filter_elem in Hin as [_ Hin]. unfold arrivesAt in Hin. rewrite Ht in Hin.
    unfold arrives in Hin. by apply andb_true_iff in Hin as [_ Hin].
Qed.

Lemma tick_runInv sched lax now s :
  runInv now s -> runInv (now + 1) (fst (tick sched lax now s)).
Proof.
  intros (Hnow & Hwf & Harr & Hlife).
  pose proof (tick_arrived sched lax now s Hwf Harr) as Harr'.
  split; [lia|]. split; [by apply tick_wf|]. split; [done|].
  intros j t' Ht'.
  destruct (tick_lookup_back sched lax now s j t' Ht') as (t & Ht).
  destruct (tick_life sched lax now s j t Hwf Ht) as (t'' & Ht'' & Hl & _).
  rewrite Ht' in Ht''. injection Ht'' as <-.
  apply (lifecycle_life _ _ _ Hl).
  destruct (runsAt _ _ _ _) eqn:Hrun.
  - destruct (runsAt_candidate sched now s j t Ht Hrun) as (Hc & Hin).
    apply lifecycle_ran; [done|by apply (Hlife j)|done|].
    pose proof (tick_clock sched lax now s) as Hr. cbv zeta in Hr.
    destruct Hr as (Hr & _). rewrite <- Hr in Hin.
    specialize (Harr' j t' Hin Ht'). replace (now + 1 - 1) with now in Harr' by lia.
    rewrite (static_arrival _ _ (life_static _ _ Hl)) in Harr'.
    destruct (ranTask_run now (cpu_speed (cpuState (fst (tick sched lax now s)))) t)
      as (Hst & _).
    by rewrite (static_arrival _ _ Hst) in Harr'.
  - apply lifecycle_mono. by apply (Hlife j).
Qed.

Lemma init_runInv (ds : list descriptor) : runInv 0 (init (normalize <$> ds)).
Proof.
  split; [done|]. split; [apply init_wf|]. split.
  - intros i t Hin. by apply elem_of_nil in Hin.
  - intros j t Ht. cbn [tasks init] in Ht. rewrite list_lookup_fmap in Ht.
    destruct (ds !! j) as [d|]; [|done]. injection Ht as <-. done.
Qed.

(** The loop, by what a tick that goes on keeps and what the tick that
    breaks it leaves. *)
Lemma loop_run (I F : Z -> state -> Prop) sched lax :
  (forall now s, I now s -> snd (tick sched lax now s) = false ->
     I (now + 1) (fst (tick sched lax now s))) ->
  (forall now s, I now s -> snd (tick sched lax now s) = true ->
     F (now + 1) (fst (tick sched lax now s))) ->
  forall n now s, I now s ->
    I (now + Z.of_nat n) (loop sched lax n now s) \/
    exists k, (k < n)%nat /\ F (now + Z.of_nat k + 1) (loop sched lax n now s).
Proof.
  intros Hgo Hstop. induction n as [|n IH]; intros now s Hs.
  - left. cbn [loop Z.of_nat]. by rewrite Z.add_0_r.
  - cbn [loop]. specialize (Hgo now s Hs). specialize (Hstop now s Hs).
    destruct (tick sched lax now s) as [s' stop]. cbn [fst snd] in *.
    destruct stop.
    + right. exists 0%nat. split; [lia|]. cbn [Z.of_nat]. rewrite Z.add_0_r. auto.
    + destruct (IH (now + 1) s' (Hgo eq_refl)) as [H|(k & Hk & H)].
      * left. by replace (now + Z.of_nat (S n)) with (now + 1 + Z.of_nat n) by lia.
      * right. exists (S k). split; [lia|].
        by replace (now + Z.of_nat (S k) + 1) with (now + 1 + Z.of_nat k + 1) by lia.
Qed.

(** A property that every tick keeps holds when the loop ends, for the
    number of ticks made. *)
Lemma loop_keeps (J : Z -> state -> Prop) sched lax :
  (forall now s, J now s -> J (now + 1) (fst (tick sched lax now s))) ->
  forall n now s, J now s ->
    exists k, (k <= n)%nat /\ J (now + Z.of_nat k) (loop sched lax n now s).
Proof.
  intros Hstep n now s Hs.
  destruct (loop_run J J sched lax (fun now s H _ => Hstep now s H)
              (fun now s H _ => Hstep now s H) n now s Hs) as [H|(k & Hk & H)].
  - exists n. split; [lia|done].
  - exists (S k). split; [lia|].
    by replace (now + Z.of_nat (S k)) with (now + Z.of_nat k + 1) by lia.
Qed.

Lemma simulate_runInv ds sched totalTime lax :
  exists k, 0 <= k <= Z.max 0 (totalTime + 1) /\
    runInv k (simulate ds sched totalTime lax).
Proof.
  destruct (loop_keeps runInv sched lax (tick_runInv sched lax)
              (Z.to_nat (totalTime + 1)) 0 _ (init_runInv ds)) as (k & Hk & H).
  exists (Z.of_nat k). split; [lia|]. exact H.
Qed.

End RunInvariant.

(** ** The table and the log after a dispatch *)

Section DispatchEffect.
Context {host : Host}.

Lemma release_held_effect now r s h :
  js_key (holds_resource r) = Some h ->
  log (release_held now r s) =
    log s ++ (if bool_decide (resources s !! h = Some (id r))
              then [EvReleased (now + 1) (id r) h] else []) /\
  resources (release_held now r s) =
    (if bool_decide (resources s !! h = Some (id r))
     then delete h (resources s) else resources s).
Proof.
  intros Hh. unfold release_held. rewrite Hh.
  case_bool_decide; [done|]. by rewrite app_nil_r.
Qed.

Lemma lookup_assign (k v : string) (m : gmap string string) (k' : string) :
  assign k v m !! k' =
    if decide (k = k' /\ k <> "__proto__") then Some v else m !! k'.
Proof.
  unfold assign. destruct (String.eqb_spec k "__proto__") as [E|E].
  - rewrite decide_False; [done|]. tauto.
  - destruct (decide (k = k')) as [->|Hk].
    + rewrite decide_True by done. apply lookup_insert_eq.
    + rewrite decide_False by tauto. by apply lookup_insert_ne.
Qed.

Lemma execute_effect now i s r :
  tasks s !! i = Some r ->
  let c := cpuState s in
  log (execute now i s) =
    log s ++
    EvRunning now (id r) (cpu_speed c)
      (num_max (of_Z 0) (sub64 (remaining r) (cpu_speed c))) ::
    (if completes c r then
       EvCompleted (now + 1) (id r) (abs_deadline r) ::
       match js_key (holds_resource r) with
       | Some h =>
           if bool_decide (resources s !! h = Some (id r))
           then [EvReleased (now + 1) (id r) h] else []
       | None => []
       end
     else []) /\
  resources (execute now i s) =
    (if completes c r then released r (resources s) else resources s).
Proof.
  intros Hr. cbv zeta. unfold execute, completes.
  cbn [tasks update set_tasks set_cpuBusyTime cpuBusyTime cpuState].
  rewrite list_lookup_alter_eq, Hr. cbn [fmap option_fmap option_map].
  rewrite runTask_remaining.
  destruct (runTask_static now (cpu_speed (cpuState s)) r) as (Hid & Hh & Hn).
  assert (abs_deadline (runTask now (cpu_speed (cpuState s)) r) = abs_deadline r) as Hd
    by (unfold runTask; by destruct (started r)).
  rewrite Hid, Hd.
  destruct (num_leb (sub64 (remaining r) (cpu_speed (cpuState s))) epsilon).
  - set (s5 := logPush (EvCompleted _ _ _) _).
    assert (log s5 = log s ++
              [EvRunning now (id r) (cpu_speed (cpuState s))
                 (num_max (of_Z 0) (sub64 (remaining r) (cpu_speed (cpuState s))));
               EvCompleted (now + 1) (id r) (abs_deadline r)]) as Hl5
      by (subst s5; cbn; by rewrite <- app_assoc).
    assert (resources s5 = resources s) as Hr5 by done.
    clearbody s5.
    set (r' := runTask now (cpu_speed (cpuState s)) r) in *.
    assert (log (clear_needed r' (release_held now r' s5)) =
              log (release_held now r' s5) /\
            resources (clear_needed r' (release_held now r' s5)) =
              match js_key (needs_resource r) with
              | Some n =>
                  if bool_decide (resources (release_held now r' s5) !! n = Some (id r))
                  then delete n (resources (release_held now r' s5))
                  else resources (release_held now r' s5)
              | None => resources (release_held now r' s5)
              end) as (-> & ->).
    { unfold clear_needed. rewrite Hn, Hid.
      destruct (js_key (needs_resource r)); [|done]. by case_bool_decide. }
    unfold released. destruct (js_key (holds_resource r)) as [h|] eqn:Hhr.
    + destruct (release_held_effect now r' s5 h) as (-> & ->); [by rewrite Hh|].
      rewrite Hl5, Hr5, Hid, <- app_assoc. done.
    + assert (release_held now r' s5 = s5) as ->
        by (unfold release_held; by rewrite Hh, Hhr).
      rewrite Hl5, Hr5. done.
  - done.
Qed.

(** The state in which a task that is not blocked starts to execute. *)
Lemma dispatch_granted now i s r :
  tasks s !! i = Some r -> blocked s r = false ->
  exists s3, dispatch now i s = execute now i s3 /\ tasks s3 = tasks s /\
    cpuState s3 = cpuState s /\ resources s3 = granted r (resources s) /\
    log s3 = log s ++ match js_key (needs_resource r) with
                      | Some res => [EvAcquired now (id r) res]
                      | None => []
                      end.
Proof.
  intros Hr Hb. unfold dispatch, blocked, granted in *.
  cbn [tasks set_running]. rewrite Hr.
  destruct (js_key (needs_resource r)) as [res|].
  - assert (ownedByOther (set_running (Some i) s) r res = false) as -> by done.
    cbn [running logPush set_resources set_running].
    destruct (js_key (holds_resource r)); eexists; (split; [reflexivity|]); done.
  - cbn [running set_running].
    destruct (js_key (holds_resource r)); eexists; (split; [reflexivity|]);
      cbn [tasks cpuState resources log set_resources set_running];
      by rewrite ?app_nil_r.
Qed.

(** The log and the table after the dispatch of the task at index [i]. *)
Lemma dispatch_effect now i s r :
  tasks s !! i = Some r ->
  log (dispatch now i s) = log s ++ linesOf now s (cpuState s) r /\
  resources (dispatch now i s) = tableAfter s (cpuState s) r.
Proof.
  intros Hr. unfold linesOf, tableAfter.
  destruct (blocked s r) eqn:Hb.
  - unfold blocked in Hb. destruct (js_key (needs_resource r)) as [res|] eqn:Hn; [|done].
    rewrite Hb. by rewrite (dispatch_blocked now i s r res).
  - destruct (dispatch_granted now i s r Hr Hb) as (s3 & -> & Ht & Hc & Hres & Hlog).
    rewrite <- Ht in Hr.
    destruct (execute_effect now i s3 r Hr) as (-> & ->).
    rewrite Hc, Hres, Hlog. split; [|done].
    unfold blocked in Hb. destruct (js_key (needs_resource r)) as [res|].
    + rewrite Hb. by rewrite <- app_assoc.
    + by rewrite app_nil_r.
Qed.

End DispatchEffect.

(** ** The log and the table after a tick *)

Lemma foldl_log {A : Type} (P : event -> Prop) (f : state -> A -> state)
    (l : list A) (s : state) :
  (forall s x, exists l', log (f s x) = log s ++ l' /\ Forall P l') ->
  exists l', log (foldl f s l) = log s ++ l' /\ Forall P l'.
Proof.
  intros Hf. revert s. induction l as [|x l IH]; intros s; cbn [foldl].
  - exists []. by rewrite app_nil_r.
  - destruct (IH (f s x)) as (l2 & -> & H2). destruct (Hf s x) as (l1 & -> & H1).
    exists (l1 ++ l2). rewrite <- app_assoc. split; [done|]. by apply Forall_app.
Qed.

Lemma linesOf_life now s s' c t4 t :
  resources s' = resources s -> life t4 = life t ->
  linesOf now s' c t4 = linesOf now s c t.
Proof.
  intros Hres Hl. unfold life, static in Hl.
  injection Hl as Hid _ _ _ Hd _ _ Hh Hn Hr _ _ _ _ _.
  unfold linesOf, completes, ownedByOther, granted.
  by rewrite Hid, Hn, Hh, Hr, Hd, Hres.
Qed.

Lemma tableAfter_life s s' c t4 t :
  resources s' = resources s -> life t4 = life t ->
  tableAfter s' c t4 = tableAfter s c t.
Proof.
  intros Hres Hl. unfold life, static in Hl.
  injection Hl as Hid _ _ _ _ _ _ Hh Hn Hr _ _ _ _ _.
  unfold tableAfter, blocked, completes, released, granted, ownedByOther.
  by rewrite Hid, Hn, Hh, Hr, Hres.
Qed.

Section TickEffect.
Context {host : Host}.

(** Admission and inheritance write lines of the current tick, none of
    which tells what the processor did. *)
Lemma selectAt_log sched now s :
  exists la, log (fst (selectAt sched now s)) = log s ++ la /\
    Forall (fun e => ev_time e = now /\ is_dispatch e = false) la.
Proof.
  unfold selectAt. rewrite chooseNextWithBoost_fst.
  set (P := fun e => ev_time e = now /\ is_dispatch e = false).
  assert (forall s l, log (foldl markEffective s l) = log s) as Hmark
    by (intros s0 l; by apply (foldl_frame log)).
  assert (forall s0, exists l', log (applyPriorityInheritance now s0) = log s0 ++ l' /\
            Forall P l') as Hinh.
  { intros s0. unfold applyPriorityInheritance. cbv zeta.
    change (log s0) with (log (set_tasks (set_boosted false <$> tasks s0) s0)).
    apply foldl_log. intros s1 w. rewrite inheritOne_boostsAt.
    destruct (boostsAt s1 w) as [[[o oid] wid]|].
    - eexists [_]. split; [done|]. by apply Forall_singleton.
    - exists []. by rewrite app_nil_r. }
  assert (exists l', log (admitArrivals now s) = log s ++ l' /\ Forall P l')
    as (l1 & Hl1 & HP1).
  { unfold admitArrivals. apply foldl_log. intros s1 i. unfold admitOne.
    destruct (tasks s1 !! i) as [t|]; [|exists []; by rewrite app_nil_r].
    destruct (_ && _); [|exists []; by rewrite app_nil_r].
    eexists [_]. split; [done|]. by apply Forall_singleton. }
  destruct (Hinh (set_tasks (clearFlags <$> tasks (admitArrivals now s))
                    (admitArrivals now s))) as (l2 & Hl2 & HP2).
  exists (l1 ++ l2). split; [|by apply Forall_app].
  destruct (_ =? _)%nat; rewrite ?Hmark, Hl2; cbn [log set_tasks];
    by rewrite Hl1, app_assoc.
Qed.

(** What a tick appends to the log and makes of the table, of the busy
    counter and of [running]. *)
Lemma tick_effect sched lax now s :
  let sel := selectAt sched now s in
  let s' := fst (tick sched lax now s) in
  match snd sel with
  | None =>
      log s' = log (fst sel) ++ [EvIdle now] /\ resources s' = resources s /\
      cpuBusyTime s' = cpuBusyTime s /\ running s' = running s
  | Some m =>
      exists t, tasks s !! m = Some t /\ isCandidate t = true /\
        log s' = log (fst sel) ++ linesOf now s (cpuState s') t /\
        resources s' = tableAfter s (cpuState s') t /\
        cpuBusyTime s' = cpuBusyTime s + (if blocked s t then 0 else 1) /\
        running s' = (if blocked s t then None else Some m)
  end.
Proof.
  cbv zeta.
  pose proof (tick_machine sched lax now s) as Hm. cbv zeta in Hm.
  destruct Hm as (Hrun & Hbusy & Hres & Hlog & Hcpu & _).
  rewrite Hrun, Hbusy, Hres, Hlog, Hcpu. clear Hrun Hbusy Hres Hlog Hcpu.
  pose proof (selectAt_unadmitted sched now s) as Hu.
  unfold unadmitted in Hu.
  assert (running (fst (selectAt sched now s)) = running s /\
          cpuBusyTime (fst (selectAt sched now s)) = cpuBusyTime s /\
          resources (fst (selectAt sched now s)) = resources s)
    as (Hu1 & Hu2 & Hu3) by (repeat split; congruence).
  clear Hu.
  destruct (snd (selectAt sched now s)) as [m|] eqn:Hsel.
  - destruct (selectAt_candidate sched now s m Hsel) as (t4 & _ & Ht4 & Hc).
    assert (exists t, tasks s !! m = Some t) as (t & Ht).
    { apply lookup_lt_is_Some_2.
      rewrite <- (proj_length (fun _ => tt) _ _
                (selectAt_proj (fun _ => tt) sched now s
                   (conj (fun _ _ => eq_refl) (fun _ _ => eq_refl))
                   (fun _ _ => eq_refl))).
      by eapply lookup_lt_Some. }
    destruct (selectAt_task sched now s m t Ht) as (t4' & Ht4' & Hl & _).
    rewrite Ht4 in Ht4'. injection Ht4' as <-.
    exists t. split; [done|]. split; [by rewrite <- (isCandidate_life _ _ Hl)|].
    destruct (dispatched_some sched lax now s m Hsel) as (c & e & Hd).
    rewrite Hd.
    set (s5 := set_cpu c e (fst (selectAt sched now s))).
    assert (tasks s5 !! m = Some t4) as Ht5 by done.
    assert (resources s5 = resources s) as Hr5 by done.
    destruct (dispatch_effect now m s5 t4 Ht5) as (-> & ->).
    destruct (dispatch_lookup now m s5 t4 Ht5) as (_ & -> & ->).
    assert (blocked s5 t4 = blocked s t) as ->.
    { rewrite <- (blocked_life s t4 t Hl). unfold blocked, ownedByOther. by rewrite Hr5. }
    rewrite (linesOf_life now s s5 _ t4 t Hr5 Hl).
    rewrite (tableAfter_life s s5 _ t4 t Hr5 Hl).
    assert (cpuState (dispatch now m s5) = cpuState s5) as ->.
    { pose proof (dispatch_clock now m s5) as Hc5. unfold clock in Hc5. congruence. }
    split; [done|]. split; [done|]. split; [|done].
    subst s5. cbn [cpuBusyTime set_cpu]. rewrite Hu2. by destruct (blocked s t); lia.
  - unfold dispatched.
    destruct (selectAt sched now s) as [s4 next]. cbn [fst snd] in *. subst next.
    cbn [log resources cpuBusyTime running logPush set_cpu]. done.
Qed.

End TickEffect.

(** ** The log and the counters *)

Lemma chronological_app (l1 l2 : list event) :
  chronological l1 -> chronological l2 ->
  (forall e1 e2, e1 ∈ l1 -> e2 ∈ l2 -> ev_time e1 <= ev_time e2) ->
  chronological (l1 ++ l2).
Proof.
  intros H1 H2 H12 i j e1 e2 Hij Hi Hj.
  apply lookup_app_Some in Hi as [Hi|[Hi1 Hi]], Hj as [Hj|[Hj1 Hj]].
  - by apply (H1 i j).
  - apply H12; apply list_elem_of_lookup; eauto.
  - apply lookup_lt_Some in Hj. lia.
  - apply (H2 (i - length l1)%nat (j - length l1)%nat); [lia|done|done].
Qed.

Lemma chronological_const (l : list event) (z : Z) :
  Forall (fun e => ev_time e = z) l -> chronological l.
Proof.
  intros H i j e1 e2 _ Hi Hj. rewrite Forall_forall in H.
  rewrite (H e1), (H e2); [lia| |]; apply list_elem_of_lookup; eauto.
Qed.

Lemma ticksOf_app l1 l2 : ticksOf (l1 ++ l2) = ticksOf l1 + ticksOf l2.
Proof. unfold ticksOf. rewrite List.filter_app, length_app. lia. Qed.

Lemma runningLines_app l1 l2 :
  runningLines (l1 ++ l2) = runningLines l1 + runningLines l2.
Proof. unfold runningLines. rewrite List.filter_app, length_app. lia. Qed.

Lemma no_dispatch_lines (l : list event) (P : event -> Prop) :
  Forall (fun e => P e /\ is_dispatch e = false) l ->
  ticksOf l = 0 /\ runningLines l = 0.
Proof.
  induction 1 as [|e l [_ He] _ [IH1 IH2]]; [done|].
  unfold ticksOf, runningLines in *. cbn [List.filter]. rewrite He.
  assert (is_running e = false) as -> by (by destruct e). done.
Qed.

(** The lines of a dispatch: those of the tick, then those stamped with
    the next tick; one of them tells what the processor did. *)
Lemma linesOf_shape now s c t :
  exists l1 l2, linesOf now s c t = l1 ++ l2 /\
    Forall (fun e => ev_time e = now) l1 /\
    Forall (fun e => ev_time e = now + 1) l2 /\
    ticksOf (l1 ++ l2) = 1 /\
    runningLines (l1 ++ l2) = (if blocked s t then 0 else 1).
Proof.
  unfold linesOf, blocked.
  set (run := EvRunning _ _ _ _). set (done_ := EvCompleted _ _ _).
  destruct (js_key (needs_resource t)) as [res|].
  - destruct (ownedByOther s t res).
    + exists [EvBlocked now (id t) res], []. repeat split; by repeat constructor.
    + destruct (completes c t).
      * destruct (js_key (holds_resource t)) as [h|]; [case_bool_decide|].
        -- exists [EvAcquired now (id t) res; run], [done_; EvReleased (now + 1) (id t) h].
           repeat split; by repeat constructor.
        -- exists [EvAcquired now (id t) res; run], [done_].
           repeat split; by repeat constructor.
        -- exists [EvAcquired now (id t) res; run], [done_].
           repeat split; by repeat constructor.
      * exists [EvAcquired now (id t) res; run], [].
        repeat split; by repeat constructor.
  - destruct (completes c t).
    + destruct (js_key (holds_resource t)) as [h|]; [case_bool_decide|].
      * exists [run], [done_; EvReleased (now + 1) (id t) h].
        repeat split; by repeat constructor.
      * exists [run], [done_]. repeat split; by repeat constructor.
      * exists [run], [done_]. repeat split; by repeat constructor.
    + exists [run], []. repeat split; by repeat constructor.
Qed.

Section Counters.
Context {host : Host}.

Lemma tick_log sched lax now s :
  let s' := fst (tick sched lax now s) in
  exists l1 l2, log s' = log s ++ l1 ++ l2 /\
    Forall (fun e => ev_time e = now) l1 /\
    Forall (fun e => ev_time e = now + 1) l2 /\
    ticksOf (l1 ++ l2) = 1 /\
    runningLines (l1 ++ l2) = cpuBusyTime s' - cpuBusyTime s.
Proof.
  cbv zeta. destruct (selectAt_log sched now s) as (la & Hla & HPa).
  destruct (no_dispatch_lines la _ HPa) as (Hta & Hra).
  assert (Forall (fun e => ev_time e = now) la) as Hnow
    by (eapply Forall_impl; [exact HPa|]; by intros e [? _]).
  pose proof (tick_effect sched lax now s) as He. cbv zeta in He.
  destruct (snd (selectAt sched now s)) as [m|].
  - destruct He as (t & _ & _ & Hlog & _ & Hbusy & _).
    destruct (linesOf_shape now s (cpuState (fst (tick sched lax now s))) t)
      as (l1 & l2 & Hl & H1 & H2 & Ht & Hr).
    exists (la ++ l1), l2. rewrite Hlog, Hla, Hl, Hbusy, <- !app_assoc.
    split; [done|]. split; [by apply Forall_app|]. split; [done|].
    rewrite ticksOf_app, runningLines_app, Hta, Hra, Ht, Hr.
    split; [done|]. destruct (blocked s t); lia.
  - destruct He as (Hlog & _ & Hbusy & _).
    exists (la ++ [EvIdle now]), []. rewrite Hlog, Hla, Hbusy, app_nil_r, <- app_assoc.
    split; [done|]. split; [apply Forall_app; split; [done|by repeat constructor]|].
    split; [done|]. rewrite ticksOf_app, runningLines_app, Hta, Hra.
    split; [done|]. change (runningLines [EvIdle now]) with 0. lia.
Qed.

Lemma tick_counted sched lax now s :
  0 <= now -> counted sched now s -> counted sched (now + 1) (fst (tick sched lax now s)).
Proof.
  intros Hnow (Hchr & Hbound & Hticks & Hrun & Hen & Hhigh).
  destruct (tick_log sched lax now s) as (l1 & l2 & Hlog & H1 & H2 & Ht & Hr).
  cbv zeta in Hr.
  pose proof (tick_clock sched lax now s) as Hc. cbv zeta in Hc.
  destruct Hc as (_ & _ & He).
  unfold counted. rewrite Hlog, He. rewrite Forall_forall in Hbound, H1, H2.
  split; [|split; [|split; [|split; [|split]]]].
  - apply chronological_app; [done| |].
    + apply chronological_app;
        [by eapply chronological_const, Forall_forall
        |by eapply chronological_const, Forall_forall|].
      intros e1 e2 He1 He2. rewrite (H1 e1 He1), (H2 e2 He2). lia.
    + intros e1 e2 He1%Hbound [He2%H1|He2%H2]%elem_of_app; lia.
  - apply Forall_forall. intros e [He0%Hbound|[He0%H1|He0%H2]%elem_of_app]%elem_of_app; lia.
  - rewrite ticksOf_app. lia.
  - rewrite runningLines_app. lia.
  - destruct (governor _ _ _ _); cbn [cpu_power]; lia.
  - intros Hs. rewrite (Hhigh Hs). unfold governor.
    apply String.eqb_neq in Hs. rewrite Hs. cbn [cpu_power]. lia.
Qed.

Lemma init_counted sched (ds : list descriptor) :
  counted sched 0 (init (normalize <$> ds)).
Proof.
  unfold counted. cbn [log init totalEnergy cpuBusyTime].
  split; [by intros i j e1 e2 _ Hi|]. split; [by apply Forall_nil|]. done.
Qed.

End Counters.

(** ** The end of the loop *)

Lemma allDone_finished (s : state) : allDone s = true <-> finished (tasks s).
Proof.
  unfold allDone, finished. rewrite andb_true_iff, !Nat.eqb_eq, !length_zero_iff_nil.
  split.
  - intros [H1 H2]. apply Forall_forall. intros t Ht.
    destruct (admitted t) eqn:Ha.
    + split; [done|]. destruct (completed t) eqn:Hc; [done|].
      assert (t ∈ List.filter (fun t => negb (completed t) && admitted t) (tasks s)) as Hin
        by (apply filter_elem; by rewrite Hc, Ha).
      rewrite H1 in Hin. by apply elem_of_nil in Hin.
    + assert (t ∈ List.filter (fun t => negb (admitted t)) (tasks s)) as Hin
        by (apply filter_elem; by rewrite Ha).
      rewrite H2 in Hin. by apply elem_of_nil in Hin.
  - intros H. rewrite Forall_forall in H. split.
    + destruct (List.filter _ (tasks s)) as [|t l] eqn:E; [done|].
      assert (t ∈ List.filter (fun t => negb (completed t) && admitted t) (tasks s)) as Hin
        by (rewrite E; apply list_elem_of_here).
      apply filter_elem in Hin as [Hin Hf]. destruct (H t Hin) as [_ Hc].
      by rewrite Hc in Hf.
    + destruct (List.filter (fun t => negb (admitted t)) (tasks s)) as [|t l] eqn:E; [done|].
      assert (t ∈ List.filter (fun t => negb (admitted t)) (tasks s)) as Hin
        by (rewrite E; apply list_elem_of_here).
      apply filter_elem in Hin as [Hin Hf]. destruct (H t Hin) as [Ha _].
      by rewrite Ha in Hf.
Qed.

Section TheEnd.
Context {host : Host}.

Lemma tick_stamped sched lax now s :
  stamped (timeline s) -> Z.of_nat (length (timeline s)) = now ->
  stamped (timeline (fst (tick sched lax now s))).
Proof.
  intros Hst Hlen. rewrite tick_timeline.
  destruct (snd (tick sched lax now s)); [done|].
  intros k sn [Hk|[Hk1 Hk]]%lookup_app_Some; [by apply Hst|].
  apply list_lookup_singleton_Some in Hk as [Hk <-]. cbn [snap_time snapshotOf]. lia.
Qed.

(** The state in which a run ends, with the number of ticks made. *)
Lemma simulate_ended ds sched totalTime lax :
  let s := simulate ds sched totalTime lax in
  exists k, 0 <= k <= maxTicks totalTime /\
    runInv k s /\ counted sched k s /\ stamped (timeline s) /\ ended totalTime k s.
Proof.
  cbv zeta. unfold simulate.
  set (n := Z.to_nat (totalTime + 1)).
  set (I := fun now s => runInv now s /\ counted sched now s /\ stamped (timeline s) /\
              Z.of_nat (length (timeline s)) = now /\ (0 < now -> allDone s = false)).
  set (F := fun now s => runInv now s /\ counted sched now s /\ stamped (timeline s) /\
              Z.of_nat (length (timeline s)) + 1 = now /\ allDone s = true).
  destruct (loop_run I F sched lax) with (n := n) (now := 0)
    (s := init (normalize <$> ds)) as [H|(k & Hk & H)].
  - intros now s (Hinv & Hcnt & Hst & Hlen & _) Hgo.
    split; [by apply tick_runInv|]. split; [apply tick_counted; [apply Hinv|done]|].
    split; [by apply tick_stamped|].
    split; [rewrite tick_timeline, Hgo, length_app; cbn [length]; lia|].
    intros _. by rewrite <- tick_stop.
  - intros now s (Hinv & Hcnt & Hst & Hlen & _) Hstop.
    split; [by apply tick_runInv|]. split; [apply tick_counted; [apply Hinv|done]|].
    split; [by apply tick_stamped|].
    split; [rewrite tick_timeline, Hstop; lia|]. by rewrite <- tick_stop.
  - split; [apply init_runInv|]. split; [apply init_counted|].
    split; [by intros k sn Hk|]. split; [done|lia].
  - destruct H as (Hinv & Hcnt & Hst & Hlen & Hgo).
    exists (Z.of_nat n). unfold maxTicks. split; [lia|].
    rewrite Z.add_0_l in *. repeat (split; [done|]).
    left. split; [unfold maxTicks; lia|done].
  - destruct H as (Hinv & Hcnt & Hst & Hlen & Hstop).
    exists (Z.of_nat k + 1). unfold maxTicks. split; [lia|].
    rewrite Z.add_0_l in *. repeat (split; [done|]).
    right. split; [lia|done].
Qed.

End TheEnd.

(** ** The result of a run *)

Lemma foldr_max_bounds (z b : Z) (l : list Z) :
  z <= foldr Z.max z l /\
  (z <= b -> Forall (fun x => x <= b) l -> foldr Z.max z l <= b).
Proof.
  induction l as [|x l [IH1 IH2]]; cbn [foldr]; [lia|]. split; [lia|].
  intros Hz [Hx Hl]%Forall_cons. specialize (IH2 Hz Hl). lia.
Qed.

Lemma num_div_positive (a b : Z) :
  0 <= a -> 0 < b ->
  exists q, num_div (of_Z a) (of_Z b) = Fin q /\ (q == inject_Z a / inject_Z b)%Q.
Proof.
  intros Ha Hb. unfold of_Z. cbn [num_div].
  assert (Qsgn (inject_Z b) = Gt) as ->.
  { unfold Qsgn. apply (proj1 (Qgt_alt _ _)). change 0%Q with (inject_Z 0).
    by rewrite <- Zlt_Qlt. }
  eexists. split; [done|]. apply Qred_correct.
Qed.

Section Results.
Context {host : Host}.

(** X1. In the result of a run the history of a task has at most one
    segment. A task that never ran has none, and all of its work left. A
    task that ran has exactly one run segment, however often it was
    preempted and resumed; the segment starts at the tick that
    start_time records, which is not before the arrival of the task, and
    ends later, within the ticks of the loop. *)
Theorem history_is_one_segment (ds : list descriptor) (scheduler : string)
    (totalTime : Z) (laxityThreshold : num) :
  Forall (fun t =>
    if started t then
      exists a e,
        start_time t = JNum (of_Z a) /\
        history t = [{| seg_start := a; seg_end := e; seg_state := "run" |}] /\
        0 <= a /\ a < e /\ e <= maxTicks totalTime /\
        num_leb (arrival t) (of_Z a) = true
    else history t = [] /\ remaining t = exec t)
  (r_tasks (runSimulation ds scheduler totalTime laxityThreshold)).
Proof.
  destruct (simulate_ended ds scheduler totalTime laxityThreshold)
    as (k & Hk & (_ & _ & _ & Hlife) & _).
  unfold runSimulation. cbn [r_tasks metrics]. apply Forall_forall.
  intros t (j & Hj)%list_elem_of_lookup. specialize (Hlife j t Hj).
  unfold lifecycle in Hlife. destruct (started t).
  - destruct Hlife as (a & e & H1 & H2 & H3 & H4 & H5 & H6 & _).
    exists a, e. repeat (split; [done || lia|]). done.
  - tauto.
Qed.

(** X2. In the result of a run a completed task has completion_time at
    the end of its history segment, within the ticks of the loop, and
    its remaining work is at most 0.0001 and at least -1: the last
    decrement overshoots by one unit of work at most. A task that is not
    completed has no completion time and, if it ever ran, more than
    0.0001 of work left. *)
Theorem completion_closes_the_segment (ds : list descriptor) (scheduler : string)
    (totalTime : Z) (laxityThreshold : num) :
  Forall (fun t =>
    if completed t then
      exists a e,
        history t = [{| seg_start := a; seg_end := e; seg_state := "run" |}] /\
        completion_time t = Some e /\ 0 < e /\ e <= maxTicks totalTime /\
        num_leb (remaining t) epsilon = true /\
        num_leb (of_Z (-1)) (remaining t) = true
    else
      completion_time t = None /\
      (started t = false \/ num_gtb (remaining t) epsilon = true))
  (r_tasks (runSimulation ds scheduler totalTime laxityThreshold)).
Proof.
  destruct (simulate_ended ds scheduler totalTime laxityThreshold)
    as (k & Hk & (_ & _ & _ & Hlife) & _).
  unfold runSimulation. cbn [r_tasks metrics]. apply Forall_forall.
  intros t (j & Hj)%list_elem_of_lookup. specialize (Hlife j t Hj).
  unfold lifecycle in Hlife. destruct (started t).
  - destruct Hlife as (a & e & H1 & H2 & H3 & H4 & H5 & H6 & H7).
    destruct (completed t).
    + exists a, e. destruct H7 as (? & ? & ?). repeat (split; [done || lia|]). done.
    + destruct H7. auto.
  - destruct Hlife as (_ & -> & ? & _). auto.
Qed.

Lemma completion_bound now s :
  runInv now s -> Forall (fun x => x <= now) (completion_or_0 <$> tasks s).
Proof.
  intros (Hnow & _ & _ & Hlife). apply Forall_forall.
  intros x (t & -> & (j & Hj)%list_elem_of_lookup)%list_elem_of_fmap.
  specialize (Hlife j t Hj). unfold lifecycle, completion_or_0 in *.
  destruct (started t).
  - destruct Hlife as (a & e & _ & _ & _ & _ & He & _ & H7).
    destruct (completed t); [destruct H7 as (-> & _)|destruct H7 as (-> & _)]; lia.
  - destruct Hlife as (_ & _ & -> & _). lia.
Qed.

Lemma busy_bound sched now s :
  counted sched now s -> 0 <= cpuBusyTime s <= now.
Proof.
  intros (_ & _ & <- & <- & _). unfold runningLines, ticksOf. split; [lia|].
  apply inj_le. induction (log s) as [|e l IH]; [done|]. cbn [List.filter].
  destruct e; cbn [is_running is_dispatch length]; lia.
Qed.

(** X3. The simulated time of the result is totalTime, or one more when
    a task completes on the last tick; the busy counter is at most the
    number of iterations of the loop, totalTime + 1, so the utilization,
    which divides it by the simulated time, is a number from 0 to 2 that
    can exceed 1: a run of 11 ticks in which one task is busy throughout
    reports 11/10. *)
Theorem simulated_time_and_utilization (ds : list descriptor) (scheduler : string)
    (totalTime : Z) (laxityThreshold : num) :
  let res := runSimulation ds scheduler totalTime laxityThreshold in
  (totalTime <= r_totalSimTime res /\ r_totalSimTime res <= maxTicks totalTime) /\
  (0 <= r_cpuBusyTime res /\ r_cpuBusyTime res <= maxTicks totalTime) /\
  (exists q, r_cpuUtilization res = Fin q /\ (0 <= q)%Q /\ (q <= 2)%Q) /\
  r_cpuUtilization (runSimulation (host := evalHost) longTask "edf" 10 (of_Z 20)) =
    Fin (11 # 10).
Proof.
  cbv zeta.
  destruct (simulate_ended ds scheduler totalTime laxityThreshold)
    as (k & Hk & Hinv & Hcnt & _).
  pose proof (completion_bound _ _ Hinv) as Hcb.
  pose proof (busy_bound _ _ _ Hcnt) as Hbusy.
  unfold runSimulation.
  cbn [r_totalSimTime r_cpuBusyTime r_cpuUtilization metrics].
  set (s := simulate ds scheduler totalTime laxityThreshold) in *.
  destruct (foldr_max_bounds totalTime (maxTicks totalTime)
              (completion_or_0 <$> tasks s)) as (Hlo & Hhi).
  assert (foldr Z.max totalTime (completion_or_0 <$> tasks s) <= maxTicks totalTime)
    as Hsim.
  { apply Hhi; [unfold maxTicks; lia|].
    eapply Forall_impl; [exact Hcb|]. cbv beta. intros x Hx. lia. }
  set (sim := foldr Z.max totalTime (completion_or_0 <$> tasks s)) in *.
  split; [done|]. split; [lia|]. split.
  - destruct (num_div_positive (cpuBusyTime s) (Z.max sim 1)) as (q & -> & Hq); [lia|lia|].
    exists q. split; [done|]. rewrite Hq.
    assert (0 < inject_Z (Z.max sim 1))%Q as Hpos
      by (change 0%Q with (inject_Z 0); rewrite <- Zlt_Qlt; lia).
    split.
    + apply Qle_shift_div_l; [done|]. rewrite Qmult_0_l.
      change 0%Q with (inject_Z 0). rewrite <- Zle_Qle. lia.
    + apply Qle_shift_div_r; [done|]. change 2%Q with (inject_Z 2).
      rewrite <- inject_Z_mult, <- Zle_Qle. unfold maxTicks in *. lia.
  - vm_compute. reflexivity.
Qed.

(** X4. The energy of the result is the sum over the ticks made of the
    power of the CPU state of the tick: between 3 and 10 units per tick,
    and exactly 10 per tick under every discipline but energy-hybrid,
    idle and blocked ticks included. The ticks made are those the log
    tells of, at most totalTime + 1. *)
Theorem energy_by_ticks (ds : list descriptor) (scheduler : string)
    (totalTime : Z) (laxityThreshold : num) :
  let res := runSimulation ds scheduler totalTime laxityThreshold in
  let n := ticksOf (r_log res) in
  (0 <= n /\ n <= maxTicks totalTime) /\
  (3 * n <= r_totalEnergy res /\ r_totalEnergy res <= 10 * n) /\
  (scheduler = "energy-hybrid" \/ r_totalEnergy res = 10 * n).
Proof.
  cbv zeta.
  destruct (simulate_ended ds scheduler totalTime laxityThreshold)
    as (k & Hk & _ & (_ & _ & Ht & _ & He & Hhigh) & _).
  unfold runSimulation. cbn [r_log r_totalEnergy metrics]. rewrite Ht.
  split; [lia|]. split; [lia|].
  destruct (decide (scheduler = "energy-hybrid")); auto.
Qed.

(** X5. The log of a run is in chronological order: the time stamp of a
    line is never smaller than that of a line before it. Every stamp is
    between 0 and the number of ticks made. *)
Theorem log_is_chronological (ds : list descriptor) (scheduler : string)
    (totalTime : Z) (laxityThreshold : num) :
  let res := runSimulation ds scheduler totalTime laxityThreshold in
  chronological (r_log res) /\
  Forall (fun e => 0 <= ev_time e /\ ev_time e <= ticksOf (r_log res)) (r_log res).
Proof.
  cbv zeta.
  destruct (simulate_ended ds scheduler totalTime laxityThreshold)
    as (k & Hk & _ & (Hchr & Hb & Ht & _) & _).
  unfold runSimulation. cbn [r_log metrics]. by rewrite Ht.
Qed.

(** X6. The busy counter of the result is the number of running lines in
    the log: the ticks at which a task was selected and not blocked. The
    other ticks have a blocked line or an idle line. *)
Theorem busy_time_counts_running_lines (ds : list descriptor) (scheduler : string)
    (totalTime : Z) (laxityThreshold : num) :
  let res := runSimulation ds scheduler totalTime laxityThreshold in
  r_cpuBusyTime res = runningLines (r_log res) /\
  r_cpuBusyTime res <= ticksOf (r_log res).
Proof.
  cbv zeta.
  destruct (simulate_ended ds scheduler totalTime laxityThreshold)
    as (k & Hk & _ & Hcnt & _).
  pose proof (busy_bound _ _ _ Hcnt) as Hbusy.
  destruct Hcnt as (_ & _ & Ht & Hr & _).
  unfold runSimulation. cbn [r_log r_cpuBusyTime metrics]. rewrite Ht, Hr. lia.
Qed.

(** X7. The timeline of the result has the snapshot of tick k at
    position k. Either the loop ran to its bound, and there is a snapshot
    for each of the totalTime + 1 ticks; or it ended early, every task is
    then admitted and completed, and the tick that ended it has no
    snapshot. *)
Theorem timeline_has_one_snapshot_per_tick (ds : list descriptor)
    (scheduler : string) (totalTime : Z) (laxityThreshold : num) :
  let res := runSimulation ds scheduler totalTime laxityThreshold in
  let n := ticksOf (r_log res) in
  stamped (r_timeline res) /\
  ((n = maxTicks totalTime /\ Z.of_nat (length (r_timeline res)) = n) \/
   (finished (r_tasks res) /\ Z.of_nat (length (r_timeline res)) + 1 = n)).
Proof.
  cbv zeta.
  destruct (simulate_ended ds scheduler totalTime laxityThreshold)
    as (k & Hk & _ & (_ & _ & Ht & _) & Hst & Hend).
  unfold runSimulation. cbn [r_log r_timeline r_tasks metrics]. rewrite Ht.
  split; [done|]. destruct Hend as [(-> & Hlen & _)|(_ & Hlen & Hdone)].
  - by left.
  - right. split; [by apply allDone_finished|done].
Qed.

End Results.

(** ** Admission *)

Section Admission.
Context {host : Host}.

Lemma loop_static sched lax n now s :
  wf s -> static <$> tasks (loop sched lax n now s) = static <$> tasks s.
Proof.
  intros Hwf.
  destruct (loop_keeps (fun _ s' => wf s' /\ static <$> tasks s' = static <$> tasks s)
              sched lax) with (n := n) (now := now) (s := s) as (k & _ & _ & H);
    [|done|done].
  intros now' s' [Hwf' Hs']. split; [by apply tick_wf|].
  by rewrite tick_static.
Qed.

Lemma tick_admittedBy ds sched lax now s :
  0 <= now -> wf s -> admittedBy ds now s ->
  admittedBy ds (now + 1) (fst (tick sched lax now s)).
Proof.
  intros Hnow Hwf Hadm j d t' Hd Ht'.
  destruct (tick_lookup_back sched lax now s j t' Ht') as (t & Ht).
  destruct (tick_life sched lax now s j t Hwf Ht) as (t'' & Ht'' & Hl & Ha & _).
  rewrite Ht' in Ht''. injection Ht'' as <-.
  assert (arrival t' = arrival t) as ->.
  { rewrite (static_arrival _ _ (life_static _ _ Hl)).
    destruct (runsAt _ _ _ _); [|done]. apply static_arrival, ranTask_run. }
  rewrite Ha. unfold arrives.
  assert (forall a b : bool, a || negb a && b = a || b) as -> by (by intros [] []).
  rewrite (Hadm j d t Hd Ht).
  replace (now + 1 - 1) with now by lia.
  assert ((0 <? now + 1) = true) as -> by lia. cbn [andb].
  destruct (truthy (d_admitted d)); [done|]. cbn [orb].
  destruct (num_leb (arrival t) (of_Z now)) eqn:E; [by rewrite orb_true_r|].
  rewrite orb_false_r.
  destruct (0 <? now); [|done]. cbn [andb].
  destruct (num_leb (arrival t) (of_Z (now - 1))) eqn:E'; [|done].
  rewrite (num_leb_mono _ (now - 1) now) in E; [done|done|lia].
Qed.

(** X8. The result has one task per descriptor, in the order of the
    input, and the run has changed none of the fields that describe the
    task: id, arrival, exec, the deadlines, period, criticality and the
    resource names are those the normaliser wrote. *)
Theorem run_keeps_task_descriptions (ds : list descriptor) (scheduler : string)
    (totalTime : Z) (laxityThreshold : num) :
  static <$> r_tasks (runSimulation ds scheduler totalTime laxityThreshold) =
    static <$> (normalize <$> ds).
Proof.
  unfold runSimulation, simulate. cbn [r_tasks metrics].
  rewrite loop_static by apply init_wf. done.
Qed.

Lemma run_static_lookup (ds : list descriptor) (scheduler : string)
    (totalTime : Z) (laxityThreshold : num) (j : nat) (d : descriptor) (t : task) :
  ds !! j = Some d ->
  r_tasks (runSimulation ds scheduler totalTime laxityThreshold) !! j = Some t ->
  static t = static (normalize d).
Proof.
  intros Hd Ht. unfold runSimulation, simulate in Ht. cbn [r_tasks metrics] in Ht.
  eapply (proj_lookup_eq static); [|apply (normalize_lookup ds j d Hd)|exact Ht].
  apply loop_static, init_wf.
Qed.

(** X9. At the end of a run a task is admitted exactly when its
    descriptor came with a truthy [admitted] field or its arrival is at
    most totalTime. The comparison is that of the numbers: a task whose
    arrival is NaN is never admitted. *)
Theorem admission_by_arrival (ds : list descriptor) (scheduler : string)
    (totalTime : Z) (laxityThreshold : num) :
  Forall2 (fun d t =>
    admitted t =
      truthy (d_admitted d) ||
      (0 <=? totalTime) && num_leb (arrival (normalize d)) (of_Z totalTime))
    ds (r_tasks (runSimulation ds scheduler totalTime laxityThreshold)).
Proof.
  pose proof (run_static_lookup ds scheduler totalTime laxityThreshold) as Hst.
  unfold runSimulation, simulate in *. cbn [r_tasks metrics] in *.
  set (n := Z.to_nat (totalTime + 1)) in *.
  set (I := fun now s => 0 <= now /\ wf s /\ admittedBy ds now s /\
              (0 < now -> allDone s = false)).
  set (F := fun now s => admittedBy ds now s /\ allDone s = true).
  apply Forall2_same_length_lookup.
  split; [rewrite loop_length; cbn [tasks init]; by rewrite length_fmap|].
  intros j d t Hd Ht.
  specialize (Hst j d t Hd Ht).
  rewrite <- (static_arrival _ _ Hst).
  destruct (loop_run I F scheduler laxityThreshold) with (n := n) (now := 0)
    (s := init (normalize <$> ds)) as [H|(k & Hk & H)].
  - intros now s (Hnow & Hwf & Hadm & _) Hgo.
    split; [lia|]. split; [by apply tick_wf|]. split; [by apply tick_admittedBy|].
    intros _. by rewrite <- tick_stop.
  - intros now s (Hnow & Hwf & Hadm & _) Hstop.
    split; [by apply tick_admittedBy|]. by rewrite <- tick_stop.
  - split; [done|]. split; [apply init_wf|]. split; [|lia].
    intros j' d' t' Hd' Ht'. cbn [tasks init] in Ht'.
    rewrite list_lookup_fmap, Hd' in Ht'. injection Ht' as <-.
    cbn [admitted normalize]. by rewrite orb_false_r.
  - destruct H as (_ & _ & Hadm & _). rewrite (Hadm j d t Hd Ht).
    rewrite Z.add_0_l. f_equal.
    destruct (0 <=? totalTime) eqn:E.
    + replace (Z.of_nat n - 1) with totalTime by lia.
      assert ((0 <? Z.of_nat n) = true) as -> by lia. done.
    + assert ((0 <? Z.of_nat n) = false) as -> by lia. done.
  - destruct H as (Hadm & Hdone%allDone_finished).
    unfold finished in Hdone. rewrite Forall_forall in Hdone.
    destruct (Hdone t) as [Ha _]; [apply list_elem_of_lookup; eauto|].
    specialize (Hadm j d t Hd Ht). rewrite Ha in Hadm. rewrite Ha.
    destruct (truthy (d_admitted d)); [done|]. cbn [orb] in *.
    assert ((0 <=? totalTime) = true) as -> by lia. cbn [andb].
    symmetry in Hadm. apply andb_true_iff in Hadm as [_ Hadm].
    symmetry. apply (num_leb_mono _ _ _ Hadm). lia.
Qed.

End Admission.

(** ** Ownership *)

Lemma granted_key t m r :
  keyOf t r -> r <> "__proto__" -> granted t m !! r = Some (id t).
Proof.
  unfold keyOf, granted. intros Hk Hp.
  destruct (js_key (holds_resource t)) as [h|], (js_key (needs_resource t)) as [n|];
    rewrite ?lookup_assign; destruct Hk as [[= ->]|[= ->]];
    repeat case_decide; try done; exfalso; intuition.
Qed.

Lemma granted_other t m r :
  ~ keyOf t r \/ r = "__proto__" -> granted t m !! r = m !! r.
Proof.
  unfold keyOf, granted. intros Hk.
  destruct (js_key (holds_resource t)) as [h|], (js_key (needs_resource t)) as [n|];
    rewrite ?lookup_assign; repeat case_decide; try done;
    destruct_and?; simplify_eq; exfalso; destruct Hk as [Hk|Hk]; auto.
Qed.

Lemma released_named t m r :
  keyOf t r -> m !! r = Some (id t) -> released t m !! r = None.
Proof.
  unfold keyOf, released. intros Hk Hr.
  destruct (js_key (holds_resource t)) as [h|], (js_key (needs_resource t)) as [n|].
  - destruct (decide (h = n)) as [->|Hne].
    + destruct Hk as [[= ->]|[= ->]];
        rewrite (bool_decide_eq_true_2 _ Hr);
        rewrite bool_decide_eq_false_2 by (by rewrite lookup_delete_eq);
        apply lookup_delete_eq.
    + destruct Hk as [[= ->]|[= ->]].
      * rewrite (bool_decide_eq_true_2 _ Hr).
        destruct (bool_decide (delete r m !! n = Some (id t))).
        -- rewrite lookup_delete_ne by done. apply lookup_delete_eq.
        -- apply lookup_delete_eq.
      * destruct (bool_decide (m !! h = Some (id t))).
        -- rewrite bool_decide_eq_true_2 by (by rewrite lookup_delete_ne).
           apply lookup_delete_eq.
        -- rewrite (bool_decide_eq_true_2 _ Hr). apply lookup_delete_eq.
  - destruct Hk as [[= ->]|[=]]. rewrite (bool_decide_eq_true_2 _ Hr).
    apply lookup_delete_eq.
  - destruct Hk as [[=]|[= ->]]. rewrite (bool_decide_eq_true_2 _ Hr).
    apply lookup_delete_eq.
  - by destruct Hk.
Qed.

Lemma released_key t m r :
  keyOf t r -> r <> "__proto__" -> released t (granted t m) !! r = None.
Proof. intros Hk Hp. apply released_named; [done|by apply granted_key]. Qed.

(** Completion only removes entries, and leaves none that names the task
    under a resource of the task. *)
Lemma released_lookup t m r oid :
  released t m !! r = Some oid -> m !! r = Some oid /\ (keyOf t r -> oid <> id t).
Proof.
  unfold keyOf, released.
  destruct (js_key (holds_resource t)) as [h|], (js_key (needs_resource t)) as [n|];
    repeat case_bool_decide; intros Hr;
    repeat match goal with
    | H : context [delete ?k _ !! ?k'] |- _ =>
        destruct (decide (k = k')) as [->|?];
        [rewrite lookup_delete_eq in H|rewrite lookup_delete_ne in H by done]
    end; try done; split; try done; intros [[= ->]|[= ->]]; congruence.
Qed.

Lemma classic_keyOf t r : keyOf t r \/ ~ keyOf t r.
Proof. unfold keyOf. destruct (decide (js_key (holds_resource t) = Some r \/
                                       js_key (needs_resource t) = Some r)); auto. Qed.

Lemma keyOf_life t' t r : life t' = life t -> keyOf t' r -> keyOf t r.
Proof.
  unfold life, static, keyOf. intros H.
  assert (holds_resource t' = holds_resource t /\
          needs_resource t' = needs_resource t) as [-> ->] by (split; congruence).
  done.
Qed.

Section Ownership.
Context {host : Host}.

Lemma tick_owners sched lax now s :
  wf s -> unfinishedOwners s -> unfinishedOwners (fst (tick sched lax now s)).
Proof.
  intros Hwf Hown r oid Hr.
  pose proof (tick_effect sched lax now s) as He. cbv zeta in He.
  (* the witness among the tasks after the tick, from one before it *)
  assert (forall j t, tasks s !! j = Some t ->
            runsAt s (snd (selectAt sched now s)) j t = false ->
            id t = oid -> started t = true -> completed t = false -> keyOf t r ->
            exists j' t', tasks (fst (tick sched lax now s)) !! j' = Some t' /\
              id t' = oid /\ started t' = true /\ completed t' = false /\ keyOf t' r)
    as Hkeep.
  { intros j t Ht Hrun Hid Hs Hc Hk.
    destruct (tick_life sched lax now s j t Hwf Ht) as (t' & Ht' & Hl & _).
    rewrite Hrun in Hl. exists j, t'. split; [done|].
    unfold life, static in Hl.
    assert (id t' = id t /\ started t' = started t /\ completed t' = completed t /\
            holds_resource t' = holds_resource t /\
            needs_resource t' = needs_resource t) as (-> & -> & -> & Hh & Hn)
      by (repeat split; congruence).
    unfold keyOf. by rewrite Hh, Hn. }
  destruct (snd (selectAt sched now s)) as [m|] eqn:Hsel.
  - destruct He as (t & Ht & Hc & _ & Hres & _ & _).
    rewrite Hres in Hr. unfold tableAfter in Hr.
    assert (forall j, j <> m -> forall tj, runsAt s (Some m) j tj = false) as Hothers.
    { intros j Hj tj. unfold runsAt. rewrite bool_decide_eq_false_2; [done|congruence]. }
    destruct (blocked s t) eqn:Hb.
    + destruct (Hown r oid Hr) as (j & tj & Htj & Hid & Hs & Hcj & Hk).
      apply (Hkeep j tj); try done.
      unfold runsAt. destruct (decide (j = m)) as [->|Hj]; [|by apply Hothers].
      rewrite Ht in Htj. injection Htj as <-. by rewrite Hb, andb_false_r.
    + destruct (tick_life sched lax now s m t Hwf Ht) as (t' & Ht' & Hl & _).
      assert (runsAt s (Some m) m t = true) as Hrun
        by (unfold runsAt; rewrite bool_decide_eq_true_2 by done; by rewrite Hb).
      rewrite Hsel, Hrun in Hl.
      set (c := cpuState (fst (tick sched lax now s))) in *.
      destruct (ranTask_run now (cpu_speed c) t) as (Hst & Hs' & _).
      pose proof (ranTask_completed now (cpu_speed c) t) as Hc'.
      apply andb_true_iff in Hc as [_ Hnc%negb_true_iff]. rewrite Hnc in Hc'.
      cbn [orb] in Hc'. fold (completes c t) in Hc'.
      assert (id t' = id t /\ started t' = true /\ completed t' = completes c t /\
              forall k, keyOf t k -> keyOf t' k) as (Hid' & Hst' & Hct' & Hk').
      { unfold life in Hl. unfold static in Hst.
        assert (id t' = id (ranTask now (cpu_speed c) t) /\
                started t' = started (ranTask now (cpu_speed c) t) /\
                completed t' = completed (ranTask now (cpu_speed c) t) /\
                holds_resource t' = holds_resource (ranTask now (cpu_speed c) t) /\
                needs_resource t' = needs_resource (ranTask now (cpu_speed c) t))
          as (-> & -> & -> & Hh & Hn) by (unfold static in Hl; repeat split; congruence).
        assert (id (ranTask now (cpu_speed c) t) = id t /\
                holds_resource (ranTask now (cpu_speed c) t) = holds_resource t /\
                needs_resource (ranTask now (cpu_speed c) t) = needs_resource t)
          as (-> & Hh2 & Hn2) by (repeat split; congruence).
        repeat (split; [done|]). intros k. unfold keyOf. by rewrite Hh, Hn, Hh2, Hn2. }
      destruct (completes c t) eqn:Hdone.
      * (* the task completes: what is left of the table names other owners *)
        assert (~ keyOf t r \/ r = "__proto__") as Hk.
        { destruct (classic_keyOf t r) as [Hk|Hk]; [|by left].
          destruct (decide (r = "__proto__")) as [->|Hp]; [by right|].
          by rewrite released_key in Hr. }
        apply released_lookup in Hr as [Hr Hne].
        rewrite granted_other in Hr by done.
        destruct (Hown r oid Hr) as (j & tj & Htj & Hid & Hs & Hcj & Hkj).
        apply (Hkeep j tj); try done. apply Hothers. intros ->.
        rewrite Ht in Htj. injection Htj as <-. by apply Hne.
      * destruct (classic_keyOf t r) as [Hk|Hk].
        -- destruct (decide (r = "__proto__")) as [->|Hp].
           ++ rewrite granted_other in Hr by (by right).
              destruct (Hown _ oid Hr) as (j & tj & Htj & Hid & Hs & Hcj & Hkj).
              destruct (decide (j = m)) as [->|Hj]; [|apply (Hkeep j tj); by auto].
              rewrite Ht in Htj. injection Htj as <-.
              exists m, t'. rewrite Hid'. repeat (split; [done|]). by apply Hk'.
           ++ rewrite granted_key in Hr by done. injection Hr as <-.
              exists m, t'. repeat (split; [done|]). by apply Hk'.
        -- rewrite granted_other in Hr by (by left).
           destruct (Hown r oid Hr) as (j & tj & Htj & Hid & Hs & Hcj & Hkj).
           destruct (decide (j = m)) as [->|Hj]; [|apply (Hkeep j tj); by auto].
           rewrite Ht in Htj. injection Htj as <-. by destruct Hk.
  - destruct He as (_ & Hres & _). rewrite Hres in Hr.
    destruct (Hown r oid Hr) as (j & tj & Htj & Hid & Hs & Hcj & Hk).
    by apply (Hkeep j tj).
Qed.

(** X10. At every point of a run, every owner recorded in the resource
    table is the id of a task that has run, is not completed, and holds
    or needs the resource: no resource is left to a completed task. *)
Theorem owners_are_unfinished (ds : list descriptor) (scheduler : string)
    (laxityThreshold : num) (n : nat) :
  unfinishedOwners (loop scheduler laxityThreshold n 0 (init (normalize <$> ds))).
Proof.
  destruct (loop_keeps (fun _ s => wf s /\ unfinishedOwners s)
              scheduler laxityThreshold) with (n := n) (now := 0)
    (s := init (normalize <$> ds)) as (k & _ & _ & H); [| |done].
  - intros now s [Hwf Hown]. split; [by apply tick_wf|by apply tick_owners].
  - split; [apply init_wf|]. intros r oid Hr. cbn [resources init] in Hr.
    by rewrite lookup_empty in Hr.
Qed.

End Ownership.

(** ** Waiting and idling *)

Section Waiting.
Context {host : Host}.

(** X11. What a tick adds to the wait time of a task: two units when
    the task is selected and blocked, the one of the block and the one of
    the wait loop; nothing when it is selected and runs; otherwise one
    unit when, at the end of the tick, the task is Ready, not completed
    and not the one [running] refers to, and nothing if not. A task that
    is not yet admitted, or completed, does not wait. *)
Theorem wait_time_of_tick (scheduler : string) (laxityThreshold : num)
    (currentTime : Z) (s : state) (j : nat) (t : task) :
  let sel := selectAt scheduler currentTime s in
  let s' := fst (tick scheduler laxityThreshold currentTime s) in
  wf s -> tasks s !! j = Some t ->
  exists t', tasks s' !! j = Some t' /\
    wait_time t' = wait_time t +
      (if bool_decide (snd sel = Some j) then (if blocked s t then 2 else 0)
       else if bool_decide (j ∈ ready s') && negb (completed t') &&
               negb (bool_decide (running s' = Some j))
            then 1 else 0).
Proof.
  cbv zeta. intros Hwf Ht.
  destruct (tick_life scheduler laxityThreshold currentTime s j t Hwf Ht)
    as (t' & Ht' & Hl & _ & Hw).
  exists t'. split; [done|]. rewrite Hw. f_equal. unfold waited.
  case_bool_decide as Hsel; cbn [andb]; [|lia].
  pose proof (tick_effect scheduler laxityThreshold currentTime s) as He.
  cbv zeta in He. rewrite Hsel in He.
  destruct He as (t0 & Ht0 & Hc & _ & _ & _ & Hrun).
  rewrite Ht in Ht0. injection Ht0 as <-. rewrite Hrun.
  destruct (blocked s t) eqn:Hb.
  - destruct (selectAt_candidate scheduler currentTime s j Hsel) as (t4 & Hin & _).
    pose proof (tick_clock scheduler laxityThreshold currentTime s) as Hr.
    cbv zeta in Hr. destruct Hr as (Hr & _). rewrite <- Hr in Hin.
    rewrite bool_decide_eq_true_2 by done.
    assert (completed t' = false) as ->.
    { unfold runsAt in Hl. rewrite Hb, andb_false_r in Hl.
      apply andb_true_iff in Hc as [_ Hc%negb_true_iff]. rewrite <- Hc.
      unfold life in Hl. congruence. }
    by rewrite bool_decide_eq_false_2.
  - rewrite (bool_decide_eq_true_2 (Some j = Some j)) by done.
    by rewrite andb_false_r.
Qed.

Lemma tick_snapshot sched lax now s :
  snd (tick sched lax now s) = false ->
  timeline (fst (tick sched lax now s)) =
    timeline s ++ [snapshotOf now (fst (tick sched lax now s))].
Proof.
  intros Hgo. rewrite tick_timeline, Hgo. f_equal. f_equal.
  rewrite tick_snd in Hgo. rewrite tick_fst. cbv zeta. by rewrite Hgo.
Qed.

(** X12. A tick that selects no task leaves [running] as it was: the
    variable is not reset, so the snapshot of an idle tick names the task
    that ran last. The tick writes the idle line, leaves the busy
    counter, the table and the execution record of every task alone. *)
Theorem idle_tick_keeps_running (scheduler : string) (laxityThreshold : num)
    (currentTime : Z) (s : state) :
  let sel := selectAt scheduler currentTime s in
  let s' := fst (tick scheduler laxityThreshold currentTime s) in
  wf s -> snd sel = None ->
  running s' = running s /\
  cpuBusyTime s' = cpuBusyTime s /\
  resources s' = resources s /\
  log s' = log (fst sel) ++ [EvIdle currentTime] /\
  life <$> tasks s' = life <$> tasks s /\
  (snd (tick scheduler laxityThreshold currentTime s) = false ->
   last (timeline s') =
     Some {| snap_time := currentTime;
             snap_running := match running s with
                             | Some i => id <$> tasks s !! i
                             | None => None
                             end;
             snap_cpuState := cpu_name (cpuState s') |}).
Proof.
  cbv zeta. intros Hwf Hsel.
  pose proof (tick_effect scheduler laxityThreshold currentTime s) as He.
  cbv zeta in He. rewrite Hsel in He. destruct He as (Hlog & Hres & Hbusy & Hrun).
  repeat (split; [done|]).
  assert (life <$> tasks (fst (tick scheduler laxityThreshold currentTime s)) =
          life <$> tasks s) as Hlife.
  { apply list_eq. intros j. rewrite !list_lookup_fmap.
    destruct (tasks s !! j) as [t|] eqn:Ht.
    - destruct (tick_life scheduler laxityThreshold currentTime s j t Hwf Ht)
        as (t' & -> & Hl & _).
      rewrite Hsel in Hl. cbn [fmap option_fmap option_map]. by rewrite Hl.
    - destruct (tasks (fst (tick scheduler laxityThreshold currentTime s)) !! j)
        as [t'|] eqn:Ht'; [|done].
      destruct (tick_lookup_back _ _ _ _ _ _ Ht') as (t & Ht2). congruence. }
  split; [done|]. intros Hgo. rewrite (tick_snapshot _ _ _ _ Hgo), last_snoc.
  unfold snapshotOf. rewrite Hrun. do 2 f_equal.
  destruct (running s) as [i|]; [|done].
  destruct (tasks s !! i) as [t|] eqn:Ht.
  - destruct (proj_lookup static (tasks s)
                (tasks (fst (tick scheduler laxityThreshold currentTime s))) i t
                (tick_static _ _ _ _ Hwf) Ht) as (t' & -> & Hst).
    cbn [fmap option_fmap option_map]. f_equal. unfold static in Hst. congruence.
  - destruct (tasks (fst (tick scheduler laxityThreshold currentTime s)) !! i)
      as [t'|] eqn:Ht'; [|done].
    destruct (tick_lookup_back _ _ _ _ _ _ Ht') as (t & Ht2). congruence.
Qed.

End Waiting.

(** In the contention example, at tick 1, W2 is Ready and is not the
    selected task: it waits one unit. *)
Lemma wait_time_of_tick_witness :
  exists t', tasks (fst (tick "edf" (of_Z 20) 1 afterTick0)) !! 2%nat = Some t' /\
    wait_time t' = 1.
Proof.
  assert (exists t, tasks afterTick0 !! 2%nat = Some t /\ wait_time t = 0)
    as (t & Ht & Hw) by (eexists; split; vm_compute; reflexivity).
  destruct (wait_time_of_tick "edf" (of_Z 20) 1 afterTick0 2%nat t)
    as (t' & Ht' & Hw').
  - apply (bool_decide_unpack _). vm_compute. exact I.
  - exact Ht.
  - exists t'. split; [exact Ht'|]. rewrite Hw', Hw.
    vm_compute in Ht'. injection Ht' as <-. vm_compute. reflexivity.
Defined.

(** In the staggered example tick 1 is idle, B arriving at 3; its
    snapshot names A, which ran at tick 0. *)
Lemma idle_tick_keeps_running_witness :
  last (timeline (fst (tick "edf" (of_Z 20) 1 afterA))) =
    Some {| snap_time := 1; snap_running := Some "A";
            snap_cpuState := "HIGH_PERFORMANCE" |}.
Proof.
  destruct (idle_tick_keeps_running "edf" (of_Z 20) 1 afterA)
    as (_ & _ & _ & _ & _ & H).
  - apply (bool_decide_unpack _). vm_compute. exact I.
  - vm_compute. reflexivity.
  - rewrite H by (vm_compute; reflexivity). vm_compute. reflexivity.
Defined.

(** ** The selection under rms, and without boosts *)

Lemma insertBy_fmap {A B : Type} (f : A -> B) (cmpA : A -> A -> num)
    (cmpB : B -> B -> num) (x : A) (l : list A) :
  (forall a b, cmpB (f a) (f b) = cmpA a b) ->
  insertBy cmpB (f x) (f <$> l) = f <$> insertBy cmpA x l.
Proof.
  intros H. induction l as [|y l IH]; [done|].
  cbn [insertBy fmap list_fmap]. rewrite H.
  destruct (num_gtb _ _); [|done]. cbn [fmap list_fmap]. f_equal. exact IH.
Qed.

Lemma sortBy_fmap {A B : Type} (f : A -> B) (cmpA : A -> A -> num)
    (cmpB : B -> B -> num) (l : list A) :
  (forall a b, cmpB (f a) (f b) = cmpA a b) ->
  sortBy cmpB (f <$> l) = f <$> sortBy cmpA l.
Proof.
  intros H. unfold sortBy. induction l as [|x l IH]; [done|].
  cbn [foldr fmap list_fmap]. rewrite IH. by apply insertBy_fmap.
Qed.

Lemma filter_fmap {A B : Type} (f : A -> B) (p : B -> bool) (l : list A) :
  List.filter p (f <$> l) = f <$> List.filter (fun a => p (f a)) l.
Proof.
  induction l as [|x l IH]; [done|]. cbn [List.filter fmap list_fmap].
  destruct (p (f x)); cbn [fmap list_fmap]; by rewrite IH.
Qed.

Lemma filter_ext_elem {A : Type} (p q : A -> bool) (l : list A) :
  (forall x, x ∈ l -> p x = q x) -> List.filter p l = List.filter q l.
Proof.
  induction l as [|x l IH]; [done|]. intros H. cbn [List.filter].
  rewrite (H x) by apply list_elem_of_here. rewrite IH; [done|].
  intros y Hy. apply H. by apply list_elem_of_further.
Qed.

(** The task objects of the candidates, once marked. *)
Lemma deref_marked s :
  deref (tasks (foldl markEffective s (candidatesOf s))) (candidatesOf s) =
    (fun p => (p.1, mark p.2)) <$> deref (tasks s) (candidatesOf s).
Proof.
  assert (forall l, (forall i, i ∈ l -> i ∈ candidatesOf s) ->
            deref (tasks (foldl markEffective s (candidatesOf s))) l =
              (fun p => (p.1, mark p.2)) <$> deref (tasks s) l) as H.
  { induction l as [|i l IH]; [done|]. intros Hin. unfold deref in *.
    cbn [omap list_omap]. rewrite markAll_lookup.
    rewrite decide_True by (apply Hin, list_elem_of_here).
    rewrite IH by (intros k Hk; by apply Hin, list_elem_of_further).
    by destruct (tasks s !! i). }
  by apply H.
Qed.

Section Unboosted.
Context {host : Host}.

Lemma chooseNext_marked scheduler s :
  (String.eqb scheduler "hybrid" || String.eqb scheduler "energy-hybrid" = false \/
   forall i t, candidate s i t -> _boosted t = true -> is_critical t = true) ->
  chooseNext scheduler s = snd (chooseNextWithBoost scheduler s).
Proof.
  intros Hyp. unfold chooseNext, chooseNextWithBoost.
  destruct (length (candidatesOf s) =? 0)%nat; [done|].
  rewrite deref_marked.
  set (objs := deref (tasks s) (candidatesOf s)).
  set (markp := fun p : nat * task => (p.1, mark p.2)).
  assert (forall cmp : task -> task -> num,
            (forall a b, cmp (mark a) (mark b) = cmp a b) ->
            forall L : list (nat * task),
              fst <$> head (sortBy (byTask cmp) (markp <$> L)) =
              fst <$> head (sortBy (byTask cmp) L)) as Hfirst.
  { intros cmp Hcmp L.
    rewrite (sortBy_fmap markp (byTask cmp) (byTask cmp)) by (intros a b; apply Hcmp).
    by destruct (sortBy (byTask cmp) L). }
  assert (forall a b, cmpRMS (mark a) (mark b) = cmpRMS a b) as Hrms by done.
  assert (forall a b, cmpEDF (mark a) (mark b) = cmpEDF a b) as Hedf by done.
  destruct (String.eqb scheduler "rms"); [by rewrite Hfirst|].
  destruct (String.eqb scheduler "edf"); [by rewrite Hfirst|].
  destruct (String.eqb scheduler "hybrid" || String.eqb scheduler "energy-hybrid");
    [|by rewrite Hfirst].
  destruct Hyp as [Hyp|Hyp]; [done|].
  rewrite filter_fmap.
  assert (List.filter (fun a => _effectiveCritical (markp a).2) objs =
          List.filter (fun p => is_critical p.2) objs) as ->.
  { apply filter_ext_elem. intros [i t] Hin. cbn [snd markp mark _effectiveCritical
      set_effectiveCritical].
    assert (candidate s i t) as Hc.
    { subst objs. apply deref_elem in Hin as [Hi Ht].
      apply candidatesOf_elem in Hi as (t0 & Hc). destruct Hc as (H1 & H2 & H3).
      rewrite Ht in H2. injection H2 as <-. done. }
    specialize (Hyp i t Hc). destruct (_boosted t); [|done]. by rewrite Hyp. }
  rewrite length_fmap.
  destruct (0 <? length _)%nat; by rewrite Hfirst.
Qed.

(** X14. The function chooseNext, which the loop does not call, selects
    the task that chooseNextWithBoost selects under rms, edf and every
    unknown discipline, and under the two hybrids whenever every boosted
    candidate is critical by itself, in particular when no candidate is
    boosted. *)
Theorem chooseNext_agrees_without_boost (scheduler : string) (s : state) :
  (scheduler <> "hybrid" /\ scheduler <> "energy-hybrid") \/
  (forall i t, candidate s i t -> _boosted t = true -> is_critical t = true) ->
  chooseNext scheduler s = snd (chooseNextWithBoost scheduler s).
Proof.
  intros [[H1%String.eqb_neq H2%String.eqb_neq]|H]; apply chooseNext_marked.
  - left. by rewrite H1, H2.
  - by right.
Qed.

End Unboosted.

Section RateMonotonic.
Context {host : Host} {order : HostOrder host}.

(** X13. Under the rms discipline the selected task is a candidate that
    is least in the RMS ordering among all the candidates: smaller period
    first, ties by smaller arrival, then by the smaller id. Criticality
    and boosts play no part. With no candidate, nothing is selected. *)
Theorem rms_selects_smallest_period (s : state) :
  (forall i t, candidate s i t -> key_ok period t) ->
  match snd (chooseNextWithBoost "rms" s) with
  | None => forall i t, ~ candidate s i t
  | Some m =>
      exists tm, candidate s m tm /\ forall i t, candidate s i t -> rms_le tm t
  end.
Proof.
  intros Hok. unfold chooseNextWithBoost.
  destruct (length (candidatesOf s) =? 0)%nat eqn:Hn.
  { cbn [snd]. by apply candidatesOf_nil. }
  cbn [String.eqb Ascii.eqb Bool.eqb andb snd].
  destruct (fst <$> head _) as [m|] eqn:Ho.
  - apply (first_sorted_least period) in Ho.
    + destruct Ho as (tm & Hm & Hmin). apply objs_elem in Hm as (t0 & Hc & ->).
      exists t0. split; [done|]. intros i t Hi.
      apply (Hmin (i, mark t)). apply objs_elem. eauto.
    + intros [i t] (t0 & Hc & ->)%objs_elem. apply (Hok i t0 Hc).
  - apply first_sorted_None in Ho. intros i t Hc.
    assert ((i, mark t) ∈ deref (tasks (foldl markEffective s (candidatesOf s)))
                               (candidatesOf s)) as Hi by (apply objs_elem; eauto).
    rewrite Ho in Hi. by apply elem_of_nil in Hi.
Qed.

End RateMonotonic.

(** Under rms the sample set starts with T2, whose period 40 is the
    smallest. *)
Lemma rms_selects_smallest_period_witness :
  snd (chooseNextWithBoost "rms" sampleAtStart) = Some 1%nat /\
  match snd (chooseNextWithBoost "rms" sampleAtStart) with
  | None => forall i t, ~ candidate sampleAtStart i t
  | Some m =>
      exists tm, candidate sampleAtStart m tm /\
        forall i t, candidate sampleAtStart i t -> rms_le tm t
  end.
Proof.
  split; [vm_compute; reflexivity|].
  apply (rms_selects_smallest_period sampleAtStart).
  apply keys_of_store. apply (bool_decide_unpack _). vm_compute. exact I.
Defined.

(** On the sample set at tick 0, where nothing is boosted, the two
    functions select T2 under hybrid. *)
Lemma chooseNext_agrees_without_boost_witness :
  chooseNext "hybrid" sampleAtStart = Some 1%nat /\
  chooseNext "hybrid" sampleAtStart = snd (chooseNextWithBoost "hybrid" sampleAtStart).
Proof.
  split; [vm_compute; reflexivity|].
  apply (chooseNext_agrees_without_boost "hybrid" sampleAtStart). right.
  intros i t (_ & Ht & _) Hb. apply list_elem_of_lookup_2 in Ht.
  assert (Forall (fun t => _boosted t = false) (tasks sampleAtStart)) as H
    by (apply (bool_decide_unpack _); vm_compute; exact I).
  rewrite Forall_forall in H. rewrite (H t Ht) in Hb. discriminate.
Defined.

(** ** Escaping *)

Lemma append_cons (c : ascii) (a b : string) :
  String c a +:+ b = String c (a +:+ b).
Proof. reflexivity. Qed.

Lemma append_nil (b : string) : "" +:+ b = b.
Proof. reflexivity. Qed.

Lemma chars_app (a b : string) : chars (a +:+ b) = chars a ++ chars b.
Proof.
  unfold chars. induction a as [|c a IH]; [done|].
  rewrite append_cons. cbn [String.list_ascii_of_string]. by rewrite IH.
Qed.

Lemma escapeChar_cases (c : ascii) :
  (special c = false /\ escapeChar c = String c "") \/
  (special c = true /\ exists e, e ∈ entities /\ escapeChar c = String "&" e /\
     Forall (fun x => special x = false) (chars e)).
Proof.
  unfold escapeChar, special, entities.
  destruct (Ascii.eqb c "&") eqn:E1.
  { right. split; [done|]. exists "amp;". split; [set_solver|]. split; [done|].
    by repeat constructor. }
  destruct (Ascii.eqb c "<") eqn:E2.
  { right. split; [done|]. exists "lt;". split; [set_solver|]. split; [done|].
    by repeat constructor. }
  destruct (Ascii.eqb c ">") eqn:E3.
  { right. split; [done|]. exists "gt;". split; [set_solver|]. split; [done|].
    by repeat constructor. }
  destruct (Ascii.eqb c dquote) eqn:E4.
  { right. split; [done|]. exists "quot;". split; [set_solver|]. split; [done|].
    by repeat constructor. }
  destruct (Ascii.eqb c "'") eqn:E5.
  { right. split; [done|]. exists "#39;". split; [set_solver|]. split; [done|].
    by repeat constructor. }
  by left.
Qed.

Lemma special_amp (c : ascii) : special c = false -> c <> "&"%char.
Proof. intros H ->. done. Qed.

Lemma escapeHtml_chars (s : string) :
  Forall (fun c => special c = false \/ c = "&"%char) (chars (escapeHtml s)).
Proof.
  induction s as [|c s IH]; [by constructor|]. cbn [escapeHtml].
  rewrite chars_app. apply Forall_app. split; [|done].
  destruct (escapeChar_cases c) as [[Hc ->]|(_ & e & _ & -> & He)].
  - constructor; [by left|constructor].
  - constructor; [by right|]. eapply Forall_impl; [exact He|].
    intros x Hx. by left.
Qed.

(** A prefix without ampersand of a string lies before its ampersands. *)
Lemma amp_split (p r a b : string) :
  Forall (fun x => special x = false) (chars p) ->
  p +:+ r = a +:+ String "&" b ->
  exists a', a = p +:+ a' /\ r = a' +:+ String "&" b.
Proof.
  revert a. induction p as [|x p IH]; intros a Hp H.
  - exists a. done.
  - apply Forall_cons in Hp as [Hx Hp]. destruct a as [|y a].
    + rewrite append_cons, append_nil in H. injection H as -> _. done.
    + rewrite !append_cons in H. injection H as -> H.
      destruct (IH a Hp H) as (a' & -> & ->). by exists a'.
Qed.

(** X15. The output of escapeHtml can be put between tags and between
    quotes: it has none of the characters <, >, double quote and single
    quote, and each of its ampersands starts one of the five character
    references the function writes. *)
Theorem escapeHtml_output_is_inert (s : string) :
  Forall (fun c => c <> "<"%char /\ c <> ">"%char /\ c <> dquote /\ c <> "'"%char)
         (chars (escapeHtml s)) /\
  forall a b, escapeHtml s = a +:+ String "&" b ->
    exists e b', e ∈ entities /\ b = e +:+ b'.
Proof.
  split.
  - eapply Forall_impl; [apply escapeHtml_chars|]. cbv beta.
    intros c [Hc| ->]; [|done]. repeat split; by intros ->.
  - induction s as [|c s IH]; intros a b H.
    + by destruct a.
    + cbn [escapeHtml] in H.
      destruct (escapeChar_cases c) as [[Hc Hesc]|(_ & e & He & Hesc & Hclean)];
        rewrite Hesc in H; destruct a as [|y a];
        rewrite ?append_cons, ?append_nil in H.
      * injection H as -> _. done.
      * injection H as _ H. by apply (IH a b).
      * injection H as <-. by exists e, (escapeHtml s).
      * injection H as _ H.
        destruct (amp_split e (escapeHtml s) a b Hclean H) as (a' & _ & H').
        by apply (IH a' b).
Qed.

Lemma escapeChar_inj (c c' : ascii) (x y : string) :
  escapeChar c +:+ x = escapeChar c' +:+ y -> c = c' /\ x = y.
Proof.
  unfold escapeChar.
  destruct (Ascii.eqb_spec c "&") as [->|?];
    [|destruct (Ascii.eqb_spec c "<") as [->|?];
      [|destruct (Ascii.eqb_spec c ">") as [->|?];
        [|destruct (Ascii.eqb_spec c dquote) as [->|?];
          [|destruct (Ascii.eqb_spec c "'") as [->|?]]]]];
  (destruct (Ascii.eqb_spec c' "&") as [->|?];
    [|destruct (Ascii.eqb_spec c' "<") as [->|?];
      [|destruct (Ascii.eqb_spec c' ">") as [->|?];
        [|destruct (Ascii.eqb_spec c' dquote) as [->|?];
          [|destruct (Ascii.eqb_spec c' "'") as [->|?]]]]]);
  rewrite ?append_cons, ?append_nil; intros H; try discriminate H;
  try (injection H; intros; by subst).
Qed.

(** X16. escapeHtml loses nothing: two strings with the same escaped
    form are the same string. *)
Theorem escapeHtml_is_injective (a b : string) :
  escapeHtml a = escapeHtml b -> a = b.
Proof.
  revert b. induction a as [|c a IH]; intros [|c' b] H; cbn [escapeHtml] in H.
  - done.
  - destruct (escapeChar_cases c') as [[_ E]|(_ & e & _ & E & _)];
      rewrite E, append_cons in H; discriminate H.
  - destruct (escapeChar_cases c) as [[_ E]|(_ & e & _ & E & _)];
      rewrite E, append_cons in H; discriminate H.
  - apply escapeChar_inj in H as [-> H]. by rewrite (IH b H).
Qed.

Lemma escapeHtml_length (s : string) :
  (length (chars s) <= length (chars (escapeHtml s)))%nat.
Proof.
  induction s as [|c s IH]; [done|]. cbn [escapeHtml]. rewrite chars_app, length_app.
  change (chars (String c s)) with (c :: chars s). cbn [length].
  destruct (escapeChar_cases c) as [[_ ->]|(_ & e & _ & -> & _)];
    change (chars (String ?x ?y)) with (x :: chars y); cbn [length]; lia.
Qed.

(** X17. escapeHtml leaves a string as it is exactly when the string has
    none of the five characters of its class; on every other string it
    is not idempotent, the ampersand it writes being escaped again. *)
Theorem escapeHtml_fixed_points (s : string) :
  (escapeHtml s = s <-> Forall (fun c => special c = false) (chars s)) /\
  (escapeHtml (escapeHtml s) = escapeHtml s <-> escapeHtml s = s).
Proof.
  assert (forall s, escapeHtml s = s <-> Forall (fun c => special c = false) (chars s))
    as Hfix.
  { clear s. induction s as [|c s IH]; [split; [by constructor|done]|].
    cbn [escapeHtml]. change (chars (String c s)) with (c :: chars s).
    rewrite Forall_cons, <- IH.
    destruct (escapeChar_cases c) as [[Hc ->]|(Hc & e & Hin & -> & _)];
      rewrite !append_cons, ?append_nil.
    - split; [intros [= H]; by rewrite H|intros [_ ->]; done].
    - split; [|by rewrite Hc; intros [? _]].
      intros [= <- H]. exfalso.
      pose proof (escapeHtml_length s) as Hl. rewrite <- H in Hl at 1.
      rewrite chars_app, length_app in Hl.
      assert (0 < length (chars e))%nat; [|lia].
      unfold entities in Hin.
      repeat (apply elem_of_cons in Hin as [->|Hin]; [cbn; lia|]).
      by apply elem_of_nil in Hin. }
  split; [apply Hfix|]. split.
  - intros H%Hfix. apply Hfix. clear Hfix. induction s as [|c s IH]; [constructor|].
    cbn [escapeHtml] in H. rewrite chars_app in H. apply Forall_app in H as [Hc Hs].
    change (chars (String c s)) with (c :: chars s). constructor; [|by apply IH].
    destruct (escapeChar_cases c) as [[Hn _]|(_ & e & _ & E & _)]; [done|].
    rewrite E in Hc. change (chars (String ?x ?y)) with (x :: chars y) in Hc.
    by apply Forall_cons in Hc as [Hc _].
  - intros H. by rewrite !H.
Qed.

Lemma occurrences_app (c : ascii) (a b : string) :
  occurrences c (a +:+ b) = (occurrences c a + occurrences c b)%nat.
Proof. unfold occurrences. by rewrite chars_app, List.filter_app, length_app. Qed.

Lemma occurrences_none (c : ascii) (s : string) :
  Forall (fun x => x <> c) (chars s) -> occurrences c s = 0%nat.
Proof.
  unfold occurrences. induction 1 as [|x l Hx _ IH]; [done|]. cbn [List.filter].
  destruct (Ascii.eqb_spec c x) as [->|]; [done|exact IH].
Qed.

(** X18. The markup showMessage writes has one element, whatever the
    message: its only angle brackets are those of the opening and of the
    closing tag of the placeholder, and its only double quotes those of
    the class attribute. *)
Theorem showMessage_writes_one_element (msg : string) :
  occurrences "<" (showMessage msg) = 2%nat /\
  occurrences ">" (showMessage msg) = 2%nat /\
  occurrences dquote (showMessage msg) = 2%nat.
Proof.
  pose proof (escapeHtml_chars msg) as H. unfold showMessage.
  assert (forall c, special c = true -> c <> "&"%char ->
            occurrences c (escapeHtml msg) = 0%nat) as Hnone.
  { intros c Hc Hamp. apply occurrences_none. eapply Forall_impl; [exact H|].
    cbv beta. intros x [Hx| ->] E; [|done]. subst. congruence. }
  rewrite !occurrences_app, !Hnone by done. done.
Qed.

(** The escaped forms of two strings that differ in one character
    differ. *)
Lemma escapeHtml_is_injective_witness :
  escapeHtml "a<b" = "a&lt;b" /\ ("a<b" = "a<b" :> string).
Proof.
  split; [reflexivity|]. apply (escapeHtml_is_injective "a<b" "a<b"). reflexivity.
Defined.

(** ** The Gantt chart *)

Lemma Forall_rows {A B : Type} (P : B -> Prop) (f : nat -> A -> list B) (l : list A) :
  (forall i x, Forall P (f i x)) -> Forall P (mjoin (imap f l)).
Proof.
  revert f. induction l as [|x l IH]; intros f H; [constructor|].
  cbn [imap mjoin list_join]. apply Forall_app. split; [apply H|].
  apply IH. intros i y. apply H.
Qed.

Lemma omap_rows {A B C : Type} (g : B -> option C) (f : nat -> A -> list B)
    (h : A -> list C) (l : list A) :
  (forall i x, x ∈ l -> omap g (f i x) = h x) ->
  omap g (mjoin (imap f l)) = l ≫= h.
Proof.
  revert f. induction l as [|x l IH]; intros f H; [done|].
  cbn [imap mjoin list_join mbind list_bind]. rewrite omap_app.
  rewrite H by apply list_elem_of_here. f_equal.
  apply IH. intros i y Hy. apply H. by apply list_elem_of_further.
Qed.

Lemma bars_of_grid fuel i tickCount simTime width height :
  omap barColor (gridFrom fuel i tickCount simTime width height) = [].
Proof.
  revert i. induction fuel as [|fuel IH]; intros i; cbn [gridFrom]; [done|].
  destruct (num_leb _ _); [|done]. cbn [omap list_omap barColor]. apply IH.
Qed.

(** X19. When the total-time field does not parse, the chart has no time
    axis: simTime is NaN, no grid line and no grid label is drawn, and
    the deadline mark and the bars of every task are placed at NaN. The
    click handler runs the simulation with 200 ticks in that case; the
    chart takes no such default. *)
Theorem gantt_without_total_time (res : results) (innerWidth : Z) :
  Forall unplaced (ganttParts res None innerWidth).
Proof.
  unfold ganttParts. cbv zeta.
  assert (forall x, num_max x NaN = NaN) as -> by (by intros []).
  assert (num_min (of_Z 50) NaN = NaN) as -> by done.
  assert (forall w v, abscissa NaN w v = NaN) as Habs.
  { intros w v. unfold abscissa. by destruct v. }
  apply Forall_app. split; [by repeat constructor|].
  apply Forall_app. split; [by constructor|].
  apply Forall_app. split; [|by repeat constructor].
  apply Forall_rows. intros i t. unfold rowOf. cbv zeta.
  apply Forall_app. split.
  - repeat constructor; cbn [unplaced]; by rewrite ?Habs.
  - apply Forall_fmap, Forall_forall. intros seg _. unfold barOf. cbv zeta.
    cbn [unplaced compose]. by rewrite !Habs.
Qed.

Section GanttOfRun.
Context {host : Host}.

(** X20. The chart of the result of a run has one bar for each task
    that has run and none for the others, in the order of the tasks, and
    only the two colours of run segments: the colour of a critical task
    or that of the others. A task that was preempted and resumed still
    has a single bar. *)
Theorem gantt_has_one_bar_per_started_task (ds : list descriptor)
    (scheduler : string) (totalTime : Z) (laxityThreshold : num)
    (totalTimeInput : option Z) (innerWidth : Z) :
  let res := runSimulation ds scheduler totalTime laxityThreshold in
  omap barColor (ganttParts res totalTimeInput innerWidth) =
    runColor <$> List.filter started (r_tasks res).
Proof.
  cbv zeta.
  destruct (simulate_ended ds scheduler totalTime laxityThreshold)
    as (k & _ & (_ & _ & _ & Hlife) & _).
  unfold ganttParts. cbv zeta.
  set (s := simulate ds scheduler totalTime laxityThreshold) in *.
  change (r_tasks (runSimulation ds scheduler totalTime laxityThreshold))
    with (tasks s).
  rewrite !omap_app, bars_of_grid. cbn [omap list_omap barColor app].
  rewrite app_nil_r.
  rewrite (omap_rows barColor _ (fun t => if started t then [runColor t] else [])).
  - clear Hlife. induction (tasks s) as [|t l IH]; [done|].
    cbn [mbind list_bind List.filter]. rewrite IH.
    by destruct (started t).
  - intros i t (j & Hj)%list_elem_of_lookup. specialize (Hlife j t Hj).
    unfold rowOf. cbv zeta. rewrite omap_app. cbn [omap list_omap barColor app].
    unfold lifecycle in Hlife. destruct (started t).
    + destruct Hlife as (a & e & _ & -> & _). done.
    + destruct Hlife as (-> & _). done.
Qed.

End GanttOfRun.

(** *** Where the grid and the bars put a time *)

Lemma Qred_inject_Z (z : Z) : Qred (inject_Z z) = inject_Z z.
Proof.
  unfold Qred, inject_Z.
  pose proof (Z.ggcd_gcd z 1) as Hg. pose proof (Z.ggcd_correct_divisors z 1) as Hd.
  destruct (Z.ggcd z 1) as [g [aa bb]]. cbn [fst snd] in *.
  rewrite Z.gcd_1_r in Hg. subst g. destruct Hd as [-> Hb].
  rewrite !Z.mul_1_l in *. by subst bb.
Qed.

Lemma Fin_integer (q : Q) (z : Z) : (q == inject_Z z)%Q -> Fin (Qred q) = of_Z z.
Proof.
  intros H. unfold of_Z. f_equal. rewrite (Qred_complete _ _ H). apply Qred_inject_Z.
Qed.

Lemma num_add_of_Z (a b : Z) : num_add (of_Z a) (of_Z b) = of_Z (a + b).
Proof. cbn [num_add of_Z]. apply Fin_integer. by rewrite inject_Z_plus. Qed.

Lemma num_mul_of_Z (a b : Z) : num_mul (of_Z a) (of_Z b) = of_Z (a * b).
Proof. cbn [num_mul of_Z]. apply Fin_integer. by rewrite inject_Z_mult. Qed.

Lemma Qsgn_inject_Z (z : Z) : Qsgn (inject_Z z) = (z ?= 0).
Proof. unfold Qsgn, Qcompare, inject_Z. cbn. by rewrite Z.mul_1_r. Qed.

Lemma num_div_zero (t : Z) : 0 < t -> num_div (of_Z 0) (of_Z t) = of_Z 0.
Proof.
  intros Ht. cbn [num_div of_Z]. rewrite Qsgn_inject_Z.
  destruct (Z.compare_spec t 0); [lia|lia|]. apply Fin_integer.
  unfold Qdiv. by rewrite Qmult_0_l.
Qed.

Lemma num_div_self (t : Z) : 0 < t -> num_div (of_Z t) (of_Z t) = of_Z 1.
Proof.
  intros Ht. cbn [num_div of_Z]. rewrite Qsgn_inject_Z.
  destruct (Z.compare_spec t 0); [lia|lia|]. apply Fin_integer.
  apply Qmult_inv_r. change 0%Q with (inject_Z 0). rewrite inject_Z_injective. lia.
Qed.

Lemma num_ltb_of_Z (a b : Z) : num_ltb (of_Z a) (of_Z b) = (a <? b).
Proof.
  destruct (a <? b) eqn:E.
  - apply num_ltb_Fin. rewrite <- Zlt_Qlt. lia.
  - destruct (num_ltb (of_Z a) (of_Z b)) eqn:E'; [|done].
    apply num_ltb_Fin in E'. rewrite <- Zlt_Qlt in E'. lia.
Qed.

Lemma num_leb_of_Z (a b : Z) : num_leb (of_Z a) (of_Z b) = (a <=? b).
Proof.
  destruct (a <=? b) eqn:E.
  - apply num_leb_Fin. rewrite <- Zle_Qle. lia.
  - apply num_leb_Fin_false. rewrite <- Zlt_Qlt. lia.
Qed.

Lemma num_max_of_Z (a b : Z) : num_max (of_Z a) (of_Z b) = of_Z (Z.max a b).
Proof.
  unfold num_max. change (of_Z a) with (Fin (inject_Z a)) at 1.
  change (of_Z b) with (Fin (inject_Z b)) at 1. cbv iota. fold (of_Z a) (of_Z b).
  rewrite num_ltb_of_Z. destruct (a <? b) eqn:E; f_equal; lia.
Qed.

Lemma num_min_of_Z (a b : Z) : num_min (of_Z a) (of_Z b) = of_Z (Z.min a b).
Proof.
  unfold num_min. change (of_Z a) with (Fin (inject_Z a)) at 1.
  change (of_Z b) with (Fin (inject_Z b)) at 1. cbv iota. fold (of_Z a) (of_Z b).
  rewrite num_ltb_of_Z. destruct (b <? a) eqn:E; f_equal; lia.
Qed.

(** The abscissas of the grid lines: those of 0, 1, ..., tickCount. *)
Lemma grid_xs (fuel : nat) (i t : Z) (simTime : num) (width height : Z) :
  (Z.to_nat (t - i + 1) <= fuel)%nat ->
  omap gridX (gridFrom fuel i (of_Z t) simTime width height) =
    (fun k => num_add (num_mul (num_div (of_Z k) (of_Z t)) (of_Z (width - 180)))
                      (of_Z 140)) <$> seqZ i (t - i + 1).
Proof.
  revert i. induction fuel as [|fuel IH]; intros i Hfuel; cbn [gridFrom].
  - rewrite seqZ_nil by lia. done.
  - rewrite num_leb_of_Z. destruct (i <=? t) eqn:E.
    + rewrite (seqZ_cons i) by lia. cbn [omap list_omap gridX fmap list_fmap].
      f_equal. rewrite IH by lia. f_equal. f_equal; lia.
    + rewrite seqZ_nil by lia. done.
Qed.

(** X21. When the total-time field parses, the chart has one grid line
    for each of 0, 1, ..., tickCount, where tickCount is simTime capped at
    50; the first is at x = 140 and the last at x = width - 40. A bar or
    a deadline mark puts time 0 at x = 120 and time simTime at
    x = width - 20: the time axis of the grid is narrower than that of
    the bars, by 20 pixels at each end. *)
Theorem gantt_grid_span (res : results) (z innerWidth : Z) :
  let simTime := Z.max (Z.max 1 (r_totalSimTime res)) z in
  let tickCount := Z.min 50 simTime in
  let width := Z.min (innerWidth - 80) 980 in
  let xs := omap gridX (ganttParts res (Some z) innerWidth) in
  length xs = S (Z.to_nat tickCount) /\
  head xs = Some (of_Z 140) /\
  last xs = Some (of_Z (width - 40)) /\
  abscissa (of_Z simTime) width (of_Z 0) = of_Z 120 /\
  abscissa (of_Z simTime) width (of_Z simTime) = of_Z (width - 20).
Proof.
  cbv zeta. unfold ganttParts. cbv zeta.
  rewrite !num_max_of_Z, num_min_of_Z.
  set (simTime := Z.max (Z.max 1 (r_totalSimTime res)) z).
  set (t := Z.min 50 simTime). set (width := Z.min (innerWidth - 80) 980).
  assert (0 < simTime) as Hsim by lia.
  assert (0 < t <= 50) as Ht by lia.
  rewrite !omap_app. cbn [omap list_omap gridX app].
  rewrite (omap_rows gridX _ (fun _ => [])).
  2:{ intros i x _. unfold rowOf. cbv zeta. rewrite omap_app.
      cbn [omap list_omap gridX app]. induction (history x) as [|seg l IH]; [done|].
      cbn [fmap list_fmap omap list_omap barOf gridX]. exact IH. }
  assert (r_tasks res ≫= (fun _ : task => @nil num) = []) as ->
    by (induction (r_tasks res) as [|x l IH]; [done|]; exact IH).
  rewrite !app_nil_r, grid_xs by lia.
  replace (t - 0 + 1) with (Z.succ t) by lia.
  split; [|split; [|split; [|split]]].
  - rewrite length_fmap, length_seqZ. lia.
  - rewrite (seqZ_cons 0) by lia. cbn [fmap list_fmap head].
    by rewrite num_div_zero, num_mul_of_Z, num_add_of_Z by lia.
  - replace (Z.succ t) with (t + 1) by lia.
    rewrite seqZ_app by lia. rewrite (seqZ_cons (0 + t)), (seqZ_nil _ (Z.pred 1)) by lia.
    rewrite fmap_app. cbn [fmap list_fmap]. rewrite last_snoc, Z.add_0_l.
    rewrite num_div_self, num_mul_of_Z, num_add_of_Z by lia. do 2 f_equal. lia.
  - unfold abscissa.
    rewrite num_div_zero, num_mul_of_Z, num_add_of_Z by lia. done.
  - unfold abscissa.
    rewrite num_div_self, num_mul_of_Z, num_add_of_Z by lia. f_equal. lia.
Qed.

(** ** The sort *)

Lemma insertBy_Permutation {A : Type} (cmp : A -> A -> num) (x : A) (l : list A) :
  insertBy cmp x l ≡ₚ x :: l.
Proof.
  induction l as [|y l IH]; [done|]. cbn [insertBy].
  destruct (num_gtb _ _); [|done]. rewrite IH. apply Permutation_swap.
Qed.

Lemma sortBy_Permutation {A : Type} (cmp : A -> A -> num) (l : list A) :
  sortBy cmp l ≡ₚ l.
Proof.
  unfold sortBy. induction l as [|x l IH]; [done|]. cbn [foldr].
  by rewrite insertBy_Permutation, IH.
Qed.

Lemma sortBy_StronglySorted {A : Type} (cmp : A -> A -> num) (R : A -> A -> Prop)
    (l : list A) :
  (forall a b, num_gtb (cmp a b) (of_Z 0) = false -> R a b) ->
  (forall a b, num_gtb (cmp a b) (of_Z 0) = true -> R b a) ->
  (forall a b c, R a b -> R b c -> R a c) ->
  StronglySorted R (sortBy cmp l).
Proof.
  intros Hle Hgt Htrans. unfold sortBy.
  induction l as [|x l IH]; [constructor|]. cbn [foldr].
  induction IH as [|y l' Hs IH' Hy]; cbn [insertBy]; [by repeat constructor|].
  destruct (num_gtb (cmp x y) (of_Z 0)) eqn:E.
  - constructor; [exact IH'|].
    rewrite insertBy_Permutation. constructor; [by apply Hgt|done].
  - constructor; [by constructor|]. constructor; [by apply Hle|].
    eapply Forall_impl; [exact Hy|]. intros z Hz. eapply Htrans; [|exact Hz].
    by apply Hle.
Qed.

(** ** The schedule of the demo *)

Module DemoFacts.

Lemma order_before (type : string) :
  (forall a b, num_gtb (Demo.order type a b) (of_Z 0) = false -> Demo.before type a b) /\
  (forall a b, num_gtb (Demo.order type a b) (of_Z 0) = true -> Demo.before type b a) /\
  (forall a b c, Demo.before type a b -> Demo.before type b c -> Demo.before type a c) /\
  (forall a, Demo.before type a a).
Proof.
  unfold Demo.order, Demo.before.
  destruct (String.eqb type "RMS"); repeat split; intros *;
    rewrite ?num_gtb_of_Z; lia.
Qed.

Lemma length_rows {A B : Type} (f : nat -> A -> list B) (g : A -> nat) (l : list A) :
  (forall i x, length (f i x) = g x) ->
  length (mjoin (imap f l)) = sum_list (g <$> l).
Proof.
  revert f. induction l as [|x l IH]; intros f H; [done|].
  cbn [imap mjoin list_join fmap list_fmap sum_list sum_list_with].
  rewrite length_app, H. f_equal. apply IH. intros i y. apply H.
Qed.

Lemma sum_list_Permutation (l l' : list nat) : l ≡ₚ l' -> sum_list l = sum_list l'.
Proof.
  induction 1 as [|x l l' _ IH|x y l|l l' l'' _ IH1 _ IH2]; cbn; lia.
Qed.

(** X22. The schedule of the demo has one step for each unit of
    processor time of each task, and one more, in which nothing runs: the
    tasks of the set all get their turn, none is dropped by the sort, and
    the idle step comes last. *)
Theorem schedule_has_a_step_per_unit (tasks : list Demo.proc) (type : string) :
  length (Demo.buildSchedule tasks type) = S (sum_list (Demo.units <$> tasks)) /\
  last (Demo.buildSchedule tasks type) = Some Demo.idleStep.
Proof.
  unfold Demo.buildSchedule. cbv zeta. split; [|apply last_snoc].
  rewrite length_app, (length_rows _ Demo.units).
  - cbn [length]. rewrite Nat.add_1_r. f_equal.
    apply sum_list_Permutation, fmap_Permutation, sortBy_Permutation.
  - intros i t. unfold Demo.stepsOf. cbv zeta.
    by rewrite length_fmap, length_seqZ.
Qed.

Lemma findIndex_found (tasks : list Demo.proc) (t : Demo.proc) :
  t ∈ tasks ->
  exists k t0, Demo.findIndex (Demo.pid t) tasks = Z.of_nat k /\
    tasks !! k = Some t0 /\ Demo.pid t0 = Demo.pid t /\
    forall k' t', (k' < k)%nat -> tasks !! k' = Some t' -> Demo.pid t' <> Demo.pid t.
Proof.
  intros Hin. unfold Demo.findIndex.
  destruct (list_find (fun t0 => Demo.pid t0 = Demo.pid t) tasks) as [[k t0]|] eqn:E.
  - apply list_find_Some in E as (H1 & H2 & H3). exists k, t0.
    repeat (split; [done|]). intros k' t' Hk Ht'. by apply (H3 k' t').
  - apply list_find_None in E. rewrite Forall_forall in E. by destruct (E t Hin).
Qed.

Lemma steps_well_formed (tasks sorted l : list Demo.proc) (f : nat -> nat) :
  (forall t, t ∈ l -> t ∈ tasks) ->
  Forall (fun st => Demo.bars_ok st /\ Demo.idx_ok tasks st)
         (mjoin (imap (fun i => Demo.stepsOf tasks sorted (f i)) l)).
Proof.
  revert f. induction l as [|t l IH]; intros f Hl; [constructor|].
  cbn [imap mjoin list_join]. apply Forall_app. split.
  - unfold Demo.stepsOf. cbv zeta. apply Forall_fmap, Forall_forall.
    intros c [Hc _]%elem_of_seqZ. cbn [compose]. split.
    + unfold Demo.bars_ok. cbn [Demo.s_cpu Demo.s_mem Demo.s_space]. lia.
    + unfold Demo.idx_ok. cbn [Demo.s_running Demo.s_idx].
      apply findIndex_found, Hl, list_elem_of_here.
  - apply (IH (fun i => f (S i))). intros t' Ht'.
    by apply Hl, list_elem_of_further.
Qed.

(** X23. In every step of the schedule the three bars are percentages:
    the processor bar is between 30 and 100, the memory bar between 24
    and 100, the space bar between 10 and 89. The index of a step that
    runs a task is that of the first task of the set with its pid, never
    the -1 that findIndex gives when it finds none; the last step alone
    has -1. *)
Theorem schedule_steps_are_well_formed (tasks : list Demo.proc) (type : string) :
  Forall (fun st => Demo.bars_ok st /\ Demo.idx_ok tasks st)
         (Demo.buildSchedule tasks type).
Proof.
  unfold Demo.buildSchedule. cbv zeta. apply Forall_app. split.
  - apply (steps_well_formed tasks _ _ (fun i => i)).
    intros t Ht. by apply (sortBy_elem (Demo.order type) t tasks).
  - repeat constructor; unfold Demo.bars_ok; cbn; lia.
Qed.

Lemma runs_rows {A : Type} (f : nat -> Demo.proc -> list Demo.step)
    (l : list Demo.proc) :
  (forall i t, Demo.runs (f i t) = replicate (Demo.units t) t) ->
  Demo.runs (mjoin (imap f l)) = l ≫= (fun t => replicate (Demo.units t) t).
Proof. intros H. unfold Demo.runs in *. by apply omap_rows. Qed.

Lemma bind_replicate_sorted (R : Demo.proc -> Demo.proc -> Prop)
    (l : list Demo.proc) :
  (forall a, R a a) -> StronglySorted R l ->
  StronglySorted R (l ≫= (fun t => replicate (Demo.units t) t)).
Proof.
  intros Hrefl. induction 1 as [|t l Hs IH Ht]; [constructor|].
  cbn [mbind list_bind].
  assert (Forall (R t) (l ≫= (fun t => replicate (Demo.units t) t))) as Hall.
  { apply Forall_forall. intros x (y & Hx & Hy)%list_elem_of_bind.
    apply elem_of_replicate in Hx as [-> _]. rewrite Forall_forall in Ht. by apply Ht. }
  induction (Demo.units t) as [|n IHn]; [done|]. cbn [replicate app].
  constructor; [exact IHn|]. apply Forall_app. split; [|done].
  apply Forall_forall. by intros x [-> _]%elem_of_replicate.
Qed.

(** X24. The steps of the schedule run the tasks of the set in the
    order of the sort, each for as many consecutive steps as it has
    units of processor time: under RMS a task never runs before one of
    higher priority, under every other name never before one that needs
    less processor time. *)
Theorem schedule_runs_in_order (tasks : list Demo.proc) (type : string) :
  exists sorted, sorted ≡ₚ tasks /\
    StronglySorted (Demo.before type) sorted /\
    Demo.runs (Demo.buildSchedule tasks type) =
      sorted ≫= (fun t => replicate (Demo.units t) t) /\
    StronglySorted (Demo.before type) (Demo.runs (Demo.buildSchedule tasks type)).
Proof.
  destruct (order_before type) as (Hle & Hgt & Htrans & Hrefl).
  pose proof (sortBy_StronglySorted (Demo.order type) (Demo.before type) tasks
                Hle Hgt Htrans) as Hsorted.
  assert (Demo.runs (Demo.buildSchedule tasks type) =
            sortBy (Demo.order type) tasks ≫= (fun t => replicate (Demo.units t) t))
    as Hruns.
  { unfold Demo.buildSchedule. cbv zeta. unfold Demo.runs. rewrite omap_app.
    cbn [omap list_omap Demo.s_running Demo.idleStep]. rewrite app_nil_r.
    apply omap_rows. intros i t _. unfold Demo.stepsOf, Demo.units. cbv zeta.
    rewrite <- (length_seqZ 0 (Demo.cpu t)).
    induction (seqZ 0 (Demo.cpu t)) as [|c l IH]; [done|].
    cbn [fmap list_fmap omap list_omap Demo.s_running length replicate].
    f_equal. exact IH. }
  exists (sortBy (Demo.order type) tasks).
  split; [apply sortBy_Permutation|]. split; [done|]. split; [done|].
  rewrite Hruns. by apply bind_replicate_sorted.
Qed.

End DemoFacts.

(** ** A selection that stays blocked *)

Lemma findById_life (oid : string) (l l' : list task) (o : nat) (owner' : task) :
  life <$> l' = life <$> l ->
  findById oid l' = Some (o, owner') ->
  exists owner, findById oid l = Some (o, owner) /\ life owner = life owner'.
Proof.
  assert (forall a b, life a = life b -> id a = id b) as Hid
    by (unfold life, static; congruence).
  intros Hp (Ho & Hido & Hfirst)%list_find_Some.
  destruct (proj_lookup life l' l o owner' (eq_sym Hp) Ho) as (owner & Ho' & Hu).
  exists owner. split; [|done]. apply list_find_Some. split; [done|]. split.
  - by rewrite (Hid _ _ Hu).
  - intros j y Hj Hlt Hy.
    destruct (proj_lookup life l l' j y Hp Hj) as (y' & Hj' & Hu').
    apply (Hfirst j y' Hj' Hlt). by rewrite (Hid _ _ Hu').
Qed.

Lemma boostsAt_life (s s' : state) (w : nat) :
  life <$> tasks s' = life <$> tasks s -> resources s' = resources s ->
  boostsAt s' w = boostsAt s w.
Proof.
  assert (forall a b, life a = life b ->
            id a = id b /\ needs_resource a = needs_resource b /\ prio a = prio b)
    as Hsame.
  { intros a b H. unfold prio. unfold life, static in H.
    assert (is_critical a = is_critical b /\ abs_deadline a = abs_deadline b)
      as [-> ->] by (split; congruence).
    repeat split; congruence. }
  intros Hp Hr. unfold boostsAt. rewrite Hr.
  destruct (tasks s !! w) as [waiter|] eqn:Hw.
  - destruct (proj_lookup life _ _ w waiter Hp Hw) as (waiter' & -> & Hu).
    destruct (Hsame _ _ Hu) as (Hidw & -> & ->).
    destruct (js_key (needs_resource waiter)) as [r|]; [|done].
    destruct (js_key (resources s !! r)) as [oid|]; [|done].
    rewrite Hidw.
    destruct (findById oid (tasks s')) as [[o owner']|] eqn:Hf'.
    + destruct (findById_life oid _ _ o owner' Hp Hf') as (owner & -> & Hu').
      destruct (Hsame _ _ Hu') as (-> & _ & ->). done.
    + destruct (findById oid (tasks s)) as [[o owner]|] eqn:Hf; [|done].
      destruct (findById_life oid _ _ o owner (eq_sym Hp) Hf) as (owner' & Hf'' & _).
      congruence.
  - destruct (tasks s' !! w) as [waiter'|] eqn:Hw'; [|done].
    destruct (proj_lookup life _ _ w waiter' (eq_sym Hp) Hw') as (? & ? & _).
    congruence.
Qed.

Lemma fmap_factor {A B C : Type} (g : A -> B) (k : A -> C) (l l' : list A) :
  (forall a b, g a = g b -> k a = k b) ->
  g <$> l = g <$> l' -> k <$> l = k <$> l'.
Proof.
  intros H. revert l'. induction l as [|a l IH]; intros [|b l'] E; try done.
  cbn [fmap list_fmap] in *. injection E as Ea El.
  by rewrite (H a b Ea), (IH l' El).
Qed.

Lemma deref_fmap (f : task -> task) (ts : list task) (l : list nat) :
  deref (f <$> ts) l = (fun p => (p.1, f p.2)) <$> deref ts l.
Proof.
  unfold deref. induction l as [|i l IH]; [done|]. cbn [omap list_omap].
  rewrite list_lookup_fmap, IH. by destruct (ts !! i).
Qed.

Lemma deref_factor {B : Type} (g : task -> B) (ts ts' : list task) (l : list nat) :
  g <$> ts = g <$> ts' ->
  (fun p => (p.1, g p.2)) <$> deref ts l = (fun p => (p.1, g p.2)) <$> deref ts' l.
Proof.
  intros H. unfold deref. induction l as [|i l IH]; [done|]. cbn [omap list_omap].
  assert (g <$> ts !! i = g <$> ts' !! i) as Hi by (by rewrite <- !list_lookup_fmap, H).
  destruct (ts !! i) as [t|], (ts' !! i) as [t'|]; try done.
  cbn [fmap option_fmap option_map list_fmap] in *. injection Hi as Hi.
  cbn [fst snd]. by rewrite Hi, IH.
Qed.

Lemma filter_factor {A B : Type} (g : A -> B) (P : A -> bool) (l l' : list A) :
  (forall a b, g a = g b -> P a = P b) ->
  g <$> l = g <$> l' -> g <$> List.filter P l = g <$> List.filter P l'.
Proof.
  intros H. revert l'. induction l as [|a l IH]; intros [|b l'] E; try done.
  cbn [fmap list_fmap] in E. injection E as Ea El.
  cbn [List.filter]. rewrite (H a b Ea).
  destruct (P b); cbn [fmap list_fmap]; by rewrite ?Ea, (IH l' El).
Qed.

Lemma blocked_table s s' t :
  resources s' = resources s -> blocked s' t = blocked s t.
Proof. intros H. unfold blocked, ownedByOther. by rewrite H. Qed.

Lemma settled_no_arrival now s :
  settled s -> List.filter (arrivesAt now s) (seq 0 (length (tasks s))) = [].
Proof.
  intros Hs. unfold settled in Hs. rewrite Forall_lookup in Hs.
  induction (seq 0 (length (tasks s))) as [|i l IH]; [done|].
  cbn [List.filter]. unfold arrivesAt at 1.
  destruct (tasks s !! i) as [t|] eqn:Ht; [|done].
  unfold arrives. by rewrite (Hs i t Ht).
Qed.

Section Permanence.
Context {host : Host}.

(** The selection reads the records of the Ready tasks up to their
    wait counters and admission flags, and overwrites the mark. *)
Lemma choose_boostedLife scheduler sA sB :
  boostedLife <$> tasks sA = boostedLife <$> tasks sB -> ready sA = ready sB ->
  snd (chooseNextWithBoost scheduler sA) = snd (chooseNextWithBoost scheduler sB).
Proof.
  intros Hv Hr.
  set (g := fun p : nat * task => (p.1, boostedLife p.2)).
  set (h := fun p : nat * task => (p.1, unwaited p.2)).
  set (markp := fun p : nat * task => (p.1, mark p.2)).
  assert (forall l, g <$> deref (tasks sA) l = g <$> deref (tasks sB) l) as Hd
    by (intros l; by apply deref_factor).
  assert (forall a b, g a = g b -> a.1 = b.1 /\ isCandidate a.2 = isCandidate b.2 /\
            h (markp a) = h (markp b)) as Hg.
  { intros [i [] ] [j [] ] E. unfold g, boostedLife, life, static in E.
    cbn in E. unfold h, markp, mark, unwaited, isCandidate. cbn.
    injection E; intros; subst; done. }
  assert (candidatesOf sA = candidatesOf sB) as Hc.
  { unfold candidatesOf. rewrite Hr.
    apply (fmap_factor g fst); [intros a b E; apply (Hg a b E)|].
    apply filter_factor; [intros a b E; apply (Hg a b E)|]. apply Hd. }
  unfold chooseNextWithBoost. rewrite !deref_marked. rewrite Hc.
  destruct (length (candidatesOf sB) =? 0)%nat; [done|].
  fold markp.
  set (LA := markp <$> deref (tasks sA) (candidatesOf sB)).
  set (LB := markp <$> deref (tasks sB) (candidatesOf sB)).
  assert (h <$> LA = h <$> LB) as Hh.
  { subst LA LB. rewrite <- !list_fmap_compose.
    apply (fmap_factor g); [intros a b E; apply (Hg a b E)|]. apply Hd. }
  assert (forall cmp : task -> task -> num,
            (forall a b, cmp (unwaited a) (unwaited b) = cmp a b) ->
            forall L L' : list (nat * task), h <$> L = h <$> L' ->
              fst <$> head (sortBy (byTask cmp) L) =
              fst <$> head (sortBy (byTask cmp) L')) as Hfirst.
  { intros cmp Hcmp.
    assert (forall L : list (nat * task),
              fst <$> head (sortBy (byTask cmp) L) =
              fst <$> head (sortBy (byTask cmp) (h <$> L))) as Hn.
    { intros L.
      rewrite (sortBy_fmap h (byTask cmp) (byTask cmp)) by (intros a b; apply Hcmp).
      by destruct (sortBy (byTask cmp) L). }
    intros L L' E. by rewrite (Hn L), (Hn L'), E. }
  assert (forall a b, cmpRMS (unwaited a) (unwaited b) = cmpRMS a b) as Hrms by done.
  assert (forall a b, cmpEDF (unwaited a) (unwaited b) = cmpEDF a b) as Hedf by done.
  cbn [snd].
  destruct (String.eqb scheduler "rms"); [by apply Hfirst|].
  destruct (String.eqb scheduler "edf"); [by apply Hfirst|].
  destruct (String.eqb scheduler "hybrid" || String.eqb scheduler "energy-hybrid");
    [|by apply Hfirst].
  assert (h <$> List.filter (fun p => _effectiveCritical p.2) LA =
          h <$> List.filter (fun p => _effectiveCritical p.2) LB) as Hf.
  { apply filter_factor; [|exact Hh]. intros a b E.
    change (_effectiveCritical (h a).2 = _effectiveCritical (h b).2).
    by rewrite E. }
  assert (length (List.filter (fun p => _effectiveCritical p.2) LA) =
          length (List.filter (fun p => _effectiveCritical p.2) LB)) as ->.
  { by rewrite <- (length_fmap h), Hf, length_fmap. }
  destruct (0 <? length _)%nat; by apply Hfirst.
Qed.

(** The boosts the estimator leaves depend on the execution records, on
    the Ready list and on the table alone. *)
Lemma inherited_boostedLife now1 now2 s1 s2 :
  life <$> tasks s1 = life <$> tasks s2 -> ready s1 = ready s2 ->
  resources s1 = resources s2 ->
  let after now s :=
    applyPriorityInheritance now (set_tasks (clearFlags <$> tasks s) s) in
  boostedLife <$> tasks (after now1 s1) = boostedLife <$> tasks (after now2 s2) /\
  ready (after now1 s1) = ready (after now2 s2) /\
  Forall (fun t => _effectiveCritical t = false) (tasks (after now1 s1)).
Proof.
  intros Hl Hr Hres. cbv zeta.
  set (c := fun s => set_tasks (set_boosted false <$> (clearFlags <$> tasks s)) s).
  assert (forall now s j,
            tasks (applyPriorityInheritance now (set_tasks (clearFlags <$> tasks s) s))
              !! j =
            (fun t => if existsb (boostsIndex (c s) j) (ready s)
                      then set_boosted true t else t) <$> tasks (c s) !! j) as Hlook.
  { intros now s j. unfold applyPriorityInheritance. cbv zeta.
    cbn [tasks ready set_tasks]. by apply (inheritAll_lookup now (c s)). }
  assert (life <$> tasks (c s1) = life <$> tasks (c s2)) as Hlc.
  { subst c. cbn [tasks set_tasks]. rewrite <- !list_fmap_compose.
    rewrite <- (list_fmap_ext life _ (tasks s1)) by done.
    rewrite <- (list_fmap_ext life _ (tasks s2)) by done. done. }
  assert (forall j w, boostsIndex (c s1) j w = boostsIndex (c s2) j w) as Hbi.
  { intros j w. unfold boostsIndex. by rewrite (boostsAt_life (c s2) (c s1) w). }
  split; [|split].
  - apply list_eq. intros j. rewrite !list_lookup_fmap, !Hlook.
    assert (existsb (boostsIndex (c s1) j) (ready s1) =
            existsb (boostsIndex (c s2) j) (ready s2)) as ->.
    { rewrite Hr. generalize (ready s2). intros l0.
      induction l0 as [|w l0 IH]; [done|].
      cbn [existsb]. by rewrite Hbi, IH. }
    assert (life <$> tasks (c s1) !! j = life <$> tasks (c s2) !! j) as Hj
      by (by rewrite <- !list_lookup_fmap, Hlc).
    destruct (tasks (c s1) !! j) as [t1|] eqn:E1, (tasks (c s2) !! j) as [t2|] eqn:E2;
      try done.
    cbn [fmap option_fmap option_map] in *.
    assert (life t1 = life t2) as Hj' by congruence. clear Hj. f_equal.
    assert (_boosted t1 = false /\ _boosted t2 = false) as [Hb1 Hb2].
    { subst c. cbn [tasks set_tasks] in E1, E2.
      rewrite list_lookup_fmap in E1, E2.
      destruct (_ !! j) as [x|] in E1; [|done].
      destruct (_ !! j) as [y|] in E2; [|done].
      cbn in E1, E2. injection E1 as <-. injection E2 as <-. done. }
    unfold boostedLife. destruct (existsb _ _).
    + change (life (set_boosted true t1)) with (life t1).
      change (life (set_boosted true t2)) with (life t2). by rewrite Hj'.
    + by rewrite Hb1, Hb2, Hj'.
  - assert (forall now s, ready (applyPriorityInheritance now s) = ready s) as Hk.
    { intros now s. unfold applyPriorityInheritance. cbv zeta.
      rewrite (foldl_frame ready); [done|]. intros s0 w.
      pose proof (inheritOne_machine now s0 w) as Hm. unfold machine in Hm.
      congruence. }
    by rewrite !Hk.
  - apply Forall_forall. intros t (j & Hj)%list_elem_of_lookup.
    rewrite Hlook in Hj. subst c. cbn [tasks set_tasks] in Hj.
    rewrite !list_lookup_fmap in Hj. destruct (tasks s1 !! j) as [x|]; [|done].
    cbn in Hj. injection Hj as <-. by destruct (existsb _ _).
Qed.


(** Once every task is admitted, the selection depends on the execution
    records, on the Ready list and on the table alone, not on the tick. *)
Lemma selectAt_settled scheduler now1 now2 s1 s2 :
  settled s1 -> settled s2 ->
  life <$> tasks s1 = life <$> tasks s2 -> ready s1 = ready s2 ->
  resources s1 = resources s2 ->
  snd (selectAt scheduler now1 s1) = snd (selectAt scheduler now2 s2).
Proof.
  intros Hs1 Hs2 Hl Hr Hres. unfold selectAt. cbv zeta.
  assert (forall now s, life <$> tasks (admitArrivals now s) = life <$> tasks s) as Ha
    by (intros; by apply admitArrivals_proj).
  assert (forall now s, resources (admitArrivals now s) = resources s) as Hb.
  { intros now s. pose proof (admitArrivals_unadmitted now s) as H.
    unfold unadmitted in H. congruence. }
  assert (forall now s, settled s -> ready (admitArrivals now s) = ready s) as Hc.
  { intros now s Hs. rewrite admitArrivals_ready, settled_no_arrival by done.
    by rewrite app_nil_r. }
  destruct (inherited_boostedLife now1 now2 (admitArrivals now1 s1)
              (admitArrivals now2 s2)) as (Hv & Hrd & _).
  - by rewrite !Ha.
  - by rewrite !Hc.
  - by rewrite !Hb.
  - by apply choose_boostedLife.
Qed.

(** A tick of a settled state whose selection is blocked. *)
Lemma blocked_tick scheduler lax now s m :
  wf s -> settled s ->
  snd (selectAt scheduler now s) = Some m ->
  blocked s <$> tasks s !! m = Some true ->
  let s' := fst (tick scheduler lax now s) in
  wf s' /\ settled s' /\ life <$> tasks s' = life <$> tasks s /\
  ready s' = ready s /\ resources s' = resources s /\
  cpuBusyTime s' = cpuBusyTime s /\ running s' = None /\
  snd (tick scheduler lax now s) = false.
Proof.
  intros Hwf Hs Hsel Hb. cbv zeta.
  destruct (tasks s !! m) as [tm|] eqn:Hm; [|done].
  cbn in Hb. injection Hb as Hb.
  pose proof (tick_effect scheduler lax now s) as He. cbv zeta in He.
  rewrite Hsel in He. destruct He as (t & Ht & Hcand & _ & Hres & Hbusy & Hrun).
  assert (t = tm) as -> by congruence.
  unfold tableAfter in Hres. rewrite Hb in Hres, Hbusy, Hrun.
  assert (forall j t, tasks s !! j = Some t ->
            exists t', tasks (fst (tick scheduler lax now s)) !! j = Some t' /\
              life t' = life t /\ admitted t' = true) as Hall.
  { intros j t Hj.
    destruct (tick_life scheduler lax now s j t Hwf Hj) as (t' & Hj' & Hl & Ha & _).
    exists t'. split; [done|]. split.
    - rewrite Hl. rewrite Hsel. unfold runsAt.
      destruct (bool_decide (Some m = Some j)) eqn:E; [|done].
      apply bool_decide_eq_true in E. injection E as <-.
      assert (t = tm) as -> by congruence. by rewrite Hb.
    - unfold settled in Hs. rewrite Forall_lookup in Hs.
      by rewrite Ha, (Hs j t Hj). }
  assert (life <$> tasks (fst (tick scheduler lax now s)) = life <$> tasks s) as Hl.
  { apply list_eq. intros j. rewrite !list_lookup_fmap.
    destruct (tasks s !! j) as [t|] eqn:Hj.
    - destruct (Hall j t Hj) as (t' & -> & Hlt & _). cbn. by rewrite Hlt.
    - apply lookup_ge_None in Hj. rewrite <- (tick_length scheduler lax now s) in Hj.
      apply lookup_ge_None in Hj. by rewrite Hj. }
  split; [by apply tick_wf|]. split; [|split; [exact Hl|]].
  { unfold settled. apply Forall_lookup. intros j t' Hj'.
    destruct (tick_lookup_back scheduler lax now s j t' Hj') as (t & Hj).
    destruct (Hall j t Hj) as (t'' & Hj'' & _ & Ha). congruence. }
  split.
  { destruct (tick_clock scheduler lax now s) as (-> & _).
    rewrite selectAt_ready, admitArrivals_ready, settled_no_arrival by done.
    by rewrite app_nil_r. }
  split; [by rewrite Hres|]. split; [rewrite Hbusy; lia|]. split; [done|].
  rewrite tick_stop. destruct (Hall m tm Hm) as (t' & Hm' & Hlt & _).
  apply (allDone_false _ m t' Hm').
  assert (completed t' = completed tm) as -> by (unfold life in Hlt; congruence).
  unfold isCandidate in Hcand. by destruct (completed tm), (num_gtb _ _).
Qed.

(** X25. Once every task is admitted, a selection that is blocked is
    made again at every later tick: the run never reselects among the
    other Ready tasks. From the tick at which the selected task finds its
    resource owned by another, the busy time, the table of owners and the
    execution record of every task stay as they are, each tick adds its
    snapshot to the timeline, so the loop never stops early, and the next
    tick selects the same task. This holds under every discipline. *)
Theorem blocked_selection_is_permanent (scheduler : string)
    (laxityThreshold : num) (now : Z) (s : state) (m : nat) (n : nat) :
  wf s -> settled s ->
  snd (selectAt scheduler now s) = Some m ->
  blocked s <$> tasks s !! m = Some true ->
  let s' := loop scheduler laxityThreshold n now s in
  cpuBusyTime s' = cpuBusyTime s /\ resources s' = resources s /\
  life <$> tasks s' = life <$> tasks s /\
  length (timeline s') = (length (timeline s) + n)%nat /\
  snd (selectAt scheduler (now + Z.of_nat n) s') = Some m.
Proof.
  cbv zeta. revert now s. induction n as [|n IH]; intros now s Hwf Hs Hsel Hb.
  - cbn [loop]. rewrite Z.add_0_r, Nat.add_0_r. done.
  - destruct (blocked_tick scheduler laxityThreshold now s m Hwf Hs Hsel Hb)
      as (Hwf' & Hs' & Hl & Hr & Hres & Hbusy & _ & Hgo).
    pose proof (tick_snapshot scheduler laxityThreshold now s Hgo) as Htl.
    cbn [loop]. destruct (tick scheduler laxityThreshold now s) as [s1 stop].
    cbn [fst snd] in *. subst stop.
    assert (snd (selectAt scheduler (now + 1) s1) = Some m) as Hsel'
      by (by rewrite <- Hsel; apply selectAt_settled).
    assert (blocked s1 <$> tasks s1 !! m = Some true) as Hb'.
    { destruct (tasks s !! m) as [tm|] eqn:Hm; [|done].
      destruct (proj_lookup life _ _ m tm Hl Hm) as (t1 & -> & Hlt).
      cbn in *. by rewrite (blocked_table s s1), (blocked_life s t1 tm). }
    destruct (IH (now + 1) s1 Hwf' Hs' Hsel' Hb') as (H1 & H2 & H3 & H4 & H5).
    rewrite H1, H2, H3, H4, Hbusy, Hres, Hl, Htl, length_app. cbn [length].
    replace (now + Z.of_nat (S n)) with (now + 1 + Z.of_nat n) by lia.
    repeat split; [lia|exact H5].
Qed.

End Permanence.

(** In the contention example W1 is selected at tick 2 and finds R owned
    by O: five ticks later the busy time is still that of tick 1. *)
Lemma blocked_selection_is_permanent_witness :
  cpuBusyTime (loop "edf" (of_Z 20) 5 2 deadlocked) = cpuBusyTime deadlocked.
Proof.
  refine (proj1 (blocked_selection_is_permanent "edf" (of_Z 20) 2 deadlocked 1 5
                   _ _ _ _)).
  - apply (bool_decide_unpack _). vm_compute. exact I.
  - unfold settled. apply (bool_decide_unpack _). vm_compute. exact I.
  - vm_compute. reflexivity.
  - vm_compute. reflexivity.
Defined.
